(** * A discrete-time load balancer: shallow embedding and verified properties

    The development follows the four classes of the simulator:

    - [Request]       (Request.h / Request.cpp)
    - [WebServer]     (WebServer.h / WebServer.cpp)
    - [RequestQueue]  (RequestQueue.h / RequestQueue.cpp)
    - [LoadBalancer]  (LoadBalancer.h / LoadBalancer.cpp)

    Modelling conventions.

    - A C++ [int] is a [Z].  Signed overflow is undefined behaviour in C++,
      so executions in which a counter would leave the [int] range are
      outside the model.
    - A [std::queue<Request>] is a [list Request.t] whose head is the front
      of the queue; [push] appends at the tail.
    - A [std::vector] is a list; [servers[i]] is stdpp's list lookup and the
      in-place update of an element is stdpp's list insert.
    - A C++ [double] is the rational [Q] it holds.  The member functions
      that report a [double] ([getUtilization], [getSystemUtilization],
      [getQueueUtilization], the average times), and [isOverloaded],
      which compares two of them with constants, are given by the exact
      value of their expression.  The scaling step,
      [LoadBalancer::checkLoadBalancing], decides on [double]s how the
      state changes; there the expressions are evaluated as the machine
      does, in IEEE-754 binary64 with every operation rounded to nearest,
      ties to even (module [Binary64]), and the functions that feed the
      decision have a second embedding, named [..._double].  Infinities
      and NaN are outside the model: the threshold is a finite number,
      and no value of the scaling step comes near [2 ^ 1024].
    - Member functions that mutate their object return the new object; a
      member function that also returns a value returns a pair.
    - [Request::arrivalTime] is a reading of the steady clock that only
      [Request::getWaitTime] consults; neither is modelled. *)

From Stdlib Require Import ZArith QArith Qround String List Lia DecimalString.
From stdpp Require Import base list.
Import ListNotations.

Open Scope Z_scope.

(** ** Comparisons on [double] *)

Definition Qltb (a b : Q) : bool := negb (Qle_bool b a).

(** ** IEEE-754 binary64 arithmetic

    A finite [double] is represented by its value.  Every operation is the
    exact operation followed by [round], the rounding to the nearest
    [double], ties to the even significand. *)

Module Binary64.

(** The binade of a positive rational [x]: the [e] with
    [2 ^ e <= x < 2 ^ (e + 1)]. *)
Definition pow2 (e : Z) : Q :=
  if 0 <=? e then inject_Z (2 ^ e) else 1 # Z.to_pos (2 ^ (- e)).

Definition ilog2 (x : Q) : Z :=
  let e := Z.log2 (Qnum x) - Z.log2 (Zpos (Qden x)) in
  if Qle_bool (pow2 e) x then e else e - 1.

(** The integer nearest to [a / b], ties to even, for [0 <= a] and
    [0 < b]. *)
Definition nearest_even (a b : Z) : Z :=
  let q := a / b in
  match 2 * (a mod b) ?= b with
  | Lt => q
  | Gt => q + 1
  | Eq => if Z.even q then q else q + 1
  end.

(** Rounding of a positive rational [x] to a multiple of [2 ^ c]: the
    significand has 53 bits, so [c] is the binade of [x] less 52; below
    [2 ^ -1022] the spacing stays [2 ^ -1074] (subnormal numbers). *)
Definition round_pos (x : Q) : Q :=
  let c := Z.max (ilog2 x - 52) (-1074) in
  if 0 <=? c
  then inject_Z (nearest_even (Qnum x) (Zpos (Qden x) * 2 ^ c) * 2 ^ c)
  else nearest_even (Qnum x * 2 ^ (- c)) (Zpos (Qden x)) # Z.to_pos (2 ^ (- c)).

Definition round (x : Q) : Q :=
  match Qnum x with
  | Z0 => 0%Q
  | Zpos _ => round_pos x
  | Zneg _ => (- round_pos (- x))%Q
  end.

(** [static_cast<double>(z)] and the conversion of an [int] operand. *)
Definition of_int (z : Z) : Q := round (inject_Z z).

Definition add (x y : Q) : Q := round (x + y).
Definition mul (x y : Q) : Q := round (x * y).
Definition div (x y : Q) : Q := round (x / y).

(** The literals [100.0] and [0.05]. *)
Definition hundred : Q := 100%Q.
Definition twentieth : Q := round (5 # 100).

End Binary64.

(** [std::to_string] on an [int]. *)
Definition to_string (z : Z) : string := NilZero.string_of_int (Z.to_int z).

(** ** Request *)

Module Request.

Record t : Type := mk
  { clientIP : string;
    requestType : string;
    priority : Z;
    processingTime : Z;
    requestID : Z }.

(** [Request::Request()] *)
Definition default : t := mk "0.0.0.0" "GET" 5 10 0.

Definition getClientIP (r : t) : string := clientIP r.
Definition getProcessingTime (r : t) : Z := processingTime r.

(** [Request::setProcessingTime] *)
Definition setProcessingTime (r : t) (time : Z) : t :=
  mk (clientIP r) (requestType r) (priority r) time (requestID r).

End Request.

(** ** WebServer *)

Module WebServer.

Record t : Type := mk
  { serverID : Z;
    serverIP : string;
    maxCapacity : Z;
    currentLoad : Z;
    requestQueue : list Request.t;
    isActive : bool;
    totalRequestsProcessed : Z;
    totalProcessingTime : Z }.

(** [WebServer::WebServer(int id, const std::string& ip, int capacity)] *)
Definition make (id : Z) (ip : string) (capacity : Z) : t :=
  mk id ip capacity 0 [] true 0 0.

(** [WebServer::WebServer()] *)
Definition default : t := mk 0 "0.0.0.0" 10 0 [] true 0 0.

Definition setIsActive (w : t) (active : bool) : t :=
  mk (serverID w) (serverIP w) (maxCapacity w) (currentLoad w)
     (requestQueue w) active (totalRequestsProcessed w)
     (totalProcessingTime w).

Definition setRequestQueue (w : t) (q : list Request.t) : t :=
  mk (serverID w) (serverIP w) (maxCapacity w) (currentLoad w)
     q (isActive w) (totalRequestsProcessed w) (totalProcessingTime w).

(** [requestQueue.push(request); currentLoad++] *)
Definition push (w : t) (request : Request.t) : t :=
  mk (serverID w) (serverIP w) (maxCapacity w) (currentLoad w + 1)
     (requestQueue w ++ [request]) (isActive w)
     (totalRequestsProcessed w) (totalProcessingTime w).

(** The four updates of the "request completed" branch of
    [WebServer::processCycle]; [completedRequests] is a local of the
    caller. *)
Definition complete (w : t) (currentRequest : Request.t) : t :=
  mk (serverID w) (serverIP w) (maxCapacity w) (currentLoad w - 1)
     (requestQueue w) (isActive w)
     (totalRequestsProcessed w + 1)
     (totalProcessingTime w + Request.getProcessingTime currentRequest).

(** [WebServer::addRequest] *)
Definition addRequest (w : t) (request : Request.t) : bool * t :=
  if negb (isActive w) || (maxCapacity w <=? currentLoad w)
  then (false, w)
  else (true, push w request).

(** The [while (!requestQueue.empty())] loop of [WebServer::processCycle].
    [pending] is what is left of [requestQueue], [tempQueue] and
    [completedRequests] are the locals of the same name.  The final
    assignment [requestQueue = tempQueue] is made when [pending] is
    exhausted. *)
Fixpoint processLoop (pending : list Request.t) (completedRequests : Z)
         (tempQueue : list Request.t) (w : t) : Z * t :=
  match pending with
  | [] => (completedRequests, setRequestQueue w tempQueue)
  | currentRequest :: pending' =>
      let remainingTime := Request.getProcessingTime currentRequest - 1 in
      if remainingTime <=? 0
      then processLoop pending' (completedRequests + 1) tempQueue
                       (complete w currentRequest)
      else processLoop pending' completedRequests
                       (tempQueue ++
                          [Request.setProcessingTime currentRequest remainingTime])
                       w
  end.

(** [WebServer::processCycle] *)
Definition processCycle (w : t) : Z * t :=
  if negb (isActive w) || (match requestQueue w with [] => true | _ => false end)
  then (0, w)
  else processLoop (requestQueue w) 0 [] w.

(** [WebServer::canAcceptRequest] *)
Definition canAcceptRequest (w : t) : bool :=
  isActive w && (currentLoad w <? maxCapacity w).

(** [WebServer::getUtilization] *)
Definition getUtilization (w : t) : Q :=
  if maxCapacity w =? 0 then 0%Q
  else (inject_Z (currentLoad w) / inject_Z (maxCapacity w) * 100)%Q.

(** [WebServer::getUtilization] as the machine evaluates it:
    [(static_cast<double>(currentLoad) / maxCapacity) * 100.0]. *)
Definition getUtilization_double (w : t) : Q :=
  if maxCapacity w =? 0 then 0%Q
  else Binary64.mul
         (Binary64.div (Binary64.of_int (currentLoad w))
                       (Binary64.of_int (maxCapacity w)))
         Binary64.hundred.

(** [WebServer::getAverageProcessingTime] *)
Definition getAverageProcessingTime (w : t) : Q :=
  if totalRequestsProcessed w =? 0 then 0%Q
  else (inject_Z (totalProcessingTime w) / inject_Z (totalRequestsProcessed w))%Q.

(** [WebServer::getQueueSize] *)
Definition getQueueSize (w : t) : Z := Z.of_nat (length (requestQueue w)).

(** [n] successive calls of [processCycle]; the state after them. *)
Fixpoint cycles (n : nat) (w : t) : t :=
  match n with
  | O => w
  | S n' => cycles n' (snd (processCycle w))
  end.

(** The value returned by the [n]-th call ([n >= 1]) of [processCycle]
    made on [w]. *)
Definition reported (n : nat) (w : t) : Z :=
  fst (processCycle (cycles (Nat.pred n) w)).

End WebServer.

(** ** RequestQueue *)

Module RequestQueue.

Record t : Type := mk
  { requestQueue : list Request.t;
    maxSize : Z;
    totalRequestsAdded : Z;
    totalRequestsRemoved : Z;
    blockedIPs : list string }.

(** [RequestQueue::RequestQueue()] *)
Definition default : t := mk [] 1000 0 0 [].

(** [RequestQueue::RequestQueue(int maxQueueSize)] *)
Definition make (maxQueueSize : Z) : t := mk [] maxQueueSize 0 0 [].

Definition isEmpty (q : t) : bool :=
  match requestQueue q with [] => true | _ => false end.

Definition getSize (q : t) : Z := Z.of_nat (length (requestQueue q)).

Definition isFull (q : t) : bool := maxSize q <=? getSize q.

(** [std::find(blockedIPs.begin(), blockedIPs.end(), ip) != blockedIPs.end()] *)
Definition isIPBlocked (q : t) (ip : string) : bool :=
  existsb (String.eqb ip) (blockedIPs q).

(** [RequestQueue::addRequest] *)
Definition addRequest (q : t) (request : Request.t) : bool * t :=
  if isIPBlocked q (Request.getClientIP request) then (false, q)
  else if isFull q then (false, q)
  else (true, mk (requestQueue q ++ [request]) (maxSize q)
                 (totalRequestsAdded q + 1) (totalRequestsRemoved q)
                 (blockedIPs q)).

(** [RequestQueue::getNextRequest] *)
Definition getNextRequest (q : t) : Request.t * t :=
  match requestQueue q with
  | [] => (Request.default, q)
  | nextRequest :: rest =>
      (nextRequest, mk rest (maxSize q) (totalRequestsAdded q)
                       (totalRequestsRemoved q + 1) (blockedIPs q))
  end.

(** [RequestQueue::clear] *)
Definition clear (q : t) : t :=
  mk [] (maxSize q) (totalRequestsAdded q) (totalRequestsRemoved q)
     (blockedIPs q).

(** [RequestQueue::blockIP] *)
Definition blockIP (q : t) (ip : string) : t :=
  if isIPBlocked q ip then q
  else mk (requestQueue q) (maxSize q) (totalRequestsAdded q)
          (totalRequestsRemoved q) (blockedIPs q ++ [ip]).

(** [blockedIPs.erase(it)] at the first occurrence found by [std::find]. *)
Fixpoint eraseFirst (ip : string) (l : list string) : list string :=
  match l with
  | [] => []
  | x :: l' => if String.eqb ip x then l' else x :: eraseFirst ip l'
  end.

(** [RequestQueue::unblockIP] *)
Definition unblockIP (q : t) (ip : string) : t :=
  mk (requestQueue q) (maxSize q) (totalRequestsAdded q)
     (totalRequestsRemoved q) (eraseFirst ip (blockedIPs q)).

(** [RequestQueue::getUtilization] *)
Definition getUtilization (q : t) : Q :=
  if maxSize q =? 0 then 0%Q
  else (inject_Z (getSize q) / inject_Z (maxSize q) * 100)%Q.

(** [RequestQueue::getAverageWaitTime] *)
Definition getAverageWaitTime (q : t) : Q :=
  if totalRequestsRemoved q =? 0 then 0%Q
  else (inject_Z (totalRequestsRemoved q) * 10)%Q.

End RequestQueue.

(** ** LoadBalancer *)

Module LoadBalancer.

Record t : Type := mk
  { servers : list WebServer.t;
    requestQueue : RequestQueue.t;
    nextServerIndex : Z;
    totalRequestsProcessed : Z;
    totalProcessingTime : Z;
    maxServers : Z;
    minServers : Z;
    loadThreshold : Q }.

Definition setServers (lb : t) (s : list WebServer.t) : t :=
  mk s (requestQueue lb) (nextServerIndex lb) (totalRequestsProcessed lb)
     (totalProcessingTime lb) (maxServers lb) (minServers lb)
     (loadThreshold lb).

Definition setRequestQueue (lb : t) (q : RequestQueue.t) : t :=
  mk (servers lb) q (nextServerIndex lb) (totalRequestsProcessed lb)
     (totalProcessingTime lb) (maxServers lb) (minServers lb)
     (loadThreshold lb).

Definition setNextServerIndex (lb : t) (i : Z) : t :=
  mk (servers lb) (requestQueue lb) i (totalRequestsProcessed lb)
     (totalProcessingTime lb) (maxServers lb) (minServers lb)
     (loadThreshold lb).

Definition setTotalRequestsProcessed (lb : t) (n : Z) : t :=
  mk (servers lb) (requestQueue lb) (nextServerIndex lb) n
     (totalProcessingTime lb) (maxServers lb) (minServers lb)
     (loadThreshold lb).

(** [static_cast<int>(servers.size())] *)
Definition size (lb : t) : Z := Z.of_nat (length (servers lb)).

(** [LoadBalancer::addServer] *)
Definition addServer (lb : t) : bool * t :=
  if maxServers lb <=? size lb then (false, lb)
  else
    let serverID := size lb + 1 in
    let serverIP := String.append "192.168.1." (to_string serverID) in
    (true, setServers lb (servers lb ++ [WebServer.make serverID serverIP 5])).

(** [LoadBalancer::removeServer]; [servers.pop_back()] is [removelast].
    [pop_back] on an empty vector is undefined; the guard lets it be reached
    only with a negative [minServers], and the model then leaves the empty
    collection as it is. *)
Definition removeServer (lb : t) : bool * t :=
  if size lb <=? minServers lb then (false, lb)
  else (true, setServers lb (removelast (servers lb))).

(** The loop [for (int i = 0; i < initialServers; ++i) addServer();] *)
Fixpoint addServers (n : nat) (lb : t) : t :=
  match n with
  | O => lb
  | S n' => addServers n' (snd (addServer lb))
  end.

(** [LoadBalancer::LoadBalancer(int, int, int, double)] *)
Definition make (initialServers maxServerCount minServerCount : Z)
           (threshold : Q) : t :=
  addServers (Z.to_nat initialServers)
             (mk [] RequestQueue.default 0 0 0 maxServerCount minServerCount
                 threshold).

(** [LoadBalancer::LoadBalancer()] *)
Definition default : t :=
  snd (addServer (mk [] RequestQueue.default 0 0 0 20 1 (8 # 10))).

(** [LoadBalancer::addRequest] *)
Definition addRequest (lb : t) (request : Request.t) : bool * t :=
  let (ok, q) := RequestQueue.addRequest (requestQueue lb) request in
  (ok, setRequestQueue lb q).

(** The first loop of [LoadBalancer::processCycle], over the servers [l]
    still to visit: every active server runs one cycle and its completions
    are added to [totalCompleted]. *)
Fixpoint processServers (l : list WebServer.t) (totalCompleted : Z)
  : Z * list WebServer.t :=
  match l with
  | [] => (totalCompleted, [])
  | server :: l' =>
      if WebServer.isActive server then
        let (completed, server') := WebServer.processCycle server in
        let (total, l'') := processServers l' (totalCompleted + completed) in
        (total, server' :: l'')
      else
        let (total, l'') := processServers l' totalCompleted in
        (total, server :: l'')
  end.

(** The inner [for] loop of [LoadBalancer::distributeRequests], from
    iteration [i] on, with [steps] iterations left.  The result tells
    whether a request was assigned.

    [currentIndex] is [(serverIndex + i) % servers.size()].  The cursor is
    never negative in a state reached from a constructor, so the
    conversion of [serverIndex] to [size_t] is the identity there.  The
    index is always in range when the collection is not empty; the branch
    for a failed lookup is never taken. *)
Fixpoint scan (steps : nat) (i : Z) (serverIndex : Z) (lb : t) : bool * t :=
  match steps with
  | O => (false, lb)
  | S steps' =>
      let currentIndex := (serverIndex + i) mod size lb in
      match servers lb !! Z.to_nat currentIndex with
      | Some server =>
          if WebServer.canAcceptRequest server then
            let (request, q) := RequestQueue.getNextRequest (requestQueue lb) in
            let lb1 := setRequestQueue lb q in
            let (added, server') := WebServer.addRequest server request in
            if added then
              (true,
               setNextServerIndex
                 (setServers lb1 (<[Z.to_nat currentIndex := server']> (servers lb1)))
                 ((currentIndex + 1) mod size lb))
            else scan steps' (i + 1) serverIndex lb1
          else scan steps' (i + 1) serverIndex lb
      | None => scan steps' (i + 1) serverIndex lb
      end
  end.

(** The [while] loop of [LoadBalancer::distributeRequests];
    [budget] is [maxAttempts - attempts]. *)
Fixpoint distributeLoop (budget : nat) (lb : t) : t :=
  match budget with
  | O => lb
  | S budget' =>
      if RequestQueue.isEmpty (requestQueue lb) then lb
      else
        let serverIndex := nextServerIndex lb in
        let (requestAssigned, lb') := scan (length (servers lb)) 0 serverIndex lb in
        if requestAssigned then distributeLoop budget' lb' else lb'
  end.

(** [LoadBalancer::distributeRequests] *)
Definition distributeRequests (lb : t) : t :=
  if RequestQueue.isEmpty (requestQueue lb) then lb
  else
    let maxAttempts := (length (servers lb) * 2)%nat in
    distributeLoop maxAttempts lb.

(** The loop of [LoadBalancer::getSystemUtilization], over the servers [l]
    still to visit: the utilization of every active server is added to
    [totalUtilization] and [activeServers] counts them. *)
Fixpoint sumActive (l : list WebServer.t) (totalUtilization : Q)
         (activeServers : Z) : Q * Z :=
  match l with
  | [] => (totalUtilization, activeServers)
  | server :: l' =>
      if WebServer.isActive server
      then sumActive l' (totalUtilization + WebServer.getUtilization server)%Q
                     (activeServers + 1)
      else sumActive l' totalUtilization activeServers
  end.

(** [LoadBalancer::getSystemUtilization] *)
Definition getSystemUtilization (lb : t) : Q :=
  match servers lb with
  | [] => 0%Q
  | _ =>
      let (totalUtilization, activeServers) := sumActive (servers lb) 0%Q 0 in
      if 0 <? activeServers
      then (totalUtilization / inject_Z activeServers)%Q
      else 0%Q
  end.

(** [LoadBalancer::getQueueSize] *)
Definition getQueueSize (lb : t) : Z := RequestQueue.getSize (requestQueue lb).

(** [LoadBalancer::getQueueUtilization] *)
Definition getQueueUtilization (lb : t) : Q :=
  RequestQueue.getUtilization (requestQueue lb).

(** The loop of [LoadBalancer::getSystemUtilization] as the machine
    evaluates it: [totalUtilization += server->getUtilization()] rounds
    every sum. *)
Fixpoint sumActive_double (l : list WebServer.t) (totalUtilization : Q)
         (activeServers : Z) : Q * Z :=
  match l with
  | [] => (totalUtilization, activeServers)
  | server :: l' =>
      if WebServer.isActive server
      then sumActive_double l'
             (Binary64.add totalUtilization (WebServer.getUtilization_double server))
             (activeServers + 1)
      else sumActive_double l' totalUtilization activeServers
  end.

(** [LoadBalancer::getSystemUtilization] as the machine evaluates it. *)
Definition getSystemUtilization_double (lb : t) : Q :=
  match servers lb with
  | [] => 0%Q
  | _ =>
      let (totalUtilization, activeServers) := sumActive_double (servers lb) 0%Q 0 in
      if 0 <? activeServers
      then Binary64.div totalUtilization (Binary64.of_int activeServers)
      else 0%Q
  end.

(** The member [loadThreshold] as the [double] it is: the number the
    balancer was built with, converted to binary64. *)
Definition threshold_double (lb : t) : Q := Binary64.round (loadThreshold lb).

(** The local [avgUtilization] of [LoadBalancer::checkLoadBalancing]:
    [getSystemUtilization() / 100.0]. *)
Definition avgUtilization (lb : t) : Q :=
  Binary64.div (getSystemUtilization_double lb) Binary64.hundred.

(** The guard of the first [if] of [checkLoadBalancing], evaluated in
    [lb] with the locals [avg] and [queueSize]. *)
Definition scaleUpGuard (avg : Q) (queueSize : Z) (lb : t) : bool :=
  (Qltb (threshold_double lb) avg || (10 <? queueSize))
  && (size lb <? maxServers lb).

(** The guard of the second [if] of [checkLoadBalancing]; the product
    [loadThreshold * 0.05] is rounded. *)
Definition scaleDownGuard (avg : Q) (queueSize : Z) (lb : t) : bool :=
  Qltb avg (Binary64.mul (threshold_double lb) Binary64.twentieth)
  && (queueSize =? 0)
  && (minServers lb + 3 <? size lb).

(** [LoadBalancer::checkLoadBalancing] *)
Definition checkLoadBalancing (lb : t) : t :=
  match servers lb with
  | [] => lb
  | _ =>
      let avg := avgUtilization lb in
      let queueSize := getQueueSize lb in
      let lb1 := if scaleUpGuard avg queueSize lb then snd (addServer lb) else lb in
      if scaleDownGuard avg queueSize lb1 then snd (removeServer lb1) else lb1
  end.

(** [LoadBalancer::processCycle] *)
Definition processCycle (lb : t) : Z * t :=
  let (totalCompleted, servers') := processServers (servers lb) 0 in
  let lb1 := setServers lb servers' in
  let lb2 := distributeRequests lb1 in
  let lb3 := checkLoadBalancing lb2 in
  (totalCompleted,
   setTotalRequestsProcessed lb3 (totalRequestsProcessed lb3 + totalCompleted)).

(** [LoadBalancer::getAverageProcessingTime] *)
Definition getAverageProcessingTime (lb : t) : Q :=
  if totalRequestsProcessed lb =? 0 then 0%Q
  else (inject_Z (totalProcessingTime lb) / inject_Z (totalRequestsProcessed lb))%Q.

(** [LoadBalancer::blockIP], [LoadBalancer::unblockIP] *)
Definition blockIP (lb : t) (ip : string) : t :=
  setRequestQueue lb (RequestQueue.blockIP (requestQueue lb) ip).

Definition unblockIP (lb : t) (ip : string) : t :=
  setRequestQueue lb (RequestQueue.unblockIP (requestQueue lb) ip).

(** [LoadBalancer::isOverloaded] *)
Definition isOverloaded (lb : t) : bool :=
  Qltb 90 (getSystemUtilization lb) || Qltb 80 (getQueueUtilization lb).

(** The loop of [LoadBalancer::getActiveServerCount], over the servers [l]
    still to visit. *)
Fixpoint countActive (l : list WebServer.t) (activeCount : Z) : Z :=
  match l with
  | [] => activeCount
  | server :: l' =>
      if WebServer.isActive server then countActive l' (activeCount + 1)
      else countActive l' activeCount
  end.

(** [LoadBalancer::getActiveServerCount] *)
Definition getActiveServerCount (lb : t) : Z := countActive (servers lb) 0.

(** [LoadBalancer::getTotalRequestsProcessed] *)
Definition getTotalRequestsProcessed (lb : t) : Z := totalRequestsProcessed lb.

(** *** The public mutating operations and the states they reach *)

Inductive op : Type :=
| AddServer
| RemoveServer
| AddRequest (request : Request.t)
| ProcessCycle
| DistributeRequests
| CheckLoadBalancing
| BlockIP (ip : string)
| UnblockIP (ip : string).

Definition step (lb : t) (o : op) : t :=
  match o with
  | AddServer => snd (addServer lb)
  | RemoveServer => snd (removeServer lb)
  | AddRequest request => snd (addRequest lb request)
  | ProcessCycle => snd (processCycle lb)
  | DistributeRequests => distributeRequests lb
  | CheckLoadBalancing => checkLoadBalancing lb
  | BlockIP ip => blockIP lb ip
  | UnblockIP ip => unblockIP lb ip
  end.

Definition run (ops : list op) (lb : t) : t := fold_left step ops lb.

Inductive reachable : t -> Prop :=
| reachable_default : reachable default
| reachable_make initialServers maxServerCount minServerCount threshold :
    reachable (make initialServers maxServerCount minServerCount threshold)
| reachable_step lb o : reachable lb -> reachable (step lb o).

End LoadBalancer.

(** ** State invariants

    The data-model invariants of a worker and of the pool, and the
    relations between the state before and after an operation that the
    proofs below thread through the loops. *)

(** The load of a worker is the length of its FIFO, and its capacity is
    not negative. *)
Definition worker_ok (w : WebServer.t) : Prop :=
  WebServer.currentLoad w = Z.of_nat (length (WebServer.requestQueue w))
  /\ 0 <= WebServer.maxCapacity w.

Definition pool_ok (lb : LoadBalancer.t) : Prop :=
  Forall worker_ok (LoadBalancer.servers lb).

(** The fields no operation writes after construction. *)
Definition same_settings (lb lb' : LoadBalancer.t) : Prop :=
  LoadBalancer.maxServers lb' = LoadBalancer.maxServers lb
  /\ LoadBalancer.minServers lb' = LoadBalancer.minServers lb
  /\ LoadBalancer.loadThreshold lb' = LoadBalancer.loadThreshold lb
  /\ LoadBalancer.totalProcessingTime lb' = LoadBalancer.totalProcessingTime lb.

(** The cursor after an operation: left as it was, or set by a placement
    to an index of the collection the placement was made in, of size [n]. *)
Definition cursor_kept_or_fresh (n : Z) (lb lb' : LoadBalancer.t) : Prop :=
  LoadBalancer.nextServerIndex lb' = LoadBalancer.nextServerIndex lb
  \/ 0 <= LoadBalancer.nextServerIndex lb' < n.

(** The cursor can be used as an index as it is. *)
Definition cursor_valid (lb : LoadBalancer.t) : Prop :=
  0 <= LoadBalancer.nextServerIndex lb < LoadBalancer.size lb.

(** What holds of the cursor in every state reached from a constructor. *)
Definition cursor_inv (lb : LoadBalancer.t) : Prop :=
  0 <= LoadBalancer.nextServerIndex lb
  /\ (LoadBalancer.nextServerIndex lb = 0
      \/ LoadBalancer.nextServerIndex lb < LoadBalancer.maxServers lb)
  /\ (LoadBalancer.size lb = 0
      \/ LoadBalancer.size lb <= LoadBalancer.maxServers lb).

(** The pool size lies between the configured bounds. *)
Definition pool_bounds (lb : LoadBalancer.t) : Prop :=
  LoadBalancer.minServers lb <= LoadBalancer.size lb <= LoadBalancer.maxServers lb.

(** The mean utilization of the active servers as the specification
    words it: the sum of their utilizations (percentages) over their number,
    and 0 when no server is active. *)
Definition total_utilization (l : list WebServer.t) : Q :=
  fold_right (fun w acc => (WebServer.getUtilization w + acc)%Q) 0%Q l.

Definition mean_active_utilization (lb : LoadBalancer.t) : Q :=
  match List.filter WebServer.isActive (LoadBalancer.servers lb) with
  | [] => 0%Q
  | active => (total_utilization active / inject_Z (Z.of_nat (length active)))%Q
  end.

(** The mean utilization of the active servers as the machine computes
    it: the utilizations are summed from left to right, every sum rounded,
    and the total is divided by their number; 0 when no server is
    active. *)
Definition mean_active_utilization_double (lb : LoadBalancer.t) : Q :=
  match List.filter WebServer.isActive (LoadBalancer.servers lb) with
  | [] => 0%Q
  | active =>
      Binary64.div
        (fold_left Binary64.add (map WebServer.getUtilization_double active) 0%Q)
        (Binary64.of_int (Z.of_nat (length active)))
  end.

(** The scaling conditions as the specification words them, over the mean
    utilization of the active servers (as a fraction), the queue size and
    the pool size of [lb].  The mean, the product [threshold * 0.05] and
    the comparisons are those of [double] arithmetic. *)
Definition scale_up_condition (lb : LoadBalancer.t) : Prop :=
  ((LoadBalancer.threshold_double lb < LoadBalancer.avgUtilization lb)%Q
   \/ 10 < LoadBalancer.getQueueSize lb)
  /\ LoadBalancer.size lb < LoadBalancer.maxServers lb.

Definition scale_down_condition (lb : LoadBalancer.t) : Prop :=
  (LoadBalancer.avgUtilization lb
   < Binary64.mul (LoadBalancer.threshold_double lb) Binary64.twentieth)%Q
  /\ LoadBalancer.getQueueSize lb = 0
  /\ LoadBalancer.minServers lb + 3 < LoadBalancer.size lb.

(** What every public operation guarantees of the state [lb'] it leaves,
    in terms of the state [lb] it was called in. *)
Definition op_effect (lb lb' : LoadBalancer.t) : Prop :=
  same_settings lb lb'
  /\ (pool_ok lb -> pool_ok lb')
  /\ (pool_bounds lb -> pool_bounds lb')
  /\ cursor_kept_or_fresh (LoadBalancer.size lb) lb lb'
  /\ (LoadBalancer.size lb <= LoadBalancer.maxServers lb ->
      LoadBalancer.size lb' <= LoadBalancer.maxServers lb)
  /\ (LoadBalancer.size lb = 0 ->
      LoadBalancer.size lb' = 0
      \/ LoadBalancer.size lb' <= LoadBalancer.maxServers lb).

(** The run that leaves the cursor behind the end of the pool: six
    workers (minimum 1, maximum 20, threshold 0.8), four items of duration 1
    and a cycle, a fifth item and a second cycle. *)
Definition shrink_scenario : LoadBalancer.t :=
  let r := fun d id => Request.mk "10.0.0.7" "GET" 5 d id in
  LoadBalancer.run
    [LoadBalancer.AddRequest (r 1 1); LoadBalancer.AddRequest (r 1 2);
     LoadBalancer.AddRequest (r 1 3); LoadBalancer.AddRequest (r 1 4);
     LoadBalancer.ProcessCycle;
     LoadBalancer.AddRequest (r 5 5);
     LoadBalancer.ProcessCycle]
    (LoadBalancer.make 6 20 1 (8 # 10)).

(** Two idle workers (minimum 1, maximum 4, threshold 0.8) and eleven
    items waiting in the queue. *)
Definition backlog_scenario : LoadBalancer.t :=
  LoadBalancer.run
    (map (fun id => LoadBalancer.AddRequest (Request.mk "10.0.0.7" "GET" 5 4 id))
         [1; 2; 3; 4; 5; 6; 7; 8; 9; 10; 11])
    (LoadBalancer.make 2 4 1 (8 # 10)).

(** The position at which the [j]-th placement of a distribution pass is
    made (counting from 0), in a pool of [n] workers each of which can take
    an item, when the pass starts with the cursor at [cursor]. *)
Definition rotation (n : nat) (cursor : Z) (j : nat) : nat :=
  Z.to_nat ((cursor + Z.of_nat j) mod Z.of_nat n).

(** A worker that is active, holds no load and has room for an item. *)
Definition idle_worker (w : WebServer.t) : Prop :=
  WebServer.isActive w = true
  /\ WebServer.currentLoad w = 0
  /\ 1 <= WebServer.maxCapacity w.

(** Three idle workers, three items waiting, and the cursor at 3, one past
    the end of the pool, as a shrink can leave it. *)
Definition fairness_scenario : LoadBalancer.t :=
  LoadBalancer.setNextServerIndex
    (LoadBalancer.run
       (map (fun id => LoadBalancer.AddRequest (Request.mk "10.0.0.7" "GET" 5 4 id))
            [1; 2; 3])
       (LoadBalancer.make 3 6 1 (8 # 10)))
    3.

(** Two states of a worker that agree on everything but the FIFO, up to
    the given offsets of the load and of the two cumulative counters. *)
Definition same_except (dl dp dt : Z) (v1 v2 : WebServer.t) : Prop :=
  WebServer.serverID v1 = WebServer.serverID v2
  /\ WebServer.serverIP v1 = WebServer.serverIP v2
  /\ WebServer.maxCapacity v1 = WebServer.maxCapacity v2
  /\ WebServer.isActive v1 = WebServer.isActive v2
  /\ WebServer.currentLoad v1 = WebServer.currentLoad v2 + dl
  /\ WebServer.totalRequestsProcessed v1 = WebServer.totalRequestsProcessed v2 + dp
  /\ WebServer.totalProcessingTime v1 = WebServer.totalProcessingTime v2 + dt.

(** ** Sequences of operations on a queue and on a worker *)

(** The mutating member functions of [RequestQueue]. *)
Inductive queue_op : Type :=
| QAddRequest (request : Request.t)
| QGetNextRequest
| QClear
| QBlockIP (ip : string)
| QUnblockIP (ip : string).

Definition queue_step (q : RequestQueue.t) (o : queue_op) : RequestQueue.t :=
  match o with
  | QAddRequest request => snd (RequestQueue.addRequest q request)
  | QGetNextRequest => snd (RequestQueue.getNextRequest q)
  | QClear => RequestQueue.clear q
  | QBlockIP ip => RequestQueue.blockIP q ip
  | QUnblockIP ip => RequestQueue.unblockIP q ip
  end.

Definition queue_run (ops : list queue_op) (q : RequestQueue.t) : RequestQueue.t :=
  fold_left queue_step ops q.

Definition is_clear (o : queue_op) : bool :=
  match o with QClear => true | _ => false end.

(** [addRequest] called on each item of [items] in turn. *)
Fixpoint enqueueMany (items : list Request.t) (q : RequestQueue.t) : RequestQueue.t :=
  match items with
  | [] => q
  | item :: items' => enqueueMany items' (snd (RequestQueue.addRequest q item))
  end.

(** [n] calls of [getNextRequest]: the requests returned, in the order of
    the calls, and the queue left. *)
Fixpoint dequeueMany (n : nat) (q : RequestQueue.t) : list Request.t * RequestQueue.t :=
  match n with
  | O => ([], q)
  | S n' =>
      let (request, q1) := RequestQueue.getNextRequest q in
      let (rest, q2) := dequeueMany n' q1 in
      (request :: rest, q2)
  end.

(** An item whose origin the queue does not block. *)
Definition admissible (q : RequestQueue.t) (item : Request.t) : bool :=
  negb (RequestQueue.isIPBlocked q (Request.getClientIP item)).

(** The room left in a queue. *)
Definition room (q : RequestQueue.t) : nat :=
  Z.to_nat (RequestQueue.maxSize q - RequestQueue.getSize q).

(** The mutating member functions of [WebServer]. *)
Inductive worker_op : Type :=
| WAddRequest (request : Request.t)
| WProcessCycle
| WSetIsActive (active : bool).

Definition worker_step (w : WebServer.t) (o : worker_op) : WebServer.t :=
  match o with
  | WAddRequest request => snd (WebServer.addRequest w request)
  | WProcessCycle => snd (WebServer.processCycle w)
  | WSetIsActive active => WebServer.setIsActive w active
  end.

Definition worker_run (ops : list worker_op) (w : WebServer.t) : WebServer.t :=
  fold_left worker_step ops w.

(** The requests a [WAddRequest] of the sequence submits. *)
Definition submitted (o : worker_op) : list Request.t :=
  match o with WAddRequest request => [request] | _ => [] end.

(** The items of a FIFO that the next cycle completes (one cycle or less
    left), the items it keeps, each with one cycle less, and the sum of the
    durations read off a list of items. *)
Definition finishes (item : Request.t) : bool :=
  Request.getProcessingTime item - 1 <=? 0.

Definition finishing (fifo : list Request.t) : list Request.t :=
  List.filter finishes fifo.

Definition surviving (fifo : list Request.t) : list Request.t :=
  map (fun item =>
         Request.setProcessingTime item (Request.getProcessingTime item - 1))
      (List.filter (fun item => negb (finishes item)) fifo).

Definition total_duration (items : list Request.t) : Z :=
  fold_right (fun item acc => Request.getProcessingTime item + acc) 0 items.

(** The load of a worker is the length of its FIFO and does not exceed its
    capacity. *)
Definition worker_within_capacity (w : WebServer.t) : Prop :=
  WebServer.currentLoad w = WebServer.getQueueSize w
  /\ WebServer.currentLoad w <= WebServer.maxCapacity w.

(** The number of items held by the workers of a pool. *)
Definition total_in_flight (l : list WebServer.t) : Z :=
  fold_right (fun w acc => WebServer.getQueueSize w + acc) 0 l.

(** A worker before and after a distribution pass: it has received the
    items [extra] at the tail of its FIFO, its load has grown by their
    number, and nothing else has changed.  It has received an item only if
    it is active and the new load is within its capacity. *)
Definition served (w w' : WebServer.t) : Prop :=
  exists extra : list Request.t,
    w' = WebServer.mk (WebServer.serverID w) (WebServer.serverIP w)
           (WebServer.maxCapacity w)
           (WebServer.currentLoad w + Z.of_nat (length extra))
           (WebServer.requestQueue w ++ extra) (WebServer.isActive w)
           (WebServer.totalRequestsProcessed w) (WebServer.totalProcessingTime w)
    /\ (extra <> [] ->
        WebServer.isActive w = true
        /\ WebServer.currentLoad w + Z.of_nat (length extra)
           <= WebServer.maxCapacity w).

(** No worker of the pool can take an item. *)
Definition pool_saturated (l : list WebServer.t) : Prop :=
  Forall (fun w => WebServer.canAcceptRequest w = false) l.

(** The completions a cycle of the balancer collects from a pool: for
    every active worker, the number of its items with one cycle or less
    left. *)
Definition pool_completions (l : list WebServer.t) : Z :=
  fold_right
    (fun w acc =>
       (if WebServer.isActive w
        then Z.of_nat (length (finishing (WebServer.requestQueue w)))
        else 0) + acc)
    0 l.

(** The worker at position [i] of a pool built by the balancer: the
    [i + 1]-th identity and address, capacity 5, active, and a load that is
    the length of its FIFO and within its capacity. *)
Definition regular_worker (i : nat) (w : WebServer.t) : Prop :=
  WebServer.serverID w = Z.of_nat i + 1
  /\ WebServer.serverIP w
     = String.append "192.168.1." (to_string (Z.of_nat i + 1))
  /\ WebServer.maxCapacity w = 5
  /\ WebServer.isActive w = true
  /\ worker_within_capacity w.

Definition regular_pool (l : list WebServer.t) : Prop :=
  forall (i : nat) (w : WebServer.t), l !! i = Some w -> regular_worker i w.

(** A worker that holds nothing. *)
Definition at_rest (w : WebServer.t) : Prop :=
  WebServer.requestQueue w = [] /\ WebServer.currentLoad w = 0.

Definition is_removeServer (o : LoadBalancer.op) : bool :=
  match o with LoadBalancer.RemoveServer => true | _ => false end.

(** The size below which the scaling step does not take a pool. *)
Definition scaling_floor (lb : LoadBalancer.t) : Z :=
  LoadBalancer.minServers lb + 3.

(** The books of a balancer: what the queue admitted is what it holds plus
    what it handed out, and what it handed out covers what the workers hold
    plus what the balancer counted as completed. *)
Definition books_balance (lb : LoadBalancer.t) : Prop :=
  RequestQueue.getSize (LoadBalancer.requestQueue lb)
    + RequestQueue.totalRequestsRemoved (LoadBalancer.requestQueue lb)
  = RequestQueue.totalRequestsAdded (LoadBalancer.requestQueue lb)
  /\ total_in_flight (LoadBalancer.servers lb) + LoadBalancer.totalRequestsProcessed lb
     <= RequestQueue.totalRequestsRemoved (LoadBalancer.requestQueue lb)
  /\ 0 <= LoadBalancer.totalRequestsProcessed lb
  /\ RequestQueue.maxSize (LoadBalancer.requestQueue lb) = 1000.

(** The operation is a call of [unblockIP] for the address [ip]. *)
Definition is_unblock (ip : string) (o : LoadBalancer.op) : bool :=
  match o with
  | LoadBalancer.UnblockIP ip' => String.eqb ip ip'
  | _ => false
  end.

(** Five workers at threshold 0.8, one item in flight and an empty
    queue. *)
Definition boundary_scenario : LoadBalancer.t :=
  LoadBalancer.run
    [LoadBalancer.AddRequest (Request.mk "10.0.0.7" "GET" 5 4 1);
     LoadBalancer.DistributeRequests]
    (LoadBalancer.make 5 20 1 (8 # 10)).

(** Sixteen workers at threshold 0.75, a number binary64 holds exactly,
    three items in flight and an empty queue. *)
Definition boundary_scenario_exact : LoadBalancer.t :=
  LoadBalancer.run
    (map (fun id => LoadBalancer.AddRequest (Request.mk "10.0.0.7" "GET" 5 4 id))
         [1; 2; 3]
     ++ [LoadBalancer.DistributeRequests])
    (LoadBalancer.make 16 20 1 (3 # 4)).

(** A worker that has received the items [extra], in this order, at the
    tail of its FIFO. *)
Definition receive (w : WebServer.t) (extra : list Request.t) : WebServer.t :=
  WebServer.mk (WebServer.serverID w) (WebServer.serverIP w)
    (WebServer.maxCapacity w)
    (WebServer.currentLoad w + Z.of_nat (length extra))
    (WebServer.requestQueue w ++ extra) (WebServer.isActive w)
    (WebServer.totalRequestsProcessed w) (WebServer.totalProcessingTime w).

(** A distribution pass is described by the positions [dest] its
    placements were made at, one for each item taken off the queue: the
    [j]-th item of [items] went to the worker at position [dest !! j].
    [delivered dest items i] is what the worker at position [i] was given,
    in the order of the queue. *)
Definition delivered (dest : list nat) (items : list Request.t) (i : nat)
  : list Request.t :=
  map snd (List.filter (fun p => Nat.eqb (fst p) i) (combine dest items)).

(** What the workers at positions [0 .. n - 1] were given, position by
    position. *)
Definition deliveries (dest : list nat) (items : list Request.t) (n : nat)
  : list Request.t :=
  concat (map (delivered dest items) (seq 0 n)).

(** * Properties *)

Example scenario_small :
  let r := Request.mk "10.0.0.1" "GET" 5 3 1 in
  let lb0 := LoadBalancer.make 1 2 1 (8 # 10) in
  let lb1 := snd (LoadBalancer.addRequest lb0 r) in
  let c1 := LoadBalancer.processCycle lb1 in
  let c2 := LoadBalancer.processCycle (snd c1) in
  let c3 := LoadBalancer.processCycle (snd c2) in
  let c4 := LoadBalancer.processCycle (snd c3) in
  (fst c1, fst c2, fst c3, fst c4) = (0, 0, 0, 1).
Proof. vm_compute. reflexivity. Qed.

(** ** Rational comparisons *)

Lemma Qltb_lt (a b : Q) : Qltb a b = true <-> (a < b)%Q.
Proof.
  unfold Qltb. rewrite negb_true_iff. split.
  - intros H. apply Qnot_le_lt. intros Hle.
    apply Qle_bool_iff in Hle. congruence.
  - intros H. destruct (Qle_bool b a) eqn:E; [|reflexivity].
    apply Qle_bool_iff in E. exfalso. exact (Qlt_not_le _ _ H E).
Qed.

Lemma Qltb_ge (a b : Q) : Qltb a b = false <-> (b <= a)%Q.
Proof.
  unfold Qltb. rewrite negb_false_iff. apply Qle_bool_iff.
Qed.

(** ** Rounding to binary64 *)

Section Binary64Facts.

Import Binary64.

Lemma nearest_even_bounds (a b : Z) :
  0 <= a -> 0 < b ->
  0 <= nearest_even a b /\ nearest_even a b * b <= 2 * a.
Proof.
  intros Ha Hb. unfold nearest_even.
  pose proof (Z.div_mod a b ltac:(lia)) as Hdm.
  pose proof (Z.mod_pos_bound a b Hb) as Hr.
  assert (Hq : 0 <= a / b) by (apply Z.div_pos; lia).
  destruct (Z.compare_spec (2 * (a mod b)) b) as [He | Hl | Hg].
  - destruct (Z.even (a / b)); split; nia.
  - split; nia.
  - split; nia.
Qed.

Lemma round_pos_bounds (x : Q) :
  0 < Qnum x -> (0 <= round_pos x /\ round_pos x <= 2 * x)%Q.
Proof.
  intros Hx. unfold round_pos.
  set (c := Z.max (ilog2 x - 52) (-1074)). clearbody c.
  destruct x as [n d]. cbn [Qnum Qden] in Hx |- *.
  destruct (Z.leb_spec 0 c) as [Hc | Hc].
  - assert (Hp : 0 < 2 ^ c) by (apply Z.pow_pos_nonneg; lia).
    destruct (nearest_even_bounds n (Zpos d * 2 ^ c)) as [H0 H1]; [lia | nia |].
    set (m := nearest_even n (Zpos d * 2 ^ c)) in *. clearbody m.
    unfold Qle, Qmult, inject_Z. cbn [Qnum Qden].
    rewrite ?Pos2Z.inj_mul. split; nia.
  - assert (Hp : 0 < 2 ^ (- c)) by (apply Z.pow_pos_nonneg; lia).
    destruct (nearest_even_bounds (n * 2 ^ (- c)) (Zpos d)) as [H0 H1]; [nia | lia |].
    set (m := nearest_even (n * 2 ^ (- c)) (Zpos d)) in *. clearbody m.
    unfold Qle, Qmult. cbn [Qnum Qden].
    rewrite ?Pos2Z.inj_mul, Z2Pos.id by exact Hp. split; nia.
Qed.

Lemma round_nonneg (x : Q) : (0 <= x)%Q -> (0 <= round x)%Q.
Proof.
  intros Hx. unfold round. destruct x as [[|p|p] d]; simpl.
  - apply Qle_refl.
  - apply round_pos_bounds. reflexivity.
  - unfold Qle in Hx. simpl in Hx. lia.
Qed.

Lemma round_nonpos (x : Q) : (x <= 0)%Q -> (round x <= 0)%Q.
Proof.
  intros Hx. unfold round. destruct x as [[|p|p] d]; simpl.
  - apply Qle_refl.
  - unfold Qle in Hx. simpl in Hx. lia.
  - destruct (round_pos_bounds (- (Zneg p # d))) as [H _]; [reflexivity|].
    apply Qopp_le_compat in H. exact H.
Qed.

Lemma round_le_double (x : Q) : (0 <= x)%Q -> (round x <= 2 * x)%Q.
Proof.
  intros Hx. unfold round. destruct x as [[|p|p] d]; simpl.
  - unfold Qle. simpl. lia.
  - apply round_pos_bounds. reflexivity.
  - unfold Qle in Hx. simpl in Hx. lia.
Qed.

Lemma round_zero (x : Q) : (x == 0)%Q -> round x = 0%Q.
Proof.
  intros Hx. unfold round. destruct x as [[|p|p] d]; [reflexivity| |];
    unfold Qeq in Hx; simpl in Hx; lia.
Qed.


(** Rounding at most halves a number that is not below the least
    positive [double]. *)
Lemma pow2_pos (e : Z) : (0 < pow2 e)%Q.
Proof.
  unfold pow2. destruct (Z.leb_spec 0 e) as [He|He].
  - assert (Hp : 0 < 2 ^ e) by (apply Z.pow_pos_nonneg; lia).
    unfold Qlt, inject_Z. cbn [Qnum Qden]. lia.
  - reflexivity.
Qed.

Lemma pow2_le (c e : Z) : c <= e -> (pow2 c <= pow2 e)%Q.
Proof.
  intros Hce. unfold pow2.
  destruct (Z.leb_spec 0 c) as [Hc|Hc]; destruct (Z.leb_spec 0 e) as [He|He]; try lia.
  - unfold Qle, inject_Z. cbn [Qnum Qden]. rewrite !Z.mul_1_r.
    apply Z.pow_le_mono_r; lia.
  - assert (Hp : 0 < 2 ^ (- c)) by (apply Z.pow_pos_nonneg; lia).
    assert (He' : 0 < 2 ^ e) by (apply Z.pow_pos_nonneg; lia).
    unfold Qle, inject_Z. cbn [Qnum Qden]. rewrite Z2Pos.id by exact Hp. nia.
  - assert (Hp : 0 < 2 ^ (- c)) by (apply Z.pow_pos_nonneg; lia).
    assert (He' : 0 < 2 ^ (- e)) by (apply Z.pow_pos_nonneg; lia).
    unfold Qle. cbn [Qnum Qden]. rewrite !Z2Pos.id by assumption.
    rewrite !Z.mul_1_l. apply Z.pow_le_mono_r; lia.
Qed.

Lemma ilog2_le (x : Q) : 0 < Qnum x -> (pow2 (ilog2 x) <= x)%Q.
Proof.
  intros Hx. unfold ilog2.
  set (e := Z.log2 (Qnum x) - Z.log2 (Z.pos (Qden x))).
  destruct (Qle_bool (pow2 e) x) eqn:E; [now apply Qle_bool_iff|].
  destruct x as [n d]. cbn [Qnum Qden] in *.
  destruct (Z.log2_spec n Hx) as [Hn _].
  destruct (Z.log2_spec (Z.pos d) ltac:(lia)) as [_ Hd].
  pose proof (Z.log2_nonneg n) as Hln. pose proof (Z.log2_nonneg (Z.pos d)) as Hld.
  replace (Z.succ (Z.log2 (Z.pos d))) with (Z.log2 (Z.pos d) + 1) in Hd by lia.
  unfold pow2. destruct (Z.leb_spec 0 (e - 1)) as [He|He].
  - unfold Qle, inject_Z. cbn [Qnum Qden]. rewrite Z.mul_1_r.
    assert (Hsplit : 2 ^ Z.log2 n = 2 ^ (e - 1) * 2 ^ (Z.log2 (Z.pos d) + 1)).
    { rewrite <- Z.pow_add_r by lia. f_equal. unfold e. lia. }
    assert (Hp : 0 < 2 ^ (e - 1)) by (apply Z.pow_pos_nonneg; lia).
    nia.
  - assert (Hp : 0 < 2 ^ (- (e - 1))) by (apply Z.pow_pos_nonneg; lia).
    unfold Qle. cbn [Qnum Qden]. rewrite Z2Pos.id by exact Hp. rewrite Z.mul_1_l.
    assert (Hsplit : 2 ^ (Z.log2 (Z.pos d) + 1) = 2 ^ Z.log2 n * 2 ^ (- (e - 1))).
    { rewrite <- Z.pow_add_r by lia. f_equal. unfold e. lia. }
    nia.
Qed.

Lemma nearest_even_lower (a b : Z) :
  0 < b -> b <= a -> 1 <= nearest_even a b /\ a <= 2 * nearest_even a b * b.
Proof.
  intros Hb Ha. unfold nearest_even.
  pose proof (Z.div_mod a b ltac:(lia)) as Hdm.
  pose proof (Z.mod_pos_bound a b Hb) as Hr.
  assert (Hq : 1 <= a / b) by (apply Z.div_le_lower_bound; lia).
  destruct (Z.compare_spec (2 * (a mod b)) b) as [He | Hl | Hg].
  - destruct (Z.even (a / b)); split; nia.
  - split; nia.
  - split; nia.
Qed.

Lemma round_pos_lower (x : Q) :
  0 < Qnum x -> (pow2 (-1074) <= x)%Q ->
  (0 < round_pos x /\ x <= 2 * round_pos x)%Q.
Proof.
  intros Hx Hmin. unfold round_pos.
  assert (Hc : (pow2 (Z.max (ilog2 x - 52) (-1074)) <= x)%Q).
  { destruct (Z.max_spec (ilog2 x - 52) (-1074)) as [[_ ->] | [_ ->]];
      [exact Hmin|].
    eapply Qle_trans; [|apply ilog2_le; exact Hx]. apply pow2_le. lia. }
  set (c := Z.max (ilog2 x - 52) (-1074)) in *. clearbody c.
  destruct x as [n d]. cbn [Qnum Qden] in Hx |- *.
  unfold pow2 in Hc.
  destruct (Z.leb_spec 0 c) as [Hc0 | Hc0].
  - assert (Hp : 0 < 2 ^ c) by (apply Z.pow_pos_nonneg; lia).
    unfold Qle, inject_Z in Hc. cbn [Qnum Qden] in Hc. rewrite Z.mul_1_r in Hc.
    destruct (nearest_even_lower n (Zpos d * 2 ^ c)) as [H0 H1]; [nia | nia |].
    set (m := nearest_even n (Zpos d * 2 ^ c)) in *. clearbody m.
    unfold Qlt, Qle, Qmult, inject_Z. cbn [Qnum Qden].
    rewrite ?Pos2Z.inj_mul. split; nia.
  - assert (Hp : 0 < 2 ^ (- c)) by (apply Z.pow_pos_nonneg; lia).
    unfold Qle in Hc. cbn [Qnum Qden] in Hc. rewrite Z2Pos.id in Hc by exact Hp.
    destruct (nearest_even_lower (n * 2 ^ (- c)) (Zpos d)) as [H0 H1]; [lia | nia |].
    set (m := nearest_even (n * 2 ^ (- c)) (Zpos d)) in *. clearbody m.
    unfold Qlt, Qle, Qmult. cbn [Qnum Qden].
    rewrite ?Pos2Z.inj_mul, Z2Pos.id by exact Hp. split; nia.
Qed.

Lemma round_lower (x : Q) :
  (pow2 (-1074) <= x)%Q -> (0 < round x /\ x <= 2 * round x)%Q.
Proof.
  intros Hmin.
  assert (Hx : 0 < Qnum x).
  { pose proof (pow2_pos (-1074)) as Hp.
    pose proof (Qlt_le_trans _ _ _ Hp Hmin) as H.
    unfold Qlt in H. simpl in H. lia. }
  unfold round. destruct x as [[|p|p] d]; cbn [Qnum] in *; try lia.
  now apply round_pos_lower.
Qed.

(** The rounded product with the literal [0.05] stays on the side of the
    factor: it is not above a factor that is not negative, and not above
    zero otherwise. *)
Lemma mul_twentieth_le (d : Q) :
  (0 <= d)%Q -> (mul d twentieth <= d)%Q.
Proof.
  intros Hd. unfold mul.
  assert (Ht : (0 <= twentieth /\ 2 * twentieth <= 1)%Q)
    by (split; vm_compute; discriminate).
  destruct Ht as [Ht0 Ht1].
  eapply Qle_trans; [apply round_le_double; now apply Qmult_le_0_compat|].
  rewrite (Qmult_comm d), Qmult_assoc.
  rewrite <- (Qmult_1_l d) at 2.
  apply Qmult_le_compat_r; assumption.
Qed.

Lemma mul_twentieth_nonpos (d : Q) :
  (d <= 0)%Q -> (mul d twentieth <= 0)%Q.
Proof.
  intros Hd. unfold mul. apply round_nonpos.
  rewrite <- (Qmult_0_l twentieth).
  apply Qmult_le_compat_r; [exact Hd | vm_compute; discriminate].
Qed.

(** A threshold of at least a millionth is far from the underflow of the
    product with [0.05]. *)
Lemma threshold_product_pos (threshold : Q) :
  (1 # 1000000 <= threshold)%Q -> (0 < mul (round threshold) twentieth)%Q.
Proof.
  intros Hthr.
  assert (Hsmall : (pow2 (-1074) <= 1 # 1000000)%Q)
    by (apply Qle_bool_iff; vm_compute; reflexivity).
  destruct (round_lower threshold) as [Hpos Hhalf];
    [eapply Qle_trans; eassumption|].
  unfold mul. apply round_lower.
  assert (Ht : (pow2 (-1074) <= (1 # 2000000) * twentieth)%Q)
    by (apply Qle_bool_iff; vm_compute; reflexivity).
  eapply Qle_trans; [exact Ht|].
  apply Qmult_le_compat_r; [|vm_compute; discriminate].
  apply Qmult_le_l with (z := 2%Q); [reflexivity|].
  eapply Qle_trans; [|exact Hhalf].
  eapply Qle_trans; [|exact Hthr]. vm_compute. discriminate.
Qed.

End Binary64Facts.

(** ** One worker, one item: the countdown *)

Section Countdown.

Import WebServer.

(** A call on a worker that holds a single item with at least two cycles
    left reports nothing and takes one cycle off the item. *)
Lemma processCycle_single_unfinished (w : t) (r : Request.t) :
  isActive w = true ->
  requestQueue w = [r] ->
  2 <= Request.processingTime r ->
  processCycle w =
    (0, setRequestQueue w
          [Request.setProcessingTime r (Request.processingTime r - 1)]).
Proof.
  intros Hact Hq Hpt. unfold processCycle. rewrite Hact, Hq. simpl.
  unfold Request.getProcessingTime.
  destruct (Z.leb_spec (Request.processingTime r - 1) 0); [lia | reflexivity].
Qed.

(** A call on a worker that holds a single item with at most one cycle
    left reports one completion and empties the FIFO. *)
Lemma processCycle_single_finished (w : t) (r : Request.t) :
  isActive w = true ->
  requestQueue w = [r] ->
  Request.processingTime r <= 1 ->
  processCycle w = (1, setRequestQueue (complete w r) []).
Proof.
  intros Hact Hq Hpt. unfold processCycle. rewrite Hact, Hq. simpl.
  unfold Request.getProcessingTime.
  destruct (Z.leb_spec (Request.processingTime r - 1) 0); [reflexivity | lia].
Qed.

(** The state after [k] calls, while the item is unfinished. *)
Lemma cycles_single_before (k : nat) :
  forall (w : t) (r : Request.t),
    isActive w = true ->
    requestQueue w = [r] ->
    Z.of_nat k < Request.processingTime r ->
    cycles k w =
      setRequestQueue w
        [Request.setProcessingTime r (Request.processingTime r - Z.of_nat k)].
Proof.
  induction k as [|k IH]; intros w r Hact Hq Hlt.
  - destruct w, r; simpl in *; subst. unfold setRequestQueue; simpl.
    unfold Request.setProcessingTime; simpl. now rewrite Z.sub_0_r.
  - cbn [cycles].
    rewrite (processCycle_single_unfinished w r Hact Hq) by lia.
    cbn [snd]. rewrite IH with (r := Request.setProcessingTime r (Request.processingTime r - 1)).
    + unfold setRequestQueue, Request.setProcessingTime; simpl.
      do 3 f_equal. lia.
    + exact Hact.
    + reflexivity.
    + simpl. lia.
Qed.

End Countdown.

(** The countdown of an item on a worker that holds nothing else. *)
Lemma completion_timing_alone (w w1 : WebServer.t) (r : Request.t) :
  WebServer.addRequest w r = (true, w1) ->
  WebServer.requestQueue w = [] ->
  1 <= Request.processingTime r ->
  let D := Z.to_nat (Request.processingTime r) in
  (forall k : nat, (1 <= k < D)%nat ->
     WebServer.reported k w1 = 0
     /\ WebServer.currentLoad (WebServer.cycles k w1) = WebServer.currentLoad w1
     /\ WebServer.requestQueue (WebServer.cycles k w1) =
          [Request.setProcessingTime r (Request.processingTime r - Z.of_nat k)])
  /\ WebServer.reported D w1 = 1
  /\ WebServer.requestQueue (WebServer.cycles D w1) = []
  /\ WebServer.currentLoad (WebServer.cycles D w1) = WebServer.currentLoad w1 - 1
  /\ WebServer.currentLoad (WebServer.cycles D w1) = WebServer.currentLoad w
  /\ WebServer.totalRequestsProcessed (WebServer.cycles D w1) =
       WebServer.totalRequestsProcessed w + 1.
Proof.
  intros Hadd Hq Hpos D.
  unfold WebServer.addRequest in Hadd.
  destruct (negb (WebServer.isActive w) || (WebServer.maxCapacity w <=? WebServer.currentLoad w)) eqn:Hguard;
    [discriminate|].
  apply orb_false_iff in Hguard as [Hact _]. apply negb_false_iff in Hact.
  injection Hadd as <-.
  assert (Hact1 : WebServer.isActive (WebServer.push w r) = true) by exact Hact.
  assert (Hq1 : WebServer.requestQueue (WebServer.push w r) = [r])
    by (simpl; now rewrite Hq).
  assert (Hstate : forall k : nat, Z.of_nat k < Request.processingTime r ->
            WebServer.cycles k (WebServer.push w r) =
            WebServer.setRequestQueue (WebServer.push w r)
              [Request.setProcessingTime r (Request.processingTime r - Z.of_nat k)])
    by (intros k Hk; now apply cycles_single_before).
  assert (Hlast : WebServer.processCycle (WebServer.cycles (Nat.pred D) (WebServer.push w r)) =
                  (1, WebServer.setRequestQueue
                        (WebServer.complete
                           (WebServer.setRequestQueue (WebServer.push w r)
                              [Request.setProcessingTime r
                                 (Request.processingTime r - Z.of_nat (Nat.pred D))])
                           (Request.setProcessingTime r
                              (Request.processingTime r - Z.of_nat (Nat.pred D))))
                        [])).
  { rewrite Hstate by (unfold D; lia).
    apply processCycle_single_finished; [exact Hact | reflexivity |].
    simpl. unfold D. lia. }
  assert (HD : D = S (Nat.pred D)) by (unfold D; lia).
  assert (Hend : WebServer.cycles D (WebServer.push w r) =
                 snd (WebServer.processCycle (WebServer.cycles (Nat.pred D) (WebServer.push w r)))).
  { rewrite HD at 1. generalize (Nat.pred D) as n. generalize (WebServer.push w r) as v.
    intros v n. revert v. induction n as [|n IH]; intros v; [reflexivity|].
    cbn [WebServer.cycles]. now rewrite <- IH. }
  split.
  - intros k [Hk1 Hk2].
    assert (Hk : Z.of_nat k < Request.processingTime r) by (unfold D in Hk2; lia).
    repeat split.
    + unfold WebServer.reported. rewrite Hstate by lia.
      rewrite processCycle_single_unfinished
        with (r := Request.setProcessingTime r (Request.processingTime r - Z.of_nat (Nat.pred k)));
        [reflexivity | exact Hact | reflexivity | simpl; lia].
    + now rewrite Hstate.
    + now rewrite Hstate.
  - unfold WebServer.reported. rewrite Hend, Hlast. simpl. repeat split; lia.
Qed.

(** ** One item among others on a worker *)

Section SharedWorker.

Import WebServer.

Lemma processCycle_active (v : t) :
  isActive v = true ->
  processCycle v = processLoop (requestQueue v) 0 [] v.
Proof.
  intros Hact. unfold processCycle. rewrite Hact.
  destruct v as [? ? ? ? q ? ? ?]. simpl in *. now destruct q.
Qed.

Lemma processLoop_isActive (q : list Request.t) :
  forall (c : Z) (temp : list Request.t) (u : t),
    isActive (snd (processLoop q c temp u)) = isActive u.
Proof.
  induction q as [|y q IH]; intros c temp u; [reflexivity|].
  cbn [processLoop]. destruct (Request.getProcessingTime y - 1 <=? 0); now rewrite IH.
Qed.

Lemma processCycle_isActive (v : t) :
  isActive (snd (processCycle v)) = isActive v.
Proof.
  unfold processCycle. destruct (negb (isActive v) || _); [reflexivity|].
  apply processLoop_isActive.
Qed.

Lemma cycles_isActive (k : nat) :
  forall v : t, isActive (cycles k v) = isActive v.
Proof.
  induction k as [|k IH]; intros v; [reflexivity|].
  cbn [cycles]. now rewrite IH, processCycle_isActive.
Qed.

Lemma cycles_succ (k : nat) :
  forall v : t, cycles (S k) v = snd (processCycle (cycles k v)).
Proof.
  induction k as [|k IH]; intros v; [reflexivity|].
  change (cycles (S (S k)) v) with (cycles (S k) (snd (processCycle v))).
  now rewrite IH.
Qed.

Ltac fieldwise :=
  unfold same_except in *; simpl in *; unfold Request.getProcessingTime in *;
  intuition (try congruence; try lia).

(** The loop treats the items of the FIFO alike in two states that differ
    by offsets only. *)
Lemma processLoop_same_except (q : list Request.t) :
  forall (c : Z) (temp : list Request.t) (u1 u2 : t) (dl dp dt : Z),
    same_except dl dp dt u1 u2 ->
    fst (processLoop q c temp u1) = fst (processLoop q c temp u2)
    /\ same_except dl dp dt (snd (processLoop q c temp u1))
                           (snd (processLoop q c temp u2))
    /\ requestQueue (snd (processLoop q c temp u1))
       = requestQueue (snd (processLoop q c temp u2)).
Proof.
  induction q as [|y q IH]; intros c temp u1 u2 dl dp dt Hrel.
  - fieldwise.
  - cbn [processLoop]. destruct (Request.getProcessingTime y - 1 <=? 0).
    + apply IH. fieldwise.
    + now apply IH.
Qed.

(** One more item [x] at the end of the FIFO: the loop does the same to
    the others, and either keeps [x] with one cycle less, or completes it. *)
Lemma processLoop_last (x : Request.t) (q : list Request.t) :
  forall (c : Z) (temp : list Request.t) (u1 u2 : t) (dl dp dt : Z),
    same_except dl dp dt u1 u2 ->
    (2 <= Request.processingTime x ->
       fst (processLoop (q ++ [x]) c temp u1) = fst (processLoop q c temp u2)
       /\ same_except dl dp dt (snd (processLoop (q ++ [x]) c temp u1))
                              (snd (processLoop q c temp u2))
       /\ requestQueue (snd (processLoop (q ++ [x]) c temp u1))
          = requestQueue (snd (processLoop q c temp u2))
            ++ [Request.setProcessingTime x (Request.processingTime x - 1)])
    /\ (Request.processingTime x <= 1 ->
       fst (processLoop (q ++ [x]) c temp u1) = fst (processLoop q c temp u2) + 1
       /\ same_except (dl - 1) (dp + 1) (dt + Request.processingTime x)
                      (snd (processLoop (q ++ [x]) c temp u1))
                      (snd (processLoop q c temp u2))
       /\ requestQueue (snd (processLoop (q ++ [x]) c temp u1))
          = requestQueue (snd (processLoop q c temp u2))).
Proof.
  induction q as [|y q IH]; intros c temp u1 u2 dl dp dt Hrel.
  - simpl. unfold Request.getProcessingTime.
    destruct (Z.leb_spec (Request.processingTime x - 1) 0); split; intros Hx;
      try lia; fieldwise.
  - change ((y :: q) ++ [x]) with (y :: (q ++ [x])). cbn [processLoop].
    destruct (Request.getProcessingTime y - 1 <=? 0).
    + apply IH. fieldwise.
    + now apply IH.
Qed.

(** While the item has cycles left, the worker that holds it and the
    worker that does not stay in step. *)
Lemma cycles_in_flight (k : nat) :
  forall (v1 v2 : t) (x : Request.t),
    isActive v2 = true ->
    same_except 1 0 0 v1 v2 ->
    requestQueue v1 = requestQueue v2 ++ [x] ->
    Z.of_nat k < Request.processingTime x ->
    same_except 1 0 0 (cycles k v1) (cycles k v2)
    /\ requestQueue (cycles k v1)
       = requestQueue (cycles k v2)
         ++ [Request.setProcessingTime x (Request.processingTime x - Z.of_nat k)].
Proof.
  induction k as [|k IH]; intros v1 v2 x Hact Hrel Hq Hlt.
  - split; [exact Hrel|]. simpl. rewrite Hq, Z.sub_0_r. now destruct x.
  - cbn [cycles].
    assert (Hact1 : isActive v1 = true) by (destruct Hrel as (_ & _ & _ & H & _); congruence).
    rewrite (processCycle_active v1 Hact1), (processCycle_active v2 Hact), Hq.
    destruct (processLoop_last x (requestQueue v2) 0 [] v1 v2 1 0 0 Hrel)
      as [Hgo _].
    destruct Hgo as (_ & Hrel' & Hq'); [lia|].
    destruct (IH _ _ _ (eq_trans (processLoop_isActive _ _ _ _) Hact) Hrel' Hq')
      as (Hr & Hqk); [simpl; lia|].
    split; [exact Hr|]. rewrite Hqk. unfold Request.setProcessingTime. simpl.
    do 3 f_equal. lia.
Qed.

End SharedWorker.

(** The countdown of an item on a worker that holds other items: compared
    with the same worker without the item, the first [D - 1] calls report
    the same number of completions and the load is one higher; the [D]-th
    call reports one completion more, and after it the load and the FIFO
    are the same. *)
Lemma completion_timing_shared (w : WebServer.t) (r : Request.t) :
  WebServer.isActive w = true ->
  1 <= Request.processingTime r ->
  let D := Z.to_nat (Request.processingTime r) in
  let w1 := WebServer.push w r in
  (forall k : nat, (1 <= k < D)%nat ->
     WebServer.reported k w1 = WebServer.reported k w
     /\ WebServer.currentLoad (WebServer.cycles k w1)
        = WebServer.currentLoad (WebServer.cycles k w) + 1
     /\ WebServer.requestQueue (WebServer.cycles k w1)
        = WebServer.requestQueue (WebServer.cycles k w)
          ++ [Request.setProcessingTime r (Request.processingTime r - Z.of_nat k)])
  /\ WebServer.reported D w1 = WebServer.reported D w + 1
  /\ WebServer.requestQueue (WebServer.cycles D w1)
     = WebServer.requestQueue (WebServer.cycles D w)
  /\ WebServer.currentLoad (WebServer.cycles D w1)
     = WebServer.currentLoad (WebServer.cycles D w)
  /\ WebServer.totalRequestsProcessed (WebServer.cycles D w1)
     = WebServer.totalRequestsProcessed (WebServer.cycles D w) + 1.
Proof.
  intros Hact Hpos D w1.
  assert (Hrel : same_except 1 0 0 w1 w) by (unfold same_except, w1; simpl; intuition lia).
  assert (Hq : WebServer.requestQueue w1 = WebServer.requestQueue w ++ [r]) by reflexivity.
  assert (Hfly : forall k : nat, Z.of_nat k < Request.processingTime r ->
            same_except 1 0 0 (WebServer.cycles k w1) (WebServer.cycles k w)
            /\ WebServer.requestQueue (WebServer.cycles k w1)
               = WebServer.requestQueue (WebServer.cycles k w)
                 ++ [Request.setProcessingTime r
                       (Request.processingTime r - Z.of_nat k)])
    by (intros k Hk; now apply cycles_in_flight).
  assert (Hcall : forall k : nat, Z.of_nat k < Request.processingTime r ->
            let x := Request.setProcessingTime r (Request.processingTime r - Z.of_nat k) in
            (2 <= Request.processingTime x ->
               WebServer.reported (S k) w1 = WebServer.reported (S k) w)
            /\ (Request.processingTime x <= 1 ->
               WebServer.reported (S k) w1 = WebServer.reported (S k) w + 1
               /\ same_except 0 1 (0 + Request.processingTime x)
                    (WebServer.cycles (S k) w1) (WebServer.cycles (S k) w)
               /\ WebServer.requestQueue (WebServer.cycles (S k) w1)
                  = WebServer.requestQueue (WebServer.cycles (S k) w))).
  { intros k Hk x. destruct (Hfly k Hk) as (Hr & Hqk).
    assert (Ha : WebServer.isActive (WebServer.cycles k w) = true)
      by now rewrite cycles_isActive.
    assert (Ha1 : WebServer.isActive (WebServer.cycles k w1) = true)
      by now rewrite cycles_isActive.
    unfold WebServer.reported. cbn [Nat.pred]. rewrite !cycles_succ.
    rewrite (processCycle_active _ Ha1), (processCycle_active _ Ha), Hqk.
    destruct (processLoop_last x (WebServer.requestQueue (WebServer.cycles k w))
                0 [] _ _ 1 0 0 Hr) as [Hgo Hdone].
    split; [intros Hx; now apply Hgo | intros Hx; now apply Hdone]. }
  split.
  - intros k [Hk1 Hk2]. unfold D in Hk2.
    destruct (Hfly k) as ((_ & _ & _ & _ & Hload & _) & Hqk); [lia|].
    split_and!; [| exact Hload | exact Hqk].
    destruct k as [|k]; [lia|].
    apply (Hcall k); [lia | simpl; lia].
  - assert (HD : D = S (Nat.pred D)) by (unfold D; lia).
    rewrite HD.
    destruct (Hcall (Nat.pred D)) as [_ Hdone]; [unfold D; lia|].
    destruct Hdone as (Hrep & (_ & _ & _ & _ & Hload & Hproc & _) & Hqd);
      [simpl; unfold D; lia|].
    split_and!; [exact Hrep | exact Hqd | lia | lia].
Qed.

(** C1. Completion timing.  An item of duration [D >= 1] is accepted by an
    active worker ([WebServer::addRequest] returns true) and the worker
    stays in the pool, active.  When the worker holds no other work, each
    of the first [D - 1] calls of [WebServer::processCycle] after the
    placement returns 0, leaves the load as it is and keeps the item in the
    FIFO with one cycle less, and the [D]-th call reports the item: it
    returns 1, takes the item out of the FIFO and brings the load down by
    one.  When the worker holds other items the item is reported by the
    same call: compared with the worker without the item, calls
    [1 .. D - 1] report the same number of completions and call [D]
    reports one more.  Placement happens in the distribution step of cycle
    [T], after the workers have run, so the [D]-th call is the one of
    cycle [T + D]. *)
Theorem completion_timing (w w1 : WebServer.t) (r : Request.t) :
  WebServer.addRequest w r = (true, w1) ->
  1 <= Request.processingTime r ->
  let D := Z.to_nat (Request.processingTime r) in
  (WebServer.requestQueue w = [] ->
   (forall k : nat, (1 <= k < D)%nat ->
      WebServer.reported k w1 = 0
      /\ WebServer.currentLoad (WebServer.cycles k w1) = WebServer.currentLoad w1
      /\ WebServer.requestQueue (WebServer.cycles k w1) =
           [Request.setProcessingTime r (Request.processingTime r - Z.of_nat k)])
   /\ WebServer.reported D w1 = 1
   /\ WebServer.requestQueue (WebServer.cycles D w1) = []
   /\ WebServer.currentLoad (WebServer.cycles D w1) = WebServer.currentLoad w1 - 1)
  /\ (forall k : nat, (1 <= k < D)%nat ->
        WebServer.reported k w1 = WebServer.reported k w
        /\ WebServer.currentLoad (WebServer.cycles k w1)
           = WebServer.currentLoad (WebServer.cycles k w) + 1
        /\ In (Request.setProcessingTime r (Request.processingTime r - Z.of_nat k))
              (WebServer.requestQueue (WebServer.cycles k w1)))
  /\ WebServer.reported D w1 = WebServer.reported D w + 1
  /\ WebServer.requestQueue (WebServer.cycles D w1)
     = WebServer.requestQueue (WebServer.cycles D w)
  /\ WebServer.currentLoad (WebServer.cycles D w1)
     = WebServer.currentLoad (WebServer.cycles D w).
Proof.
  intros Hadd Hpos D.
  assert (Hw1 : WebServer.isActive w = true /\ w1 = WebServer.push w r).
  { unfold WebServer.addRequest in Hadd.
    destruct (negb (WebServer.isActive w)
              || (WebServer.maxCapacity w <=? WebServer.currentLoad w)) eqn:Hguard;
      [discriminate|].
    apply orb_false_iff in Hguard as [Hact _]. apply negb_false_iff in Hact.
    split; [exact Hact | congruence]. }
  destruct Hw1 as [Hact ->].
  destruct (completion_timing_shared w r Hact Hpos)
    as (Hbefore & Hat & Hq & Hload & _).
  split_and!.
  - intros Hempty.
    destruct (completion_timing_alone w _ r Hadd Hempty Hpos)
      as (Hb & Ha & Hq0 & Hl & _).
    split_and!; assumption.
  - intros k Hk. destruct (Hbefore k Hk) as (H1 & H2 & H3).
    split_and!; [exact H1 | exact H2 |].
    rewrite H3. apply in_or_app. right. now left.
  - exact Hat.
  - exact Hq.
  - exact Hload.
Qed.

(** The theorem at a worker of capacity 5 and an item of duration 3. *)
Lemma completion_timing_witness :
  let w := WebServer.make 1 "192.168.1.1" 5 in
  let r := Request.mk "10.0.0.7" "GET" 5 3 42 in
  let w1 := WebServer.push w r in
  WebServer.reported 1 w1 = 0 /\ WebServer.reported 2 w1 = 0
  /\ WebServer.reported 3 w1 = 1
  /\ WebServer.currentLoad (WebServer.cycles 3 w1) = 0.
Proof.
  intros w r w1.
  destruct (completion_timing w w1 r) as (Halone & _);
    [reflexivity | simpl; lia |].
  destruct Halone as (Hbefore & Hat & _ & Hload); [reflexivity|].
  destruct (Hbefore 1%nat) as (H1 & _); [simpl; lia|].
  destruct (Hbefore 2%nat) as (H2 & _); [simpl; lia|].
  repeat split; assumption.
Defined.

(** An item submitted with a duration of zero or less is reported by the
    first call after its placement. *)
Lemma nonpositive_duration_completes_first (w : WebServer.t) (r : Request.t) :
  WebServer.isActive w = true ->
  WebServer.requestQueue w = [] ->
  Request.processingTime r <= 0 ->
  WebServer.reported 1 (WebServer.push w r) = 1.
Proof.
  intros Hact Hq Hpt. unfold WebServer.reported. cbn [Nat.pred WebServer.cycles].
  rewrite processCycle_single_finished with (r := r);
    [reflexivity | exact Hact | simpl; now rewrite Hq | lia].
Qed.

(** ** The processing-time counter of a worker *)

(** What the counter gains when a lone item of duration [D >= 1] completes:
    the value read by [getProcessingTime] at the completing call, which
    [setProcessingTime] has brought down to 1 by then. *)
Lemma completion_adds_remaining_duration (w : WebServer.t) (r : Request.t) :
  WebServer.isActive w = true ->
  WebServer.requestQueue w = [] ->
  1 <= Request.processingTime r ->
  WebServer.totalProcessingTime
    (WebServer.cycles (Z.to_nat (Request.processingTime r)) (WebServer.push w r))
  = WebServer.totalProcessingTime w + 1.
Proof.
  intros Hact Hq Hpos.
  set (D := Z.to_nat (Request.processingTime r)).
  assert (HD : D = S (Nat.pred D)) by (unfold D; lia).
  assert (Hsplit : forall n v, WebServer.cycles (S n) v =
                     snd (WebServer.processCycle (WebServer.cycles n v))).
  { induction n as [|n IH]; intros v; [reflexivity|].
    cbn [WebServer.cycles]. now rewrite <- IH. }
  rewrite HD, Hsplit.
  rewrite cycles_single_before with (r := r);
    [| exact Hact | simpl; now rewrite Hq | unfold D; lia].
  rewrite processCycle_single_finished
    with (r := Request.setProcessingTime r
                 (Request.processingTime r - Z.of_nat (Nat.pred D)));
    [| exact Hact | reflexivity | simpl; unfold D; lia].
  simpl. unfold D. lia.
Qed.

(** C3, evaluated.  A worker receives one item of duration 3.  The third
    call of [processCycle] completes it and the processing-time counter
    holds 1, the duration left at the completing call, and not 3, the
    duration the item was submitted with. *)
Theorem processing_time_counter_at_completion :
  let w := WebServer.make 1 "192.168.1.1" 5 in
  let r := Request.mk "10.0.0.7" "GET" 5 3 42 in
  let w1 := snd (WebServer.addRequest w r) in
  fst (WebServer.addRequest w r) = true
  /\ Request.getProcessingTime r = 3
  /\ WebServer.reported 3 w1 = 1
  /\ WebServer.totalRequestsProcessed (WebServer.cycles 3 w1) = 1
  /\ WebServer.totalProcessingTime (WebServer.cycles 3 w1) = 1
  /\ WebServer.totalProcessingTime (WebServer.cycles 3 w1) <> 3.
Proof. vm_compute. repeat split; discriminate. Qed.

(** ** The admission queue *)

Section AdmissionQueue.

Import RequestQueue.

Lemma isIPBlocked_In (q : t) (ip : string) :
  isIPBlocked q ip = true <-> In ip (blockedIPs q).
Proof.
  unfold isIPBlocked. rewrite existsb_exists. split.
  - intros (x & Hin & Heq). apply String.eqb_eq in Heq. now subst.
  - intros Hin. exists ip. split; [exact Hin | apply String.eqb_refl].
Qed.

Lemma isIPBlocked_blockIP (q : t) (ip : string) :
  isIPBlocked (blockIP q ip) ip = true.
Proof.
  unfold blockIP. destruct (isIPBlocked q ip) eqn:E; [exact E|].
  unfold isIPBlocked. simpl. rewrite existsb_app. simpl.
  rewrite String.eqb_refl. now rewrite orb_true_r.
Qed.

(** Blocklist enforcement: once an origin is blocked, an item from it is
    refused and the queue is left as it was. *)
Lemma blocked_origin_rejected (q : t) (item : Request.t) :
  addRequest (blockIP q (Request.getClientIP item)) item
  = (false, blockIP q (Request.getClientIP item)).
Proof.
  unfold addRequest. now rewrite isIPBlocked_blockIP.
Qed.

Lemma getSize_blockIP (q : t) (ip : string) :
  getSize (blockIP q ip) = getSize q.
Proof.
  unfold blockIP. now destruct (isIPBlocked q ip).
Qed.

End AdmissionQueue.

Lemma setRequestQueue_same (lb : LoadBalancer.t) :
  LoadBalancer.setRequestQueue lb (LoadBalancer.requestQueue lb) = lb.
Proof. now destruct lb. Qed.

(** C7. Enqueue.  In a queue that respects its bound (size <= capacity),
    [RequestQueue::addRequest], and [LoadBalancer::addRequest] which
    forwards to it, return false and change nothing exactly when the origin
    of the item is blocked or the size equals the capacity; otherwise they
    return true, the item is appended at the tail and the admitted counter
    grows by one, nothing else changing.  After [blockIP a], submitting an
    item of origin [a] returns false and leaves the queue, and its size,
    unchanged. *)
Theorem enqueue_spec (lb : LoadBalancer.t) (item : Request.t) :
  let q := LoadBalancer.requestQueue lb in
  RequestQueue.getSize q <= RequestQueue.maxSize q ->
  let rejected :=
    In (Request.getClientIP item) (RequestQueue.blockedIPs q)
    \/ RequestQueue.getSize q = RequestQueue.maxSize q in
  let appended :=
    RequestQueue.mk (RequestQueue.requestQueue q ++ [item])
                    (RequestQueue.maxSize q)
                    (RequestQueue.totalRequestsAdded q + 1)
                    (RequestQueue.totalRequestsRemoved q)
                    (RequestQueue.blockedIPs q) in
  (rejected ->
     RequestQueue.addRequest q item = (false, q)
     /\ LoadBalancer.addRequest lb item = (false, lb))
  /\ (~ rejected ->
     RequestQueue.addRequest q item = (true, appended)
     /\ LoadBalancer.addRequest lb item
        = (true, LoadBalancer.setRequestQueue lb appended))
  /\ (fst (RequestQueue.addRequest q item) = false <-> rejected)
  /\ (fst (LoadBalancer.addRequest lb item) = false <-> rejected)
  /\ (let blocked := LoadBalancer.blockIP lb (Request.getClientIP item) in
      LoadBalancer.addRequest blocked item = (false, blocked)
      /\ LoadBalancer.getQueueSize (snd (LoadBalancer.addRequest blocked item))
         = LoadBalancer.getQueueSize lb).
Proof.
  intros q Hbound rejected appended.
  assert (Hrej : rejected -> RequestQueue.addRequest q item = (false, q)).
  { intros [Hb | Hfull]; unfold RequestQueue.addRequest.
    - apply isIPBlocked_In in Hb. now rewrite Hb.
    - destruct (RequestQueue.isIPBlocked q (Request.getClientIP item)); [reflexivity|].
      unfold RequestQueue.isFull. rewrite Hfull, Z.leb_refl. reflexivity. }
  assert (Hacc : ~ rejected -> RequestQueue.addRequest q item = (true, appended)).
  { intros Hn. unfold RequestQueue.addRequest.
    destruct (RequestQueue.isIPBlocked q (Request.getClientIP item)) eqn:Eb.
    - exfalso. apply Hn. left. now apply isIPBlocked_In.
    - unfold RequestQueue.isFull.
      destruct (Z.leb_spec (RequestQueue.maxSize q) (RequestQueue.getSize q)) as [Hle|Hlt];
        [|reflexivity].
      exfalso. apply Hn. right. lia. }
  assert (Hdec : rejected \/ ~ rejected).
  { unfold rejected.
    destruct (RequestQueue.isIPBlocked q (Request.getClientIP item)) eqn:Eb.
    - left. left. now apply isIPBlocked_In.
    - destruct (Z.eq_dec (RequestQueue.getSize q) (RequestQueue.maxSize q)) as [E|E].
      + left. now right.
      + right. intros [Hb|Hf]; [|contradiction].
        apply isIPBlocked_In in Hb. congruence. }
  assert (Hfst : fst (RequestQueue.addRequest q item) = false <-> rejected).
  { split.
    - intros Hf. destruct Hdec as [H|H]; [exact H|].
      rewrite (Hacc H) in Hf. discriminate.
    - intros H. now rewrite (Hrej H). }
  assert (Hlb : LoadBalancer.addRequest lb item =
                (fst (RequestQueue.addRequest q item),
                 LoadBalancer.setRequestQueue lb (snd (RequestQueue.addRequest q item)))).
  { unfold LoadBalancer.addRequest. fold q.
    now destruct (RequestQueue.addRequest q item). }
  repeat split.
  - now apply Hrej.
  - rewrite Hlb, (Hrej H). simpl. now rewrite setRequestQueue_same.
  - now apply Hacc.
  - rewrite Hlb, (Hacc H). reflexivity.
  - apply Hfst.
  - apply Hfst.
  - rewrite Hlb. simpl. apply Hfst.
  - rewrite Hlb. simpl. apply Hfst.
  - unfold LoadBalancer.addRequest, LoadBalancer.blockIP. simpl.
    rewrite blocked_origin_rejected. simpl. now rewrite setRequestQueue_same.
  - unfold LoadBalancer.addRequest, LoadBalancer.blockIP. simpl.
    rewrite blocked_origin_rejected. simpl.
    unfold LoadBalancer.getQueueSize. simpl. apply getSize_blockIP.
Qed.

(** The theorem at the queue of a freshly built balancer: the bound holds
    (0 <= 1000), the item is admitted, and it is refused once its origin is
    blocked. *)
Lemma enqueue_spec_witness :
  let lb := LoadBalancer.default in
  let item := Request.mk "1.2.3.4" "GET" 5 7 1 in
  RequestQueue.getSize (LoadBalancer.requestQueue lb)
    <= RequestQueue.maxSize (LoadBalancer.requestQueue lb)
  /\ fst (LoadBalancer.addRequest lb item) = true
  /\ LoadBalancer.addRequest (LoadBalancer.blockIP lb "1.2.3.4") item
     = (false, LoadBalancer.blockIP lb "1.2.3.4").
Proof.
  intros lb item.
  assert (Hbound : RequestQueue.getSize (LoadBalancer.requestQueue lb)
                   <= RequestQueue.maxSize (LoadBalancer.requestQueue lb))
    by (vm_compute; discriminate).
  destruct (enqueue_spec lb item Hbound) as (_ & Hacc & _ & _ & Hblk & _).
  split; [exact Hbound|]. split.
  - destruct Hacc as [_ Hlb].
    + intros [Hin | Hfull]; [destruct Hin | vm_compute in Hfull; discriminate].
    + now rewrite Hlb.
  - exact Hblk.
Defined.




(** ** Workers keep their invariant *)

Lemma processLoop_ok (pending : list Request.t) :
  forall (completedRequests : Z) (tempQueue : list Request.t) (w : WebServer.t),
    0 <= WebServer.maxCapacity w ->
    WebServer.currentLoad w = Z.of_nat (length pending + length tempQueue) ->
    worker_ok (snd (WebServer.processLoop pending completedRequests tempQueue w)).
Proof.
  induction pending as [|cur pending IH]; intros c temp w Hcap Hload.
  - split; [exact Hload | exact Hcap].
  - cbn [WebServer.processLoop].
    destruct (Request.getProcessingTime cur - 1 <=? 0).
    + apply IH; [exact Hcap|]. simpl in *. lia.
    + apply IH; [exact Hcap|]. rewrite length_app. simpl in *. lia.
Qed.

Lemma processCycle_ok (w : WebServer.t) :
  worker_ok w -> worker_ok (snd (WebServer.processCycle w)).
Proof.
  intros [Hload Hcap]. unfold WebServer.processCycle.
  destruct (negb (WebServer.isActive w) || _); [now split|].
  apply processLoop_ok; [exact Hcap|]. simpl. lia.
Qed.

Lemma push_ok (w : WebServer.t) (r : Request.t) :
  worker_ok w -> worker_ok (WebServer.push w r).
Proof.
  intros [Hload Hcap]. split; [|exact Hcap].
  simpl. rewrite length_app. simpl. lia.
Qed.

Lemma make_ok (id : Z) (ip : string) : worker_ok (WebServer.make id ip 5).
Proof. split; simpl; lia. Qed.

Lemma addRequest_cases (w : WebServer.t) (r : Request.t) :
  WebServer.addRequest w r = (false, w)
  \/ WebServer.addRequest w r = (true, WebServer.push w r).
Proof.
  unfold WebServer.addRequest. destruct (negb _ || _); [now left | now right].
Qed.

Lemma canAccept_addRequest (w : WebServer.t) (r : Request.t) :
  WebServer.canAcceptRequest w = true ->
  WebServer.addRequest w r = (true, WebServer.push w r).
Proof.
  unfold WebServer.canAcceptRequest, WebServer.addRequest.
  intros H. apply andb_true_iff in H as [Hact Hlt].
  rewrite Hact. simpl. apply Z.ltb_lt in Hlt.
  destruct (Z.leb_spec (WebServer.maxCapacity w) (WebServer.currentLoad w));
    [lia | reflexivity].
Qed.

Lemma processServers_spec (l : list WebServer.t) :
  forall totalCompleted : Z,
    length (snd (LoadBalancer.processServers l totalCompleted)) = length l
    /\ (Forall worker_ok l ->
        Forall worker_ok (snd (LoadBalancer.processServers l totalCompleted))).
Proof.
  induction l as [|server l IH]; intros total;
    [split; [reflexivity | intros; constructor]|].
  cbn [LoadBalancer.processServers].
  destruct (WebServer.isActive server).
  - pose proof (processCycle_ok server) as Hsrv.
    destruct (WebServer.processCycle server) as [completed server'].
    destruct (IH (total + completed)) as [IHlen IHok].
    destruct (LoadBalancer.processServers l (total + completed)) as [total' l''].
    simpl in *. split; [now rewrite IHlen|].
    intros Hall. inversion Hall as [|? ? Hs Hl]; subst.
    constructor; [now apply Hsrv | now apply IHok].
  - destruct (IH total) as [IHlen IHok].
    destruct (LoadBalancer.processServers l total) as [total' l''].
    simpl in *. split; [now rewrite IHlen|].
    intros Hall. inversion Hall as [|? ? Hs Hl]; subst.
    constructor; [exact Hs | now apply IHok].
Qed.

(** ** Pool operations: what they change *)

Section PoolOperations.

Import LoadBalancer.

Lemma same_settings_refl (lb : t) : same_settings lb lb.
Proof. now repeat split. Qed.

Lemma same_settings_trans (a b c : t) :
  same_settings a b -> same_settings b c -> same_settings a c.
Proof.
  intros (H1 & H2 & H3 & H4) (K1 & K2 & K3 & K4).
  repeat split; congruence.
Qed.

Lemma size_nonneg (lb : t) : 0 <= size lb.
Proof. unfold size. lia. Qed.

Lemma length_removelast {A : Type} (l : list A) :
  length (removelast l) = Nat.pred (length l).
Proof.
  induction l as [|a l IH]; [reflexivity|].
  destruct l as [|b l]; [reflexivity|].
  change (removelast (a :: b :: l)) with (a :: removelast (b :: l)).
  simpl length in *. now rewrite IH.
Qed.

Lemma Forall_removelast {A : Type} (P : A -> Prop) (l : list A) :
  Forall P l -> Forall P (removelast l).
Proof.
  induction 1 as [|a l Ha Hl IH]; [constructor|].
  destruct l as [|b l]; [constructor|].
  change (removelast (a :: b :: l)) with (a :: removelast (b :: l)).
  now constructor.
Qed.

Lemma addServer_spec (lb : t) :
  let lb' := snd (addServer lb) in
  same_settings lb lb'
  /\ nextServerIndex lb' = nextServerIndex lb
  /\ requestQueue lb' = requestQueue lb
  /\ totalRequestsProcessed lb' = totalRequestsProcessed lb
  /\ size lb' = (if size lb <? maxServers lb then size lb + 1 else size lb)
  /\ (pool_ok lb -> pool_ok lb').
Proof.
  unfold addServer.
  destruct (Z.leb_spec (maxServers lb) (size lb)) as [Hle|Hlt];
    destruct (Z.ltb_spec (size lb) (maxServers lb)); try lia; simpl.
  - repeat split; auto.
  - repeat split; auto.
    + unfold size. simpl. rewrite length_app. simpl. lia.
    + intros Hok. unfold pool_ok in *. simpl. apply Forall_app. split; [exact Hok|].
      constructor; [apply make_ok | constructor].
Qed.

Lemma removeServer_spec (lb : t) :
  let lb' := snd (removeServer lb) in
  same_settings lb lb'
  /\ nextServerIndex lb' = nextServerIndex lb
  /\ requestQueue lb' = requestQueue lb
  /\ totalRequestsProcessed lb' = totalRequestsProcessed lb
  /\ size lb' = (if minServers lb <? size lb then Z.max 0 (size lb - 1) else size lb)
  /\ (pool_ok lb -> pool_ok lb').
Proof.
  unfold removeServer.
  destruct (Z.leb_spec (size lb) (minServers lb)) as [Hle|Hlt];
    destruct (Z.ltb_spec (minServers lb) (size lb)); try lia; simpl.
  - repeat split; auto.
  - repeat split; auto.
    + unfold size. simpl. rewrite length_removelast. lia.
    + intros Hok. unfold pool_ok in *. simpl. now apply Forall_removelast.
Qed.

Lemma scan_spec (steps : nat) :
  forall (i serverIndex : Z) (lb : t),
    let res := scan steps i serverIndex lb in
    length (servers (snd res)) = length (servers lb)
    /\ same_settings lb (snd res)
    /\ totalRequestsProcessed (snd res) = totalRequestsProcessed lb
    /\ (pool_ok lb -> pool_ok (snd res))
    /\ (fst res = false -> nextServerIndex (snd res) = nextServerIndex lb)
    /\ (fst res = true -> 0 <= nextServerIndex (snd res) < size lb).
Proof.
  induction steps as [|steps IH]; intros i serverIndex lb; cbn zeta.
  - simpl. repeat split; auto; discriminate.
  - cbn [scan].
    destruct (servers lb !! Z.to_nat ((serverIndex + i) mod size lb))
      as [server|] eqn:Elook; [|apply IH].
    destruct (WebServer.canAcceptRequest server) eqn:Ecan; [|apply IH].
    destruct (RequestQueue.getNextRequest (requestQueue lb)) as [request q].
    rewrite (canAccept_addRequest server request Ecan).
    assert (Hpos : 0 < size lb).
    { apply lookup_lt_Some in Elook. unfold size. lia. }
    simpl. repeat split; auto.
    + apply length_insert.
    + intros Hok. unfold pool_ok in *. simpl.
      apply Forall_insert; [exact Hok|].
      apply push_ok. eapply Forall_lookup_1; eauto.
    + discriminate.
    + apply Z.mod_pos_bound. exact Hpos.
    + apply Z.mod_pos_bound. exact Hpos.
Qed.

Lemma distributeLoop_spec (budget : nat) :
  forall lb : t,
    let lb' := distributeLoop budget lb in
    length (servers lb') = length (servers lb)
    /\ same_settings lb lb'
    /\ totalRequestsProcessed lb' = totalRequestsProcessed lb
    /\ (pool_ok lb -> pool_ok lb')
    /\ cursor_kept_or_fresh (size lb) lb lb'.
Proof.
  induction budget as [|budget IH]; intros lb; cbn zeta.
  - simpl. split_and!; auto using same_settings_refl. now left.
  - cbn [distributeLoop].
    destruct (RequestQueue.isEmpty (requestQueue lb)).
    { split_and!; auto using same_settings_refl. now left. }
    pose proof (scan_spec (length (servers lb)) 0 (nextServerIndex lb) lb) as Hscan.
    cbn zeta in Hscan.
    destruct (scan (length (servers lb)) 0 (nextServerIndex lb) lb) as [assigned lb1].
    simpl in Hscan. destruct Hscan as (Hlen & Hset & Htot & Hok & Hkeep & Hfresh).
    destruct assigned.
    + specialize (IH lb1). cbn zeta in IH.
      destruct IH as (Hlen' & Hset' & Htot' & Hok' & Hcur').
      assert (Hsize : size lb1 = size lb) by (unfold size; now rewrite Hlen).
      split_and!.
      * congruence.
      * eapply same_settings_trans; eauto.
      * congruence.
      * auto.
      * unfold cursor_kept_or_fresh in *. destruct Hcur' as [Hsame | Hnew]; right.
        -- rewrite Hsame. now apply Hfresh.
        -- now rewrite <- Hsize.
    + split_and!; auto. left. now apply Hkeep.
Qed.

Lemma distributeRequests_spec (lb : t) :
  let lb' := distributeRequests lb in
  length (servers lb') = length (servers lb)
  /\ same_settings lb lb'
  /\ totalRequestsProcessed lb' = totalRequestsProcessed lb
  /\ (pool_ok lb -> pool_ok lb')
  /\ cursor_kept_or_fresh (size lb) lb lb'.
Proof.
  unfold distributeRequests.
  destruct (RequestQueue.isEmpty (requestQueue lb)).
  - split_and!; auto using same_settings_refl. now left.
  - apply distributeLoop_spec.
Qed.

End PoolOperations.

(** ** The scaling step *)

Section Scaling.

Import LoadBalancer.






Lemma div_nonneg (x y : Q) :
  (0 <= x)%Q -> (0 <= y)%Q -> (0 <= Binary64.div x y)%Q.
Proof.
  intros Hx Hy. apply round_nonneg. unfold Qdiv.
  apply Qmult_le_0_compat; [exact Hx|]. now apply Qinv_le_0_compat.
Qed.

Lemma of_int_nonneg (z : Z) : 0 <= z -> (0 <= Binary64.of_int z)%Q.
Proof.
  intros Hz. apply round_nonneg. unfold Qle, inject_Z. simpl. lia.
Qed.

Lemma getUtilization_double_nonneg (w : WebServer.t) :
  worker_ok w -> (0 <= WebServer.getUtilization_double w)%Q.
Proof.
  intros [Hload Hcap]. unfold WebServer.getUtilization_double.
  destruct (WebServer.maxCapacity w =? 0); [apply Qle_refl|].
  apply round_nonneg. apply Qmult_le_0_compat; [|discriminate].
  apply div_nonneg; apply of_int_nonneg; lia.
Qed.

Lemma sumActive_double_nonneg (l : list WebServer.t) :
  Forall worker_ok l ->
  forall (totalUtilization : Q) (activeServers : Z),
    (0 <= totalUtilization)%Q -> 0 <= activeServers ->
    (0 <= fst (sumActive_double l totalUtilization activeServers))%Q
    /\ 0 <= snd (sumActive_double l totalUtilization activeServers).
Proof.
  induction 1 as [|w l Hw Hl IH]; intros total n Htotal Hn; [now split|].
  cbn [sumActive_double]. destruct (WebServer.isActive w); [|now apply IH].
  apply IH; [|lia].
  apply round_nonneg.
  apply getUtilization_double_nonneg in Hw.
  rewrite <- (Qplus_0_l 0). now apply Qplus_le_compat.
Qed.

Lemma getSystemUtilization_double_nonneg (lb : t) :
  pool_ok lb -> (0 <= getSystemUtilization_double lb)%Q.
Proof.
  intros Hok. unfold getSystemUtilization_double.
  destruct (servers lb) as [|w l] eqn:E; [apply Qle_refl|].
  rewrite <- E. unfold pool_ok in Hok.
  destruct (sumActive_double_nonneg _ Hok 0%Q 0 (Qle_refl 0) (Z.le_refl 0))
    as [Hq Hn].
  destruct (sumActive_double (servers lb) 0%Q 0) as [total n]. simpl in *.
  destruct (Z.ltb_spec 0 n) as [Hpos|_]; [|apply Qle_refl].
  apply div_nonneg; [exact Hq | apply of_int_nonneg; lia].
Qed.

Lemma avgUtilization_nonneg (lb : t) :
  pool_ok lb -> (0 <= avgUtilization lb)%Q.
Proof.
  intros Hok. unfold avgUtilization.
  apply div_nonneg; [now apply getSystemUtilization_double_nonneg | discriminate].
Qed.

(** The loop of [getSystemUtilization] sums, from left to right, over the
    active servers. *)
Lemma sumActive_double_spec (l : list WebServer.t) :
  forall (totalUtilization : Q) (activeServers : Z),
    sumActive_double l totalUtilization activeServers
    = (fold_left Binary64.add
         (map WebServer.getUtilization_double (List.filter WebServer.isActive l))
         totalUtilization,
       activeServers + Z.of_nat (length (List.filter WebServer.isActive l))).
Proof.
  induction l as [|w l IH]; intros total n.
  - simpl. f_equal. lia.
  - cbn [sumActive_double List.filter]. destruct (WebServer.isActive w).
    + rewrite IH. cbn [map fold_left length]. f_equal. lia.
    + apply IH.
Qed.

Lemma getSystemUtilization_double_mean (lb : t) :
  getSystemUtilization_double lb = mean_active_utilization_double lb.
Proof.
  unfold getSystemUtilization_double, mean_active_utilization_double.
  destruct (servers lb) as [|w0 l0] eqn:E; [reflexivity|]. rewrite <- E. clear E.
  rewrite sumActive_double_spec.
  destruct (List.filter WebServer.isActive (servers lb)) as [|a act];
    [reflexivity|].
  destruct (Z.ltb_spec 0 (0 + Z.of_nat (length (a :: act)))) as [_|Hle];
    [|simpl length in Hle; lia].
  reflexivity.
Qed.

(** In binary64 too, a utilization that is not negative cannot be above
    the threshold and below the rounded twentieth of it. *)
Lemma thresholds_exclusive_double (avg threshold : Q) :
  (0 <= avg)%Q -> (threshold < avg)%Q ->
  (avg < Binary64.mul threshold Binary64.twentieth)%Q -> False.
Proof.
  intros H0 Hup Hdown.
  destruct (Qlt_le_dec 0 threshold) as [Hpos|Hneg].
  - apply (Qlt_irrefl avg).
    eapply Qlt_le_trans; [exact Hdown|].
    eapply Qle_trans; [apply mul_twentieth_le; now apply Qlt_le_weak|].
    now apply Qlt_le_weak.
  - apply (Qlt_irrefl avg).
    eapply Qlt_le_trans; [exact Hdown|].
    eapply Qle_trans; [now apply mul_twentieth_nonpos | exact H0].
Qed.

(** A utilization that is not negative cannot be above the threshold and
    below a twentieth of it, whatever the threshold. *)
Lemma thresholds_exclusive (avg threshold : Q) :
  (0 <= avg)%Q -> (threshold < avg)%Q -> (avg < threshold * (5 # 100))%Q -> False.
Proof.
  intros H0 Hup Hdown.
  destruct (Qlt_le_dec 0 threshold) as [Hpos|Hneg].
  - assert (H : (threshold * (5 # 100) <= threshold)%Q).
    { rewrite <- (Qmult_1_r threshold) at 2.
      apply Qmult_le_l; [exact Hpos | discriminate]. }
    apply (Qlt_irrefl avg).
    eapply Qlt_le_trans; [exact Hdown|].
    eapply Qle_trans; [exact H | now apply Qlt_le_weak].
  - assert (H : (threshold * (5 # 100) <= 0)%Q).
    { rewrite <- (Qmult_0_l (5 # 100)).
      apply Qmult_le_compat_r; [exact Hneg | discriminate]. }
    apply (Qlt_irrefl avg).
    eapply Qlt_le_trans; [exact Hdown|].
    eapply Qle_trans; [exact H | exact H0].
Qed.

Lemma scaleUpGuard_iff (avg : Q) (queueSize : Z) (lb : t) :
  scaleUpGuard avg queueSize lb = true
  <-> ((threshold_double lb < avg)%Q \/ 10 < queueSize) /\ size lb < maxServers lb.
Proof.
  unfold scaleUpGuard.
  rewrite andb_true_iff, orb_true_iff, Qltb_lt, !Z.ltb_lt. reflexivity.
Qed.

Lemma scaleDownGuard_iff (avg : Q) (queueSize : Z) (lb : t) :
  scaleDownGuard avg queueSize lb = true
  <-> (avg < Binary64.mul (threshold_double lb) Binary64.twentieth)%Q
      /\ queueSize = 0
      /\ minServers lb + 3 < size lb.
Proof.
  unfold scaleDownGuard.
  rewrite !andb_true_iff, Qltb_lt, Z.eqb_eq, Z.ltb_lt. tauto.
Qed.

(** The two guards of one call cannot both hold: they are evaluated with
    the same [avg] and [queueSize], in [lb] and in any later pool [lb1]. *)
Lemma guards_exclusive (avg : Q) (queueSize : Z) (lb lb1 : t) :
  (0 <= avg)%Q ->
  loadThreshold lb1 = loadThreshold lb ->
  scaleUpGuard avg queueSize lb = true ->
  scaleDownGuard avg queueSize lb1 = true ->
  False.
Proof.
  intros H0 Hthr Hup Hdown.
  apply scaleUpGuard_iff in Hup as [[Hup|Hq] _];
    apply scaleDownGuard_iff in Hdown as (Hdown & Hq0 & _).
  - unfold threshold_double in Hup, Hdown. rewrite Hthr in Hdown.
    exact (thresholds_exclusive_double _ _ H0 Hup Hdown).
  - lia.
Qed.

(** What [checkLoadBalancing] leaves alone and what it keeps true, in
    any state. *)
Lemma checkLoadBalancing_frame (lb : t) :
  let lb' := checkLoadBalancing lb in
  same_settings lb lb'
  /\ nextServerIndex lb' = nextServerIndex lb
  /\ requestQueue lb' = requestQueue lb
  /\ totalRequestsProcessed lb' = totalRequestsProcessed lb
  /\ (pool_ok lb -> pool_ok lb')
  /\ (pool_bounds lb -> pool_bounds lb')
  /\ (size lb <= maxServers lb -> size lb' <= maxServers lb)
  /\ (size lb = 0 -> size lb' = 0).
Proof.
  cbn zeta. unfold checkLoadBalancing.
  destruct (servers lb) as [|w l] eqn:E.
  { split_and!; auto using same_settings_refl. }
  assert (Hne : 0 < size lb) by (unfold size; rewrite E; simpl; lia).
  set (avg := avgUtilization lb). set (qs := getQueueSize lb).
  pose proof (addServer_spec lb) as Hadd. cbn zeta in Hadd.
  set (lb1 := if scaleUpGuard avg qs lb then snd (addServer lb) else lb).
  assert (H1 : same_settings lb lb1
               /\ nextServerIndex lb1 = nextServerIndex lb
               /\ requestQueue lb1 = requestQueue lb
               /\ totalRequestsProcessed lb1 = totalRequestsProcessed lb
               /\ (pool_ok lb -> pool_ok lb1)
               /\ size lb <= size lb1
               /\ (size lb1 = size lb \/ (size lb1 = size lb + 1 /\ size lb < maxServers lb))).
  { unfold lb1. destruct (scaleUpGuard avg qs lb) eqn:Eup.
    - apply scaleUpGuard_iff in Eup as [_ Hlt].
      destruct Hadd as (A1 & A2 & A3 & A4 & A5 & A6).
      destruct (Z.ltb_spec (size lb) (maxServers lb)); [|lia].
      split_and!; auto; lia.
    - split_and!; auto using same_settings_refl; lia. }
  destruct H1 as (S1 & C1 & Q1 & T1 & P1 & G1 & Z1).
  pose proof (removeServer_spec lb1) as Hrem. cbn zeta in Hrem.
  destruct Hrem as (R1 & R2 & R3 & R4 & R5 & R6).
  destruct S1 as (M1 & M2 & M3 & M4).
  destruct (scaleDownGuard avg qs lb1) eqn:Edown.
  - apply scaleDownGuard_iff in Edown as (_ & _ & Hgt).
    destruct (Z.ltb_spec (minServers lb1) (size lb1)); [|lia].
    destruct R1 as (N1 & N2 & N3 & N4).
    unfold pool_bounds. rewrite R5, N1, N2, M1, M2.
    split_and!; try congruence; auto; try lia.
    repeat split; congruence.
  - unfold pool_bounds. rewrite M1, M2.
    split_and!; try congruence; auto; try lia.
    repeat split; congruence.
Qed.

(** The three outcomes of [checkLoadBalancing] on a non-empty pool whose
    workers satisfy their invariant. *)
Lemma checkLoadBalancing_cases (lb : t) :
  servers lb <> [] ->
  pool_ok lb ->
  (scale_up_condition lb /\ ~ scale_down_condition lb
   /\ checkLoadBalancing lb = snd (addServer lb)
   /\ size (checkLoadBalancing lb) = size lb + 1)
  \/ (scale_down_condition lb /\ ~ scale_up_condition lb
      /\ checkLoadBalancing lb = snd (removeServer lb)
      /\ size (checkLoadBalancing lb) = size lb - 1)
  \/ (~ scale_up_condition lb /\ ~ scale_down_condition lb
      /\ checkLoadBalancing lb = lb).
Proof.
  intros Hne Hok.
  pose proof (avgUtilization_nonneg lb Hok) as Havg.
  assert (Hpos : 0 < size lb).
  { unfold size. destruct (servers lb); [contradiction | simpl; lia]. }
  unfold checkLoadBalancing.
  destruct (servers lb) as [|w l] eqn:E; [contradiction|]. clear E.
  pose proof (addServer_spec lb) as Hadd. cbn zeta in Hadd.
  destruct Hadd as ((A1 & A2 & A3 & A4) & _ & _ & _ & Asize & _).
  destruct (scaleUpGuard (avgUtilization lb) (getQueueSize lb) lb) eqn:Eup.
  - left.
    destruct (scaleDownGuard (avgUtilization lb) (getQueueSize lb) (snd (addServer lb))) eqn:Edown.
    { exfalso. eapply guards_exclusive; eauto. }
    pose proof Eup as Hup. apply scaleUpGuard_iff in Hup.
    split_and!.
    + exact Hup.
    + intros (Hd & Hq & _). destruct Hup as [[Hu|Hu] _]; [|lia].
      exact (thresholds_exclusive_double _ _ Havg Hu Hd).
    + reflexivity.
    + rewrite Asize. destruct Hup as [_ Hlt].
      destruct (Z.ltb_spec (size lb) (maxServers lb)); lia.
  - right.
    assert (Hnup : ~ scale_up_condition lb).
    { intros H. apply scaleUpGuard_iff in H. congruence. }
    destruct (scaleDownGuard (avgUtilization lb) (getQueueSize lb) lb) eqn:Edown.
    + left. pose proof Edown as Hdown. apply scaleDownGuard_iff in Hdown.
      split_and!; auto.
      pose proof (removeServer_spec lb) as Hrem. cbn zeta in Hrem.
      destruct Hrem as (_ & _ & _ & _ & Rsize & _). rewrite Rsize.
      destruct Hdown as (_ & _ & Hgt).
      destruct (Z.ltb_spec (minServers lb) (size lb)); lia.
    + right. split_and!; auto.
      intros H. apply scaleDownGuard_iff in H. congruence.
Qed.

End Scaling.

(** ** Every operation, and every reachable state *)

Section Reachability.

Import LoadBalancer.

Lemma processCycle_unfold (lb : t) :
  snd (processCycle lb) =
  let lb3 := checkLoadBalancing
               (distributeRequests
                  (setServers lb (snd (processServers (servers lb) 0)))) in
  setTotalRequestsProcessed lb3
    (totalRequestsProcessed lb3 + fst (processServers (servers lb) 0)).
Proof.
  unfold processCycle. now destruct (processServers (servers lb) 0).
Qed.

Lemma processCycle_effect (lb : t) : op_effect lb (snd (processCycle lb)).
Proof.
  rewrite processCycle_unfold. cbn zeta.
  destruct (processServers_spec (servers lb) 0) as [Hlen Hok].
  set (lb1 := setServers lb (snd (processServers (servers lb) 0))).
  assert (Hsize1 : size lb1 = size lb) by (unfold size, lb1; simpl; now rewrite Hlen).
  destruct (distributeRequests_spec lb1) as (Dlen & Dset & _ & Dok & Dcur).
  set (lb2 := distributeRequests lb1) in *.
  assert (Hsize2 : size lb2 = size lb) by (unfold size in *; rewrite Dlen; exact Hsize1).
  destruct (checkLoadBalancing_frame lb2) as (Cset & Ccur & _ & _ & Cok & Cbnd & Cmax & Czero).
  set (lb3 := checkLoadBalancing lb2) in *.
  assert (Hset : same_settings lb lb3).
  { apply same_settings_trans with lb2; [|exact Cset].
    apply same_settings_trans with lb1; [|exact Dset]. now repeat split. }
  destruct Hset as (M1 & M2 & M3 & M4).
  destruct Dset as (N1 & N2 & _ & _).
  assert (K1 : maxServers lb2 = maxServers lb) by (rewrite N1; reflexivity).
  assert (K2 : minServers lb2 = minServers lb) by (rewrite N2; reflexivity).
  unfold op_effect, pool_bounds, cursor_kept_or_fresh, pool_ok in *. simpl.
  fold (size lb3).
  change (size (setTotalRequestsProcessed lb3
                  (totalRequestsProcessed lb3 + fst (processServers (servers lb) 0))))
    with (size lb3).
  rewrite Hsize1 in Dcur. rewrite K1, K2, Hsize2 in *.
  split_and!.
  - now repeat split.
  - intros H. apply Cok, Dok. simpl. now apply Hok.
  - intros H. now apply Cbnd.
  - rewrite Ccur. destruct Dcur as [D|D]; [left; exact D | right; exact D].
  - exact Cmax.
  - intros H. left. now apply Czero.
Qed.

Lemma step_effect (lb : t) (o : op) : op_effect lb (step lb o).
Proof.
  destruct o; cbn [step].
  - destruct (addServer_spec lb) as (S & C & _ & _ & Z & P). cbn zeta in *.
    destruct S as (M1 & M2 & M3 & M4).
    unfold op_effect, pool_bounds, cursor_kept_or_fresh. rewrite M1, M2, Z.
    destruct (Z.ltb_spec (size lb) (maxServers lb));
      (split_and!; [now repeat split | exact P | lia | now left | lia | lia]).
  - destruct (removeServer_spec lb) as (S & C & _ & _ & Z & P). cbn zeta in *.
    destruct S as (M1 & M2 & M3 & M4).
    unfold op_effect, pool_bounds, cursor_kept_or_fresh. rewrite M1, M2, Z.
    pose proof (size_nonneg lb).
    destruct (Z.ltb_spec (minServers lb) (size lb));
      (split_and!; [now repeat split | exact P | lia | now left | lia | lia]).
  - unfold addRequest. destruct (RequestQueue.addRequest (requestQueue lb) request).
    unfold op_effect, pool_bounds, cursor_kept_or_fresh, pool_ok, size. simpl.
    split_and!; auto; now repeat split.
  - apply processCycle_effect.
  - destruct (distributeRequests_spec lb) as (Dlen & Dset & _ & Dok & Dcur).
    assert (Hsize : size (distributeRequests lb) = size lb)
      by (unfold size; now rewrite Dlen).
    destruct Dset as (M1 & M2 & M3 & M4).
    unfold op_effect, pool_bounds. rewrite Hsize, M1, M2.
    split_and!; auto. now repeat split.
  - destruct (checkLoadBalancing_frame lb) as (S & C & _ & _ & P & B & Mx & Z0).
    unfold op_effect, cursor_kept_or_fresh.
    split_and!; auto.
  - unfold op_effect, pool_bounds, cursor_kept_or_fresh, pool_ok, size. simpl.
    split_and!; auto; now repeat split.
  - unfold op_effect, pool_bounds, cursor_kept_or_fresh, pool_ok, size. simpl.
    split_and!; auto; now repeat split.
Qed.

Lemma step_cursor_inv (lb : t) (o : op) :
  cursor_inv lb -> cursor_inv (step lb o).
Proof.
  intros (H0 & Hmax & Hsize).
  destruct (step_effect lb o) as ((M1 & _) & _ & _ & Hcur & Hle & Hzero).
  unfold cursor_inv. rewrite M1.
  destruct Hcur as [Hkept | Hfresh].
  - rewrite Hkept. split_and!; auto.
    destruct Hsize as [Hz | Hl]; [now apply Hzero | right; now apply Hle].
  - split_and!; [lia | right; lia |].
    destruct Hsize as [Hz | Hl]; [lia | right; now apply Hle].
Qed.

Lemma run_effect (ops : list op) :
  forall lb : t,
    same_settings lb (run ops lb)
    /\ (pool_ok lb -> pool_ok (run ops lb))
    /\ (pool_bounds lb -> pool_bounds (run ops lb))
    /\ (cursor_inv lb -> cursor_inv (run ops lb)).
Proof.
  induction ops as [|o ops IH]; intros lb.
  - simpl. split_and!; auto using same_settings_refl.
  - change (run (o :: ops) lb) with (run ops (step lb o)).
    destruct (IH (step lb o)) as (S & P & B & C).
    destruct (step_effect lb o) as (S' & P' & B' & _).
    split_and!; auto.
    + eapply same_settings_trans; eauto.
    + intros H. apply C. now apply step_cursor_inv.
Qed.

Lemma addServers_spec (n : nat) :
  forall lb : t,
    same_settings lb (addServers n lb)
    /\ nextServerIndex (addServers n lb) = nextServerIndex lb
    /\ (pool_ok lb -> pool_ok (addServers n lb))
    /\ size (addServers n lb)
       = Z.max (size lb) (Z.min (size lb + Z.of_nat n) (maxServers lb)).
Proof.
  induction n as [|n IH]; intros lb.
  - simpl. split_and!; auto using same_settings_refl. lia.
  - cbn [addServers].
    destruct (IH (snd (addServer lb))) as (S & C & P & Z).
    destruct (addServer_spec lb) as (S' & C' & _ & _ & Z' & P'). cbn zeta in *.
    split_and!.
    + eapply same_settings_trans; eauto.
    + congruence.
    + auto.
    + rewrite Z, Z'. destruct S' as (M1 & _). rewrite M1.
      destruct (Z.ltb_spec (size lb) (maxServers lb)); lia.
Qed.

Lemma make_spec (initialServers maxServerCount minServerCount : Z) (threshold : Q) :
  let lb := make initialServers maxServerCount minServerCount threshold in
  maxServers lb = maxServerCount
  /\ minServers lb = minServerCount
  /\ loadThreshold lb = threshold
  /\ totalProcessingTime lb = 0
  /\ nextServerIndex lb = 0
  /\ pool_ok lb
  /\ size lb = Z.max 0 (Z.min (Z.max 0 initialServers) maxServerCount).
Proof.
  unfold make.
  destruct (addServers_spec (Z.to_nat initialServers)
              (mk [] RequestQueue.default 0 0 0 maxServerCount minServerCount threshold))
    as ((M1 & M2 & M3 & M4) & C & P & Z).
  cbn zeta. split_and!; auto.
  - apply P. constructor.
  - rewrite Z. unfold size at 1 2. simpl. lia.
Qed.

Lemma reachable_inv (lb : t) :
  reachable lb ->
  pool_ok lb /\ cursor_inv lb /\ totalProcessingTime lb = 0.
Proof.
  induction 1 as [| i mx mn thr | lb o Hr (P & C & T)].
  - split_and!; [| | reflexivity].
    + unfold default, addServer. simpl. repeat constructor; simpl; lia.
    + unfold cursor_inv, size. simpl. split_and!; [lia | now left | right; lia].
  - destruct (make_spec i mx mn thr) as (M1 & M2 & M3 & M4 & M5 & M6 & M7).
    cbn zeta in *. split_and!; auto.
    unfold cursor_inv. rewrite M1, M5, M7. split_and!; [lia | now left | lia].
  - destruct (step_effect lb o) as ((_ & _ & _ & M4) & P' & _).
    split_and!; [now apply P' | now apply step_cursor_inv | congruence].
Qed.

End Reachability.

Lemma run_reachable (ops : list LoadBalancer.op) :
  forall lb : LoadBalancer.t,
    LoadBalancer.reachable lb -> LoadBalancer.reachable (LoadBalancer.run ops lb).
Proof.
  induction ops as [|o ops IH]; intros lb Hr; [exact Hr|].
  apply (IH (LoadBalancer.step lb o)). now constructor.
Qed.

(** ** Claims about the dispatcher *)

(** C5. Pool bounds.  A balancer is built with
    minimum <= initial count <= maximum, the maximum being a count (not
    negative).  After any sequence of public operations, among them
    [processCycle] and [addRequest], the number of workers lies between
    the minimum and the maximum.  Every prefix of a sequence is a sequence,
    so the bound holds at every point. *)
Theorem pool_size_within_bounds
        (initialServers maxServerCount minServerCount : Z) (threshold : Q)
        (ops : list LoadBalancer.op) :
  minServerCount <= initialServers <= maxServerCount ->
  0 <= maxServerCount ->
  let lb := LoadBalancer.run ops
              (LoadBalancer.make initialServers maxServerCount minServerCount
                                 threshold) in
  minServerCount <= LoadBalancer.size lb <= maxServerCount.
Proof.
  intros Hinit Hmax lb.
  destruct (make_spec initialServers maxServerCount minServerCount threshold)
    as (M1 & M2 & _ & _ & _ & _ & Msize). cbn zeta in *.
  destruct (run_effect ops
              (LoadBalancer.make initialServers maxServerCount minServerCount threshold))
    as ((S1 & S2 & _) & _ & Hb & _).
  fold lb in S1, S2, Hb.
  unfold pool_bounds in Hb. rewrite S1, S2, M1, M2, Msize in Hb.
  apply Hb. lia.
Qed.

(** The theorem at the configuration of the driver for five servers
    (5, 10, 1, 0.8), after a submission and two cycles. *)
Lemma pool_size_within_bounds_witness :
  let ops := [LoadBalancer.AddRequest (Request.mk "10.0.0.7" "GET" 5 3 1);
              LoadBalancer.ProcessCycle; LoadBalancer.ProcessCycle] in
  1 <= LoadBalancer.size (LoadBalancer.run ops (LoadBalancer.make 5 10 1 (8 # 10)))
    <= 10.
Proof.
  intros ops.
  apply (pool_size_within_bounds 5 10 1 (8 # 10) ops); lia.
Defined.

(** C9, counterexample.  Six workers, minimum 1, maximum 20, threshold
    0.8.  Four items of duration 1 are submitted and a cycle places them on
    workers 0 to 3, leaving the cursor at 4.  A fifth item is submitted; the
    next cycle completes the four, places the fifth on worker 4, which sets
    the cursor to 5, and then shrinks the pool to five workers: the mean
    utilization is 1/30 < 0.04, the queue is empty and 6 > 1 + 3.  The
    cursor is 5 in a pool of 5. *)
Lemma cursor_past_pool_after_shrink :
  LoadBalancer.reachable shrink_scenario
  /\ LoadBalancer.servers shrink_scenario <> []
  /\ LoadBalancer.size shrink_scenario = 5
  /\ LoadBalancer.nextServerIndex shrink_scenario = 5
  /\ ~ (0 <= LoadBalancer.nextServerIndex shrink_scenario
            < LoadBalancer.size shrink_scenario).
Proof.
  assert (Hs : LoadBalancer.size shrink_scenario = 5) by (vm_compute; reflexivity).
  assert (Hc : LoadBalancer.nextServerIndex shrink_scenario = 5)
    by (vm_compute; reflexivity).
  split_and!.
  - apply run_reachable. constructor.
  - intros E. revert Hs. unfold LoadBalancer.size.
    generalize dependent (LoadBalancer.servers shrink_scenario).
    intros l -> . discriminate.
  - exact Hs.
  - exact Hc.
  - rewrite Hs, Hc. lia.
Qed.

(** C9, amended.  In every state reached from a constructor the cursor is
    not negative and is either 0 or below the maximum pool size.  It is an
    index of the collection after the construction of a non-empty pool, and
    every public operation that does not shrink the pool keeps it one. *)
Theorem cursor_invariant (lb : LoadBalancer.t) :
  LoadBalancer.reachable lb ->
  0 <= LoadBalancer.nextServerIndex lb
  /\ (LoadBalancer.nextServerIndex lb = 0
      \/ LoadBalancer.nextServerIndex lb < LoadBalancer.maxServers lb)
  /\ (forall o : LoadBalancer.op,
        cursor_valid lb ->
        LoadBalancer.size lb <= LoadBalancer.size (LoadBalancer.step lb o) ->
        cursor_valid (LoadBalancer.step lb o))
  /\ (forall (initialServers maxServerCount minServerCount : Z) (threshold : Q),
        let lb0 := LoadBalancer.make initialServers maxServerCount
                                     minServerCount threshold in
        LoadBalancer.servers lb0 <> [] -> cursor_valid lb0)
  /\ cursor_valid LoadBalancer.default.
Proof.
  intros Hr. destruct (reachable_inv lb Hr) as (_ & (H0 & Hmax & _) & _).
  split_and!; [exact H0 | exact Hmax | | |].
  - intros o [Hlo Hhi] Hgrow.
    destruct (step_effect lb o) as (_ & _ & _ & Hcur & _).
    unfold cursor_valid. destruct Hcur as [Hkept | Hfresh]; [rewrite Hkept|]; lia.
  - intros i mx mn thr lb0 Hne.
    destruct (make_spec i mx mn thr) as (_ & _ & _ & _ & Hc & _). cbn zeta in Hc.
    fold lb0 in Hc. unfold cursor_valid. rewrite Hc.
    unfold LoadBalancer.size. destruct (LoadBalancer.servers lb0); [contradiction|].
    simpl. lia.
  - unfold cursor_valid. vm_compute. split; [discriminate | reflexivity].
Qed.

(** The amended statement at the default balancer. *)
Lemma cursor_invariant_witness :
  0 <= LoadBalancer.nextServerIndex LoadBalancer.default
  /\ cursor_valid LoadBalancer.default.
Proof.
  destruct (cursor_invariant LoadBalancer.default LoadBalancer.reachable_default)
    as (H0 & _ & _ & _ & Hv).
  split; assumption.
Defined.

(** C10. The processing-time counter of the balancer is 0 in every
    reachable state, no operation writing it, and
    [LoadBalancer::getAverageProcessingTime] returns 0, whether or not
    requests have completed. *)
Theorem average_processing_time_zero (lb : LoadBalancer.t) :
  LoadBalancer.reachable lb ->
  LoadBalancer.totalProcessingTime lb = 0
  /\ (LoadBalancer.getAverageProcessingTime lb == 0)%Q.
Proof.
  intros Hr. destruct (reachable_inv lb Hr) as (_ & _ & Ht).
  split; [exact Ht|].
  unfold LoadBalancer.getAverageProcessingTime. rewrite Ht.
  destruct (LoadBalancer.totalRequestsProcessed lb =? 0); [reflexivity|].
  unfold Qdiv. apply Qmult_0_l.
Qed.

(** The theorem at a state in which one request has completed. *)
Lemma average_processing_time_zero_witness :
  let ops := [LoadBalancer.AddRequest (Request.mk "10.0.0.7" "GET" 5 2 1);
              LoadBalancer.ProcessCycle; LoadBalancer.ProcessCycle;
              LoadBalancer.ProcessCycle] in
  let lb := LoadBalancer.run ops LoadBalancer.default in
  LoadBalancer.totalRequestsProcessed lb = 1
  /\ (LoadBalancer.getAverageProcessingTime lb == 0)%Q.
Proof.
  intros ops lb. split; [vm_compute; reflexivity|].
  apply (average_processing_time_zero lb).
  apply run_reachable. exact LoadBalancer.reachable_default.
Defined.

(** C2. The scaling step.  [checkLoadBalancing] is called on a non-empty
    pool whose workers satisfy the worker invariant (which holds in every
    reachable state and between the steps of a cycle).  A server is added,
    at the end of the collection, exactly when
    (mean utilization > threshold or queue size > 10) and
    pool size < maximum; the last server is removed exactly when
    mean utilization < threshold * 0.05 and queue size = 0 and
    pool size > minimum + 3; otherwise the state is left as it is.  The
    mean utilization is that of the active servers, as a fraction; it, the
    product threshold * 0.05 and the two comparisons are those the machine
    computes in [double] arithmetic. *)
Theorem scaling_step_spec (lb : LoadBalancer.t) :
  LoadBalancer.servers lb <> [] ->
  pool_ok lb ->
  let lb' := LoadBalancer.checkLoadBalancing lb in
  let added :=
    WebServer.make (LoadBalancer.size lb + 1)
      (String.append "192.168.1." (to_string (LoadBalancer.size lb + 1))) 5 in
  (LoadBalancer.size lb' = LoadBalancer.size lb + 1 <-> scale_up_condition lb)
  /\ (LoadBalancer.size lb' = LoadBalancer.size lb - 1 <-> scale_down_condition lb)
  /\ (scale_up_condition lb ->
      LoadBalancer.servers lb' = LoadBalancer.servers lb ++ [added])
  /\ (scale_down_condition lb ->
      LoadBalancer.servers lb' = removelast (LoadBalancer.servers lb))
  /\ (~ scale_up_condition lb -> ~ scale_down_condition lb -> lb' = lb)
  /\ LoadBalancer.requestQueue lb' = LoadBalancer.requestQueue lb
  /\ LoadBalancer.nextServerIndex lb' = LoadBalancer.nextServerIndex lb
  /\ LoadBalancer.avgUtilization lb
     = Binary64.div (mean_active_utilization_double lb) Binary64.hundred.
Proof.
  intros Hne Hok lb' added.
  destruct (checkLoadBalancing_frame lb) as (_ & Hcur & Hq & _).
  fold lb' in Hcur, Hq.
  assert (Hmean : LoadBalancer.avgUtilization lb
                  = Binary64.div (mean_active_utilization_double lb) Binary64.hundred)
    by (unfold LoadBalancer.avgUtilization;
        now rewrite getSystemUtilization_double_mean).
  assert (Hadd : scale_up_condition lb ->
                 LoadBalancer.servers (snd (LoadBalancer.addServer lb))
                 = LoadBalancer.servers lb ++ [added]).
  { intros [_ Hlt]. unfold LoadBalancer.addServer.
    destruct (Z.leb_spec (LoadBalancer.maxServers lb) (LoadBalancer.size lb));
      [lia | reflexivity]. }
  assert (Hrem : scale_down_condition lb ->
                 LoadBalancer.servers (snd (LoadBalancer.removeServer lb))
                 = removelast (LoadBalancer.servers lb)).
  { intros (_ & _ & Hgt). unfold LoadBalancer.removeServer.
    destruct (Z.leb_spec (LoadBalancer.size lb) (LoadBalancer.minServers lb));
      [lia | reflexivity]. }
  destruct (checkLoadBalancing_cases lb Hne Hok)
    as [(Hup & Hnd & Heq & Hsz) | [(Hdown & Hnu & Heq & Hsz) | (Hnu & Hnd & Heq)]];
    fold lb' in Heq; try fold lb' in Hsz.
  - split_and!; auto; try contradiction.
    + tauto.
    + split; [lia | contradiction].
    + intros _. rewrite Heq. now apply Hadd.
  - split_and!; auto; try contradiction.
    + split; [lia | contradiction].
    + tauto.
    + intros _. rewrite Heq. now apply Hrem.
  - split_and!; auto; try contradiction.
    + split; [rewrite Heq; lia | contradiction].
    + split; [rewrite Heq; lia | contradiction].
Qed.

(** The theorem at two pools.  Two idle workers and a queue of eleven
    items: the queue is longer than 10 and the pool is below its maximum,
    so a third worker is added.  Five workers, one item in flight and
    threshold 0.8: the mean utilization, 4 percent, is below the rounded
    product 0.8 * 0.05, so the last worker is removed. *)
Lemma scaling_step_spec_witness :
  (LoadBalancer.servers backlog_scenario <> []
   /\ pool_ok backlog_scenario
   /\ LoadBalancer.getQueueSize backlog_scenario = 11
   /\ LoadBalancer.size (LoadBalancer.checkLoadBalancing backlog_scenario)
      = LoadBalancer.size backlog_scenario + 1)
  /\ (LoadBalancer.servers boundary_scenario <> []
      /\ pool_ok boundary_scenario
      /\ LoadBalancer.size boundary_scenario = 5
      /\ LoadBalancer.size (LoadBalancer.checkLoadBalancing boundary_scenario)
         = LoadBalancer.size boundary_scenario - 1).
Proof.
  split.
  - assert (Hne : LoadBalancer.servers backlog_scenario <> [])
      by (vm_compute; discriminate).
    assert (Hok : pool_ok backlog_scenario).
    { apply reachable_inv. apply run_reachable. constructor. }
    assert (Hq : LoadBalancer.getQueueSize backlog_scenario = 11)
      by (vm_compute; reflexivity).
    assert (Hsz : LoadBalancer.size backlog_scenario = 2) by (vm_compute; reflexivity).
    assert (Hmx : LoadBalancer.maxServers backlog_scenario = 4)
      by (vm_compute; reflexivity).
    split_and!; [exact Hne | exact Hok | exact Hq |].
    apply (scaling_step_spec backlog_scenario Hne Hok).
    split; [right; rewrite Hq; lia | rewrite Hsz, Hmx; lia].
  - assert (Hne : LoadBalancer.servers boundary_scenario <> [])
      by (vm_compute; discriminate).
    assert (Hok : pool_ok boundary_scenario).
    { apply reachable_inv. apply run_reachable. constructor. }
    assert (Hsz : LoadBalancer.size boundary_scenario = 5) by (vm_compute; reflexivity).
    split_and!; [exact Hne | exact Hok | exact Hsz |].
    apply (scaling_step_spec boundary_scenario Hne Hok).
    split_and!; vm_compute; reflexivity.
Defined.

(** The scaling step at the edge of the scale-down condition.  In both
    pools the mean utilization of the workers, as a fraction, equals the
    threshold times 5/100 in exact arithmetic: 1 item on 5 workers at
    threshold 0.8, and 3 items on 16 workers at threshold 0.75.  The
    machine compares [double]s: the quotient by [100.0] and the product by
    [0.05] are rounded, the first ends below the second, and the last
    worker is removed. *)
Example scale_down_at_the_edge :
  (mean_active_utilization boundary_scenario / 100
   == LoadBalancer.loadThreshold boundary_scenario * (5 # 100))%Q
  /\ LoadBalancer.size (LoadBalancer.checkLoadBalancing boundary_scenario)
     = LoadBalancer.size boundary_scenario - 1
  /\ (mean_active_utilization boundary_scenario_exact / 100
      == LoadBalancer.loadThreshold boundary_scenario_exact * (5 # 100))%Q
  /\ LoadBalancer.size (LoadBalancer.checkLoadBalancing boundary_scenario_exact)
     = LoadBalancer.size boundary_scenario_exact - 1.
Proof. split_and!; vm_compute; reflexivity. Qed.

(** C6. One pool-size change per cycle.  In a call of
    [LoadBalancer::processCycle] made in a state whose workers satisfy the
    worker invariant, the size of the collection changes by at most one.
    Both guards are evaluated, in the state [mid] that distribution leaves,
    and they cannot both hold: whatever the threshold, the mean utilization
    is not at once above it (or the queue longer than 10) and below a
    twentieth of it with an empty queue. *)
Theorem one_pool_change_per_cycle (lb : LoadBalancer.t) :
  pool_ok lb ->
  let mid :=
    LoadBalancer.distributeRequests
      (LoadBalancer.setServers lb
         (snd (LoadBalancer.processServers (LoadBalancer.servers lb) 0))) in
  let lb' := snd (LoadBalancer.processCycle lb) in
  let avg := LoadBalancer.avgUtilization mid in
  let queueSize := LoadBalancer.getQueueSize mid in
  LoadBalancer.size lb - 1 <= LoadBalancer.size lb' <= LoadBalancer.size lb + 1
  /\ LoadBalancer.servers lb' = LoadBalancer.servers (LoadBalancer.checkLoadBalancing mid)
  /\ ~ (((LoadBalancer.loadThreshold mid < avg)%Q \/ 10 < queueSize)
        /\ ((avg < LoadBalancer.loadThreshold mid * (5 # 100))%Q /\ queueSize = 0))
  /\ (forall lb1 : LoadBalancer.t,
        LoadBalancer.loadThreshold lb1 = LoadBalancer.loadThreshold mid ->
        ~ (LoadBalancer.scaleUpGuard avg queueSize mid = true
           /\ LoadBalancer.scaleDownGuard avg queueSize lb1 = true)).
Proof.
  intros Hok mid lb' avg queueSize.
  destruct (processServers_spec (LoadBalancer.servers lb) 0) as [Hlen Hpok].
  set (lb1 := LoadBalancer.setServers lb
                (snd (LoadBalancer.processServers (LoadBalancer.servers lb) 0))) in *.
  destruct (distributeRequests_spec lb1) as (Dlen & _ & _ & Dok & _).
  fold mid in Dlen, Dok.
  assert (Hmid : pool_ok mid) by (apply Dok, Hpok, Hok).
  assert (Hsize : LoadBalancer.size mid = LoadBalancer.size lb).
  { unfold LoadBalancer.size. rewrite Dlen. unfold lb1. simpl. now rewrite Hlen. }
  assert (Havg : (0 <= avg)%Q) by now apply avgUtilization_nonneg.
  assert (Hservers : LoadBalancer.servers lb'
                     = LoadBalancer.servers (LoadBalancer.checkLoadBalancing mid)).
  { unfold lb'. rewrite processCycle_unfold. reflexivity. }
  assert (Hsz' : LoadBalancer.size lb'
                 = LoadBalancer.size (LoadBalancer.checkLoadBalancing mid)).
  { unfold LoadBalancer.size. now rewrite Hservers. }
  split_and!.
  - rewrite Hsz', <- Hsize.
    destruct (LoadBalancer.servers mid) as [|w l] eqn:E.
    + unfold LoadBalancer.checkLoadBalancing. rewrite E. lia.
    + assert (Hne : LoadBalancer.servers mid <> []) by (rewrite E; discriminate).
      destruct (checkLoadBalancing_cases mid Hne Hmid)
        as [(_ & _ & _ & Hs) | [(_ & _ & _ & Hs) | (_ & _ & Heq)]];
        [lia | lia | rewrite Heq; lia].
  - rewrite Hsz', <- Hsize.
    destruct (LoadBalancer.servers mid) as [|w l] eqn:E.
    + unfold LoadBalancer.checkLoadBalancing. rewrite E. lia.
    + assert (Hne : LoadBalancer.servers mid <> []) by (rewrite E; discriminate).
      destruct (checkLoadBalancing_cases mid Hne Hmid)
        as [(_ & _ & _ & Hs) | [(_ & _ & _ & Hs) | (_ & _ & Heq)]];
        [lia | lia | rewrite Heq; lia].
  - exact Hservers.
  - intros [[Hup | Hq] [Hdown Hq0]]; [|lia].
    exact (thresholds_exclusive _ _ Havg Hup Hdown).
  - intros lb2 Hthr [Hup Hdown].
    exact (guards_exclusive avg queueSize mid lb2 Havg Hthr Hup Hdown).
Qed.

(** The theorem at the two-worker pool with a backlog of eleven: the cycle
    places four items (the attempts of one distribution are bounded by
    twice the pool size), seven stay queued, and the pool keeps its two
    workers. *)
Lemma one_pool_change_per_cycle_witness :
  pool_ok backlog_scenario
  /\ LoadBalancer.size backlog_scenario - 1
     <= LoadBalancer.size (snd (LoadBalancer.processCycle backlog_scenario))
     <= LoadBalancer.size backlog_scenario + 1.
Proof.
  assert (Hok : pool_ok backlog_scenario).
  { apply reachable_inv. apply run_reachable. constructor. }
  split; [exact Hok|].
  exact (proj1 (one_pool_change_per_cycle backlog_scenario Hok)).
Defined.

(** ** Round-robin distribution *)

Section RoundRobin.

Import LoadBalancer.

Lemma rotation_lt (n : nat) (c : Z) (j : nat) :
  (0 < n)%nat -> (rotation n c j < n)%nat.
Proof.
  intros Hn. unfold rotation.
  pose proof (Z.mod_pos_bound (c + Z.of_nat j) (Z.of_nat n)). lia.
Qed.

Lemma rotation_next (n : nat) (c : Z) (j : nat) :
  (0 < n)%nat ->
  rotation n (((c + 0) mod Z.of_nat n + 1) mod Z.of_nat n) j = rotation n c (S j).
Proof.
  intros Hn. unfold rotation. f_equal.
  rewrite Z.add_0_r, Zplus_mod_idemp_l, <- Z.add_assoc, Zplus_mod_idemp_l.
  f_equal. lia.
Qed.

Lemma rotation_inj (n : nat) (c : Z) (j1 j2 : nat) :
  (j1 < n)%nat -> (j2 < n)%nat ->
  rotation n c j1 = rotation n c j2 -> j1 = j2.
Proof.
  intros H1 H2 Heq. unfold rotation in Heq.
  assert (Hn : 0 < Z.of_nat n) by lia.
  pose proof (Z.mod_pos_bound (c + Z.of_nat j1) _ Hn) as B1.
  pose proof (Z.mod_pos_bound (c + Z.of_nat j2) _ Hn) as B2.
  apply Z2Nat.inj in Heq; [|lia|lia].
  pose proof (Z.div_mod (c + Z.of_nat j1) (Z.of_nat n)) as D1.
  pose proof (Z.div_mod (c + Z.of_nat j2) (Z.of_nat n)) as D2.
  rewrite Heq in D1.
  assert (Hq : (c + Z.of_nat j1) / Z.of_nat n = (c + Z.of_nat j2) / Z.of_nat n) by nia.
  rewrite Hq in D1. lia.
Qed.

Lemma rotation_onto (n : nat) (c : Z) (i : nat) :
  (i < n)%nat ->
  exists j : nat, (j < n)%nat /\ rotation n c j = i.
Proof.
  intros Hi. assert (Hn : 0 < Z.of_nat n) by lia.
  pose proof (Z.mod_pos_bound (Z.of_nat i - c) _ Hn) as B.
  exists (Z.to_nat ((Z.of_nat i - c) mod Z.of_nat n)). split; [lia|].
  unfold rotation. rewrite Z2Nat.id by lia.
  rewrite Zplus_mod_idemp_r.
  replace (c + (Z.of_nat i - c)) with (Z.of_nat i) by lia.
  rewrite Z.mod_small by lia. lia.
Qed.

(** The scan of an attempt stops at once when the worker under the cursor
    can take an item: it receives the head of the queue and the cursor
    moves to the next position. *)
Lemma scan_accepts_at_cursor (steps : nat) (lb : t) (w : WebServer.t)
      (item : Request.t) (rest : list Request.t) :
  servers lb !! rotation (length (servers lb)) (nextServerIndex lb) 0 = Some w ->
  WebServer.canAcceptRequest w = true ->
  RequestQueue.requestQueue (requestQueue lb) = item :: rest ->
  scan (S steps) 0 (nextServerIndex lb) lb =
  (true,
   mk (<[rotation (length (servers lb)) (nextServerIndex lb) 0 := WebServer.push w item]>
        (servers lb))
      (RequestQueue.mk rest (RequestQueue.maxSize (requestQueue lb))
                       (RequestQueue.totalRequestsAdded (requestQueue lb))
                       (RequestQueue.totalRequestsRemoved (requestQueue lb) + 1)
                       (RequestQueue.blockedIPs (requestQueue lb)))
      (((nextServerIndex lb + 0) mod size lb + 1) mod size lb)
      (totalRequestsProcessed lb) (totalProcessingTime lb)
      (maxServers lb) (minServers lb) (loadThreshold lb)).
Proof.
  intros Hlook Hcan Hq. cbn [scan].
  unfold rotation in Hlook. change (Z.of_nat 0) with 0 in Hlook.
  fold (size lb) in Hlook. rewrite Hlook, Hcan.
  unfold RequestQueue.getNextRequest. rewrite Hq.
  rewrite (canAccept_addRequest w item Hcan). reflexivity.
Qed.

(** A pass over a queue of [items] when the next [length items] workers in
    the rotation can each take an item: the queue is emptied, the [j]-th
    item goes to the [j]-th worker of the rotation, and the other workers
    are not touched. *)
Lemma distributeLoop_places (items : list Request.t) :
  forall (budget : nat) (lb : t),
    RequestQueue.requestQueue (requestQueue lb) = items ->
    (length items <= budget)%nat ->
    (length items <= length (servers lb))%nat ->
    (forall j : nat, (j < length items)%nat ->
       exists w : WebServer.t,
         servers lb !! rotation (length (servers lb)) (nextServerIndex lb) j = Some w
         /\ WebServer.canAcceptRequest w = true) ->
    let n := length (servers lb) in
    let c := nextServerIndex lb in
    let lb' := distributeLoop budget lb in
    RequestQueue.requestQueue (requestQueue lb') = []
    /\ length (servers lb') = n
    /\ (forall j : nat, (j < length items)%nat ->
          exists (w : WebServer.t) (item : Request.t),
            servers lb !! rotation n c j = Some w
            /\ items !! j = Some item
            /\ servers lb' !! rotation n c j = Some (WebServer.push w item))
    /\ (forall i : nat,
          (forall j : nat, (j < length items)%nat -> i <> rotation n c j) ->
          servers lb' !! i = servers lb !! i).
Proof.
  induction items as [|item rest IH]; intros budget lb Hq Hbudget Hlen Hfree n c lb'.
  - assert (Hlb : lb' = lb).
    { unfold lb'. destruct budget; [reflexivity|]. cbn [distributeLoop].
      unfold RequestQueue.isEmpty. now rewrite Hq. }
    rewrite Hlb. split_and!; auto. intros j Hj. simpl in Hj. lia.
  - simpl length in *.
    destruct budget as [|budget]; [lia|].
    assert (Hn : (0 < n)%nat) by (unfold n; lia).
    destruct (Hfree 0%nat) as (w0 & Hw0 & Hcan0); [lia|].
    fold n c in Hw0.
    set (i0 := rotation n c 0) in *.
    assert (Hi0 : (i0 < n)%nat) by now apply rotation_lt.
    pose proof (scan_accepts_at_cursor (Nat.pred n) lb w0 item rest Hw0 Hcan0 Hq) as Hscan.
    replace (S (Nat.pred n)) with n in Hscan by lia.
    fold n c i0 in Hscan.
    match type of Hscan with _ = (true, ?s) => set (lb1 := s) in * end.
    assert (Hstep : lb' = distributeLoop budget lb1).
    { unfold lb'. cbn [distributeLoop].
      unfold RequestQueue.isEmpty. rewrite Hq. fold n c. now rewrite Hscan. }
    rewrite Hstep. clear Hscan.
    assert (Hn1 : length (servers lb1) = n) by (unfold lb1; simpl; apply length_insert).
    assert (Hc1 : nextServerIndex lb1 = ((c + 0) mod Z.of_nat n + 1) mod Z.of_nat n)
      by reflexivity.
    assert (Hother : forall j : nat, (j < length rest)%nat ->
              servers lb1 !! rotation n (nextServerIndex lb1) j
              = servers lb !! rotation n c (S j)).
    { intros j Hj. rewrite Hc1, rotation_next by exact Hn.
      unfold lb1. simpl. apply list_lookup_insert_ne.
      unfold i0. intros Heq. apply rotation_inj in Heq; lia. }
    specialize (IH budget lb1).
    rewrite Hn1 in IH. cbn zeta in IH.
    destruct IH as (Iq & Ilen & Iplaced & Irest).
    + reflexivity.
    + lia.
    + lia.
    + intros j Hj. rewrite Hother by exact Hj.
      apply Hfree. lia.
    + split_and!.
      * exact Iq.
      * exact Ilen.
      * intros [|j] Hj.
        -- exists w0, item. split_and!; [exact Hw0 | reflexivity |].
           rewrite Irest.
           ++ unfold lb1. simpl. apply list_lookup_insert_eq. fold n. exact Hi0.
           ++ intros j Hj'. rewrite Hc1, rotation_next by exact Hn.
              unfold i0. intros Heq. apply rotation_inj in Heq; lia.
        -- destruct (Iplaced j) as (w & it & Hw & Hit & Hplaced); [lia|].
           rewrite Hother in Hw by lia.
           rewrite Hc1, rotation_next in Hplaced by exact Hn.
           exists w, it. split_and!; [exact Hw | exact Hit | exact Hplaced].
      * intros i Hi. rewrite Irest.
        -- unfold lb1. simpl. apply list_lookup_insert_ne.
           intros Heq. apply (Hi 0%nat); [lia|]. now symmetry.
        -- intros j Hj. rewrite Hc1, rotation_next by exact Hn.
           apply Hi. lia.
Qed.

Lemma idle_worker_canAccept (w : WebServer.t) :
  idle_worker w -> WebServer.canAcceptRequest w = true.
Proof.
  intros (Hact & Hload & Hcap). unfold WebServer.canAcceptRequest.
  rewrite Hact, Hload. simpl. apply Z.ltb_lt. lia.
Qed.

End RoundRobin.

(** C4. Round-robin fairness.  The pool has [n >= 1] workers, each active,
    with zero load and a capacity of at least 1, and the queue holds exactly
    [n] items.  After one call of [distributeRequests] the queue is empty
    and every worker holds exactly one item: its load is 1 and its FIFO has
    gained one item of the queue.  This holds whatever the cursor is, in
    particular when it points past the end of the pool.  When the cursor is
    not negative, as in every reachable state, the [j]-th item of the queue
    is on the worker at position [(cursor + j) mod n]. *)
Theorem round_robin_fairness (lb : LoadBalancer.t) :
  let n := length (LoadBalancer.servers lb) in
  let items := RequestQueue.requestQueue (LoadBalancer.requestQueue lb) in
  (1 <= n)%nat ->
  Forall idle_worker (LoadBalancer.servers lb) ->
  length items = n ->
  let lb' := LoadBalancer.distributeRequests lb in
  RequestQueue.requestQueue (LoadBalancer.requestQueue lb') = []
  /\ LoadBalancer.getQueueSize lb' = 0
  /\ length (LoadBalancer.servers lb') = n
  /\ Forall (fun w' => WebServer.currentLoad w' = 1) (LoadBalancer.servers lb')
  /\ (forall (i : nat) (w' : WebServer.t),
        LoadBalancer.servers lb' !! i = Some w' ->
        exists (w : WebServer.t) (item : Request.t),
          LoadBalancer.servers lb !! i = Some w
          /\ In item items
          /\ w' = WebServer.push w item
          /\ WebServer.requestQueue w' = WebServer.requestQueue w ++ [item])
  /\ (0 <= LoadBalancer.nextServerIndex lb ->
      forall j : nat, (j < n)%nat ->
        exists (w : WebServer.t) (item : Request.t),
          LoadBalancer.servers lb
            !! rotation n (LoadBalancer.nextServerIndex lb) j = Some w
          /\ items !! j = Some item
          /\ LoadBalancer.servers lb'
               !! rotation n (LoadBalancer.nextServerIndex lb) j
             = Some (WebServer.push w item)).
Proof.
  intros n items Hn Hidle Hlen lb'.
  assert (Hloop : lb' = LoadBalancer.distributeLoop (n * 2) lb).
  { unfold lb', LoadBalancer.distributeRequests, RequestQueue.isEmpty.
    fold items. destruct items; [simpl in Hlen; lia | reflexivity]. }
  destruct (distributeLoop_places items (n * 2) lb) as (Hq & Hsz & Hplaced & _).
  - reflexivity.
  - lia.
  - fold n. lia.
  - intros j Hj. fold n.
    destruct (lookup_lt_is_Some_2 (LoadBalancer.servers lb)
                (rotation n (LoadBalancer.nextServerIndex lb) j)) as [w Hw].
    { fold n. apply rotation_lt. lia. }
    exists w. split; [exact Hw|].
    apply idle_worker_canAccept. eapply Forall_lookup_1; eauto.
  - fold n in Hsz, Hplaced. rewrite <- Hloop in Hq, Hsz, Hplaced.
    assert (Heach : forall (i : nat) (w' : WebServer.t),
              LoadBalancer.servers lb' !! i = Some w' ->
              exists (w : WebServer.t) (item : Request.t),
                LoadBalancer.servers lb !! i = Some w
                /\ In item items
                /\ w' = WebServer.push w item).
    { intros i w' Hw'.
      assert (Hi : (i < n)%nat) by (apply lookup_lt_Some in Hw'; lia).
      destruct (rotation_onto n (LoadBalancer.nextServerIndex lb) i Hi) as (j & Hj & Hrot).
      destruct (Hplaced j) as (w & item & Hw & Hitem & Hnew); [lia|].
      rewrite Hrot in Hw, Hnew. exists w, item. split_and!.
      - exact Hw.
      - apply list_elem_of_In. eapply list_elem_of_lookup_2. exact Hitem.
      - congruence. }
    split_and!.
    + exact Hq.
    + unfold LoadBalancer.getQueueSize, RequestQueue.getSize. now rewrite Hq.
    + exact Hsz.
    + apply Forall_lookup. intros i w' Hw'.
      destruct (Heach i w' Hw') as (w & item & Hw & _ & ->).
      destruct (Forall_lookup_1 _ _ _ _ Hidle Hw) as (_ & Hload & _).
      simpl. lia.
    + intros i w' Hw'.
      destruct (Heach i w' Hw') as (w & item & Hw & Hin & ->).
      exists w, item. split_and!; auto.
    + intros _ j Hj. apply Hplaced. lia.
Qed.

(** The theorem at three idle workers, three queued items and a cursor
    of 3. *)
Lemma round_robin_fairness_witness :
  Forall idle_worker (LoadBalancer.servers fairness_scenario)
  /\ LoadBalancer.nextServerIndex fairness_scenario = 3
  /\ Forall (fun w' => WebServer.currentLoad w' = 1)
            (LoadBalancer.servers (LoadBalancer.distributeRequests fairness_scenario)).
Proof.
  assert (Hidle : Forall idle_worker (LoadBalancer.servers fairness_scenario))
    by (vm_compute; repeat constructor; discriminate).
  split_and!; [exact Hidle | reflexivity |].
  apply (round_robin_fairness fairness_scenario).
  - vm_compute. repeat constructor.
  - exact Hidle.
  - vm_compute. reflexivity.
Defined.

(** * Further properties of the code *)

(** ** The admission queue: bounds, counters, order *)

Section QueueSequences.

Import RequestQueue.

Lemma queue_step_maxSize (q : t) (o : queue_op) :
  maxSize (queue_step q o) = maxSize q.
Proof.
  destruct o; simpl; try reflexivity.
  - unfold addRequest. destruct (isIPBlocked q _); [reflexivity|].
    now destruct (isFull q).
  - unfold getNextRequest. now destruct (requestQueue q).
  - unfold blockIP. now destruct (isIPBlocked q ip).
Qed.

Lemma queue_step_size (q : t) (o : queue_op) :
  getSize (queue_step q o) <= getSize q
  \/ (getSize (queue_step q o) = getSize q + 1 /\ getSize q < maxSize q).
Proof.
  destruct q as [l m a r b]. unfold getSize. destruct o; simpl.
  - unfold addRequest. destruct (isIPBlocked _ _); [left; simpl; lia|].
    unfold isFull, getSize. simpl.
    destruct (Z.leb_spec m (Z.of_nat (length l))); [left; simpl; lia|].
    right. simpl. rewrite length_app. simpl. lia.
  - left. unfold getNextRequest. simpl. destruct l; simpl; lia.
  - left. lia.
  - left. unfold blockIP. destruct (isIPBlocked _ ip); simpl; lia.
  - left. lia.
Qed.

Lemma queue_step_counters (q : t) (o : queue_op) :
  totalRequestsRemoved q <= totalRequestsRemoved (queue_step q o)
  /\ getSize (queue_step q o) + totalRequestsRemoved (queue_step q o)
       - totalRequestsAdded (queue_step q o)
     <= getSize q + totalRequestsRemoved q - totalRequestsAdded q
  /\ (is_clear o = false ->
      getSize (queue_step q o) + totalRequestsRemoved (queue_step q o)
        - totalRequestsAdded (queue_step q o)
      = getSize q + totalRequestsRemoved q - totalRequestsAdded q).
Proof.
  destruct q as [l m a r b]. unfold getSize. destruct o; simpl.
  - unfold addRequest. destruct (isIPBlocked _ _); [simpl; lia|].
    destruct (isFull _); simpl; [lia|]. rewrite length_app. simpl. lia.
  - unfold getNextRequest. simpl. destruct l; simpl; lia.
  - split_and!; [lia | lia | discriminate].
  - unfold blockIP. destruct (isIPBlocked _ ip); simpl; lia.
  - lia.
Qed.

End QueueSequences.

(** X1. Capacity of the queue.  A queue built with a capacity that is not
    negative never holds more items than its capacity, whatever sequence of
    [addRequest], [getNextRequest], [clear], [blockIP] and [unblockIP] is
    run on it, and the capacity itself is never changed. *)
Theorem queue_size_within_capacity (maxQueueSize : Z) (ops : list queue_op) :
  0 <= maxQueueSize ->
  let q := queue_run ops (RequestQueue.make maxQueueSize) in
  RequestQueue.maxSize q = maxQueueSize
  /\ 0 <= RequestQueue.getSize q <= maxQueueSize.
Proof.
  intros Hcap.
  assert (Hgen : forall (l : list queue_op) (q0 : RequestQueue.t),
            RequestQueue.getSize q0 <= RequestQueue.maxSize q0 ->
            RequestQueue.maxSize (queue_run l q0) = RequestQueue.maxSize q0
            /\ RequestQueue.getSize (queue_run l q0) <= RequestQueue.maxSize q0).
  { induction l as [|o l IH]; intros q0 Hq0; [now split|].
    change (queue_run (o :: l) q0) with (queue_run l (queue_step q0 o)).
    pose proof (queue_step_maxSize q0 o) as Hm.
    destruct (IH (queue_step q0 o)) as [IH1 IH2].
    - rewrite Hm. destruct (queue_step_size q0 o) as [H | [H1 H2]]; lia.
    - split; congruence. }
  cbn zeta. destruct (Hgen ops (RequestQueue.make maxQueueSize)) as [H1 H2].
  - simpl. unfold RequestQueue.getSize. simpl. lia.
  - simpl in *. split; [exact H1|]. split; [|exact H2].
    unfold RequestQueue.getSize. lia.
Qed.

Lemma queue_size_within_capacity_witness :
  let item := Request.mk "10.0.0.7" "GET" 5 3 1 in
  RequestQueue.getSize
    (queue_run [QAddRequest item; QAddRequest item; QAddRequest item;
                QGetNextRequest; QAddRequest item]
               (RequestQueue.make 2)) <= 2.
Proof.
  intros item.
  apply (queue_size_within_capacity 2
           [QAddRequest item; QAddRequest item; QAddRequest item;
            QGetNextRequest; QAddRequest item]).
  lia.
Defined.

(** X2. Counters of the queue.  From either constructor and through any
    sequence of operations, the removed counter never decreases, and
    size + removed <= added.  As long as [clear] is not called the two sides
    are equal: every admitted item is either still queued or was handed out
    by [getNextRequest].  [clear] drops items without counting them. *)
Theorem queue_counters (maxQueueSize : Z) (ops : list queue_op) :
  let q := queue_run ops (RequestQueue.make maxQueueSize) in
  0 <= RequestQueue.totalRequestsRemoved q
  /\ RequestQueue.getSize q + RequestQueue.totalRequestsRemoved q
     <= RequestQueue.totalRequestsAdded q
  /\ (forallb (fun o => negb (is_clear o)) ops = true ->
      RequestQueue.getSize q + RequestQueue.totalRequestsRemoved q
      = RequestQueue.totalRequestsAdded q)
  /\ RequestQueue.totalRequestsAdded (RequestQueue.clear q)
     = RequestQueue.totalRequestsAdded q
  /\ RequestQueue.totalRequestsRemoved (RequestQueue.clear q)
     = RequestQueue.totalRequestsRemoved q
  /\ RequestQueue.getSize (RequestQueue.clear q) = 0.
Proof.
  assert (Hgen : forall (l : list queue_op) (q0 : RequestQueue.t),
            RequestQueue.totalRequestsRemoved q0
              <= RequestQueue.totalRequestsRemoved (queue_run l q0)
            /\ RequestQueue.getSize (queue_run l q0)
                 + RequestQueue.totalRequestsRemoved (queue_run l q0)
                 - RequestQueue.totalRequestsAdded (queue_run l q0)
               <= RequestQueue.getSize q0 + RequestQueue.totalRequestsRemoved q0
                  - RequestQueue.totalRequestsAdded q0
            /\ (forallb (fun o => negb (is_clear o)) l = true ->
                RequestQueue.getSize (queue_run l q0)
                  + RequestQueue.totalRequestsRemoved (queue_run l q0)
                  - RequestQueue.totalRequestsAdded (queue_run l q0)
                = RequestQueue.getSize q0 + RequestQueue.totalRequestsRemoved q0
                  - RequestQueue.totalRequestsAdded q0)).
  { induction l as [|o l IH]; intros q0; [simpl; split_and!; auto; lia|].
    change (queue_run (o :: l) q0) with (queue_run l (queue_step q0 o)).
    destruct (IH (queue_step q0 o)) as (I1 & I2 & I3).
    destruct (queue_step_counters q0 o) as (S1 & S2 & S3).
    split_and!; [lia | lia |].
    intros Hall. simpl in Hall. apply andb_true_iff in Hall as [Ho Hl].
    apply negb_true_iff in Ho. rewrite (I3 Hl). now apply S3. }
  cbn zeta. destruct (Hgen ops (RequestQueue.make maxQueueSize)) as (H1 & H2 & H3).
  unfold RequestQueue.getSize in *. simpl in *.
  split_and!; try reflexivity; try lia.
  intros Hall. specialize (H3 Hall). lia.
Qed.

Section QueueOrder.

Import RequestQueue.

Lemma dequeueMany_spec (n : nat) :
  forall q : t,
    dequeueMany n q =
    (firstn n (requestQueue q)
       ++ repeat Request.default (n - length (requestQueue q)),
     mk (skipn n (requestQueue q)) (maxSize q) (totalRequestsAdded q)
        (totalRequestsRemoved q + Z.of_nat (Nat.min n (length (requestQueue q))))
        (blockedIPs q)).
Proof.
  induction n as [|n IH]; intros [l m a r b].
  - simpl. now rewrite Z.add_0_r.
  - cbn [dequeueMany]. unfold getNextRequest. simpl requestQueue.
    destruct l as [|x l].
    + rewrite IH. simpl. rewrite firstn_nil, skipn_nil, Nat.sub_0_r.
      simpl. f_equal. f_equal. lia.
    + rewrite IH. simpl. f_equal. f_equal. lia.
Qed.

Lemma enqueueMany_spec (items : list Request.t) :
  forall q : t,
    enqueueMany items q =
    let admitted := firstn (room q) (List.filter (admissible q) items) in
    mk (requestQueue q ++ admitted) (maxSize q)
       (totalRequestsAdded q + Z.of_nat (length admitted))
       (totalRequestsRemoved q) (blockedIPs q).
Proof.
  induction items as [|item items IH]; intros q; cbn zeta.
  - destruct q. simpl. rewrite firstn_nil. simpl. now rewrite app_nil_r, Z.add_0_r.
  - cbn [enqueueMany List.filter].
    destruct (isIPBlocked q (Request.getClientIP item)) eqn:Eb.
    { assert (Hs : snd (addRequest q item) = q)
        by (unfold addRequest; now rewrite Eb).
      assert (Ha : admissible q item = false)
        by (unfold admissible; now rewrite Eb).
      rewrite Hs, IH, Ha. reflexivity. }
    assert (Ha : admissible q item = true)
      by (unfold admissible; now rewrite Eb).
    rewrite Ha.
    destruct (isFull q) eqn:Ef.
    + assert (Hs : snd (addRequest q item) = q)
        by (unfold addRequest; now rewrite Eb, Ef).
      assert (Hroom : room q = 0%nat).
      { unfold isFull in Ef. apply Z.leb_le in Ef. unfold room. lia. }
      rewrite Hs, IH. cbn zeta. rewrite Hroom. reflexivity.
    + assert (Hs : snd (addRequest q item)
                   = mk (requestQueue q ++ [item]) (maxSize q)
                        (totalRequestsAdded q + 1) (totalRequestsRemoved q)
                        (blockedIPs q))
        by (unfold addRequest; now rewrite Eb, Ef).
      rewrite Hs, IH. cbn zeta. clear Hs.
      set (q1 := mk (requestQueue q ++ [item]) (maxSize q)
                    (totalRequestsAdded q + 1) (totalRequestsRemoved q)
                    (blockedIPs q)).
      change (admissible q1) with (admissible q).
      assert (Hroom : room q = S (room q1)).
      { unfold isFull in Ef. apply Z.leb_gt in Ef.
        unfold room, q1, getSize in *. simpl. rewrite length_app. simpl. lia. }
      rewrite Hroom. simpl. rewrite <- app_assoc. simpl. f_equal. lia.
Qed.

End QueueOrder.

(** X3. First in, first out.  [n] calls of [getNextRequest] hand out the
    first [n] items of the queue in the order in which they were queued and
    count each in the removed counter.  Calls made on the queue once it is
    empty return the default request (0.0.0.0, GET, priority 5, duration
    10, id 0) and count nothing.  The capacity, the admitted counter and
    the blocklist are not touched. *)
Theorem dequeue_order (q : RequestQueue.t) (n : nat) :
  let items := RequestQueue.requestQueue q in
  let q' := snd (dequeueMany n q) in
  fst (dequeueMany n q)
  = firstn n items ++ repeat Request.default (n - length items)
  /\ RequestQueue.requestQueue q' = skipn n items
  /\ RequestQueue.totalRequestsRemoved q'
     = RequestQueue.totalRequestsRemoved q + Z.of_nat (Nat.min n (length items))
  /\ RequestQueue.totalRequestsAdded q' = RequestQueue.totalRequestsAdded q
  /\ RequestQueue.maxSize q' = RequestQueue.maxSize q
  /\ RequestQueue.blockedIPs q' = RequestQueue.blockedIPs q.
Proof.
  cbn zeta. rewrite dequeueMany_spec. simpl. split_and!; reflexivity.
Qed.

(** X4. Bulk admission.  Submitting a list of items one after the other
    admits, in their order, the items whose origin is not blocked, up to
    the room left in the queue; the others are dropped.  Nothing already
    queued is displaced, and the admitted counter grows by the number of
    items admitted. *)
Theorem enqueue_many (q : RequestQueue.t) (items : list Request.t) :
  let admitted := firstn (room q) (List.filter (admissible q) items) in
  let q' := enqueueMany items q in
  RequestQueue.requestQueue q' = RequestQueue.requestQueue q ++ admitted
  /\ RequestQueue.totalRequestsAdded q'
     = RequestQueue.totalRequestsAdded q + Z.of_nat (length admitted)
  /\ RequestQueue.totalRequestsRemoved q' = RequestQueue.totalRequestsRemoved q
  /\ RequestQueue.maxSize q' = RequestQueue.maxSize q
  /\ RequestQueue.blockedIPs q' = RequestQueue.blockedIPs q.
Proof.
  cbn zeta. rewrite enqueueMany_spec. simpl. split_and!; reflexivity.
Qed.

(** X5. Round trip.  Items from origins that are not blocked, submitted to
    an empty queue with room for all of them, come back from as many calls
    of [getNextRequest] in the order of their submission, and the queue is
    empty again. *)
Theorem enqueue_dequeue_round_trip (q : RequestQueue.t) (items : list Request.t) :
  RequestQueue.requestQueue q = [] ->
  Forall (fun item => admissible q item = true) items ->
  Z.of_nat (length items) <= RequestQueue.maxSize q ->
  fst (dequeueMany (length items) (enqueueMany items q)) = items
  /\ RequestQueue.requestQueue (snd (dequeueMany (length items) (enqueueMany items q)))
     = [].
Proof.
  intros Hempty Hok Hroom.
  assert (Hfilter : List.filter (admissible q) items = items).
  { clear Hroom. induction Hok as [|x l Hx Hl IH]; [reflexivity|].
    simpl. now rewrite Hx, IH. }
  assert (Hadm : firstn (room q) (List.filter (admissible q) items) = items).
  { rewrite Hfilter. apply firstn_all2.
    unfold room, RequestQueue.getSize. rewrite Hempty. simpl. lia. }
  rewrite dequeueMany_spec, enqueueMany_spec. cbn zeta. simpl.
  rewrite Hadm, Hempty. simpl.
  rewrite firstn_all, skipn_all, Nat.sub_diag. simpl.
  now rewrite app_nil_r.
Qed.

Lemma enqueue_dequeue_round_trip_witness :
  let items := [Request.mk "10.0.0.7" "GET" 5 3 1;
                Request.mk "10.0.0.8" "POST" 2 9 2;
                Request.mk "10.0.0.9" "PUT" 7 5 3] in
  fst (dequeueMany 3 (enqueueMany items (RequestQueue.make 3))) = items.
Proof.
  intros items.
  apply (enqueue_dequeue_round_trip (RequestQueue.make 3) items).
  - reflexivity.
  - repeat constructor.
  - simpl. lia.
Defined.

(** ** The blocklist *)

Section Blocklist.

Import RequestQueue.

Lemma existsb_eqb_In (ip : string) (l : list string) :
  existsb (String.eqb ip) l = true <-> In ip l.
Proof.
  rewrite existsb_exists. split.
  - intros (x & Hin & Heq). apply String.eqb_eq in Heq. now subst.
  - intros Hin. exists ip. split; [exact Hin | apply String.eqb_refl].
Qed.

Lemma existsb_eqb_notin (ip : string) (l : list string) :
  existsb (String.eqb ip) l = false <-> ~ In ip l.
Proof.
  rewrite <- existsb_eqb_In. destruct (existsb (String.eqb ip) l); split;
    congruence.
Qed.

Lemma In_eraseFirst_other (ip ip' : string) (l : list string) :
  ip' <> ip -> (In ip' (eraseFirst ip l) <-> In ip' l).
Proof.
  intros Hne. induction l as [|x l IH]; [reflexivity|].
  simpl. destruct (String.eqb_spec ip x) as [->|Hx]; simpl; [|now rewrite IH].
  split; [now right | intros [H|H]; [congruence | exact H]].
Qed.

Lemma In_eraseFirst (ip ip' : string) (l : list string) :
  In ip' (eraseFirst ip l) -> In ip' l.
Proof.
  induction l as [|x l IH]; [trivial|].
  simpl. destruct (String.eqb ip x); simpl; [now right|].
  intros [H|H]; [now left | right; now apply IH].
Qed.

Lemma NoDup_eraseFirst (ip : string) (l : list string) :
  List.NoDup l -> List.NoDup (eraseFirst ip l) /\ ~ In ip (eraseFirst ip l).
Proof.
  induction 1 as [|x l Hx Hl [IH1 IH2]]; [split; [constructor | intros []]|].
  simpl. destruct (String.eqb_spec ip x) as [->|Hne].
  - split; assumption.
  - split.
    + constructor; [|exact IH1]. intros Hin. apply Hx. eapply In_eraseFirst; eauto.
    + intros [H|H]; [congruence | now apply IH2].
Qed.

Lemma eraseFirst_notin (ip : string) (l : list string) :
  ~ In ip l -> eraseFirst ip l = l.
Proof.
  induction l as [|x l IH]; [reflexivity|].
  intros Hn. simpl. destruct (String.eqb_spec ip x) as [->|Hne].
  - exfalso. apply Hn. now left.
  - f_equal. apply IH. intros H. apply Hn. now right.
Qed.

Lemma eraseFirst_app_last (ip : string) (l : list string) :
  ~ In ip l -> eraseFirst ip (l ++ [ip]) = l.
Proof.
  induction l as [|x l IH]; intros Hn.
  - simpl. now rewrite String.eqb_refl.
  - simpl. destruct (String.eqb_spec ip x) as [->|Hne].
    + exfalso. apply Hn. now left.
    + f_equal. apply IH. intros H. apply Hn. now right.
Qed.

Lemma NoDup_snoc (ip : string) (l : list string) :
  List.NoDup l -> ~ In ip l -> List.NoDup (l ++ [ip]).
Proof.
  induction 1 as [|x l Hx Hl IH]; intros Hn; simpl.
  - constructor; [intros [] | constructor].
  - constructor.
    + rewrite in_app_iff. intros [H|[H|[]]]; [contradiction|].
      apply Hn. now left.
    + apply IH. intros H. apply Hn. now right.
Qed.

Lemma queue_step_NoDup (q : t) (o : queue_op) :
  List.NoDup (blockedIPs q) -> List.NoDup (blockedIPs (queue_step q o)).
Proof.
  intros Hnd. destruct o; simpl.
  - unfold addRequest. destruct (isIPBlocked q _); [exact Hnd|].
    now destruct (isFull q).
  - unfold getNextRequest. now destruct (requestQueue q).
  - exact Hnd.
  - unfold blockIP. destruct (isIPBlocked q ip) eqn:E; [exact Hnd|]. simpl.
    apply existsb_eqb_notin in E.
    now apply NoDup_snoc.
  - now apply NoDup_eraseFirst.
Qed.

End Blocklist.

(** X6. The blocklist holds no address twice, in every state a queue
    reaches from a constructor.  Therefore [unblockIP], which erases one
    occurrence, really unblocks: after it the address is not blocked.
    [blockIP] blocks the address.  Neither changes whether any other
    address is blocked, and neither touches the queued items: blocking an
    origin does not evict what it has already queued. *)
Theorem blocklist_sound (maxQueueSize : Z) (ops : list queue_op) (ip : string) :
  let q := queue_run ops (RequestQueue.make maxQueueSize) in
  List.NoDup (RequestQueue.blockedIPs q)
  /\ RequestQueue.isIPBlocked (RequestQueue.unblockIP q ip) ip = false
  /\ RequestQueue.isIPBlocked (RequestQueue.blockIP q ip) ip = true
  /\ (forall ip' : string, ip' <> ip ->
        RequestQueue.isIPBlocked (RequestQueue.unblockIP q ip) ip'
        = RequestQueue.isIPBlocked q ip'
        /\ RequestQueue.isIPBlocked (RequestQueue.blockIP q ip) ip'
           = RequestQueue.isIPBlocked q ip')
  /\ RequestQueue.requestQueue (RequestQueue.blockIP q ip)
     = RequestQueue.requestQueue q
  /\ RequestQueue.requestQueue (RequestQueue.unblockIP q ip)
     = RequestQueue.requestQueue q.
Proof.
  assert (Hnd : forall (l : list queue_op) (q0 : RequestQueue.t),
            List.NoDup (RequestQueue.blockedIPs q0) ->
            List.NoDup (RequestQueue.blockedIPs (queue_run l q0))).
  { induction l as [|o l IH]; intros q0 H0; [exact H0|].
    apply (IH (queue_step q0 o)). now apply queue_step_NoDup. }
  cbn zeta. set (q := queue_run ops (RequestQueue.make maxQueueSize)).
  assert (Hq : List.NoDup (RequestQueue.blockedIPs q))
    by (apply Hnd; constructor).
  split_and!.
  - exact Hq.
  - unfold RequestQueue.isIPBlocked, RequestQueue.unblockIP. simpl.
    apply existsb_eqb_notin. now apply NoDup_eraseFirst.
  - apply isIPBlocked_blockIP.
  - intros ip' Hne. split.
    + unfold RequestQueue.isIPBlocked, RequestQueue.unblockIP. simpl.
      destruct (existsb (String.eqb ip') (RequestQueue.blockedIPs q)) eqn:E.
      * apply existsb_eqb_In. apply In_eraseFirst_other; [exact Hne|].
        now apply existsb_eqb_In.
      * apply existsb_eqb_notin. intros H. apply In_eraseFirst_other in H; [|exact Hne].
        apply existsb_eqb_notin in E. contradiction.
    + unfold RequestQueue.blockIP.
      destruct (RequestQueue.isIPBlocked q ip); [reflexivity|].
      unfold RequestQueue.isIPBlocked. simpl. rewrite existsb_app. simpl.
      destruct (String.eqb_spec ip' ip); [contradiction|].
      now rewrite !orb_false_r.
  - unfold RequestQueue.blockIP. now destruct (RequestQueue.isIPBlocked q ip).
  - reflexivity.
Qed.

(** X7. Blocking and unblocking.  Blocking an address that is already
    blocked changes nothing, and so does unblocking one that is not
    blocked.  Blocking an address that was not blocked and then unblocking
    it gives back the queue exactly as it was. *)
Theorem block_unblock_round_trip (q : RequestQueue.t) (ip : string) :
  RequestQueue.isIPBlocked q ip = false ->
  RequestQueue.unblockIP (RequestQueue.blockIP q ip) ip = q
  /\ RequestQueue.unblockIP q ip = q
  /\ RequestQueue.blockIP (RequestQueue.blockIP q ip) ip = RequestQueue.blockIP q ip.
Proof.
  intros Hfree.
  assert (Hn : ~ In ip (RequestQueue.blockedIPs q)) by now apply existsb_eqb_notin.
  split_and!.
  - unfold RequestQueue.blockIP. rewrite Hfree.
    unfold RequestQueue.unblockIP. simpl. rewrite eraseFirst_app_last by exact Hn.
    now destruct q.
  - unfold RequestQueue.unblockIP. rewrite eraseFirst_notin by exact Hn.
    now destruct q.
  - unfold RequestQueue.blockIP at 1. now rewrite isIPBlocked_blockIP.
Qed.

Lemma block_unblock_round_trip_witness :
  let q := RequestQueue.blockIP (RequestQueue.make 10) "10.0.0.1" in
  RequestQueue.unblockIP (RequestQueue.blockIP q "10.0.0.2") "10.0.0.2" = q.
Proof.
  intros q.
  apply (block_unblock_round_trip q "10.0.0.2"). reflexivity.
Defined.

(** ** One cycle of a worker, and many *)

Section WorkerCycles.

Import WebServer.

Lemma processLoop_spec (pending : list Request.t) :
  forall (completedRequests : Z) (tempQueue : list Request.t) (w : t),
    processLoop pending completedRequests tempQueue w =
    (completedRequests + Z.of_nat (length (finishing pending)),
     mk (serverID w) (serverIP w) (maxCapacity w)
        (currentLoad w - Z.of_nat (length (finishing pending)))
        (tempQueue ++ surviving pending) (isActive w)
        (totalRequestsProcessed w + Z.of_nat (length (finishing pending)))
        (totalProcessingTime w + total_duration (finishing pending))).
Proof.
  induction pending as [|x pending IH]; intros c temp w.
  - simpl. unfold setRequestQueue. rewrite app_nil_r, !Z.add_0_r, Z.sub_0_r.
    reflexivity.
  - cbn [processLoop]. unfold finishing, surviving. cbn [List.filter].
    fold (finishes x). destruct (finishes x); rewrite IH; simpl.
    + unfold finishing, surviving. f_equal; [lia|]. f_equal; lia.
    + unfold finishing, surviving. rewrite <- app_assoc. reflexivity.
Qed.

Lemma finishing_surviving_length (fifo : list Request.t) :
  (length (finishing fifo) + length (surviving fifo) = length fifo)%nat.
Proof.
  unfold finishing, surviving. rewrite length_map.
  induction fifo as [|x fifo IH]; [reflexivity|].
  simpl. destruct (finishes x); simpl; lia.
Qed.

Lemma processCycle_spec (w : t) :
  isActive w = true ->
  processCycle w =
  (Z.of_nat (length (finishing (requestQueue w))),
   mk (serverID w) (serverIP w) (maxCapacity w)
      (currentLoad w - Z.of_nat (length (finishing (requestQueue w))))
      (surviving (requestQueue w)) (isActive w)
      (totalRequestsProcessed w + Z.of_nat (length (finishing (requestQueue w))))
      (totalProcessingTime w + total_duration (finishing (requestQueue w)))).
Proof.
  intros Hact. rewrite (processCycle_active w Hact), processLoop_spec.
  reflexivity.
Qed.

Lemma processCycle_inactive (w : t) :
  isActive w = false -> processCycle w = (0, w).
Proof. intros H. unfold processCycle. now rewrite H. Qed.

Lemma processCycle_within_capacity (w : t) :
  worker_within_capacity w -> worker_within_capacity (snd (processCycle w)).
Proof.
  intros [Hload Hcap]. destruct (isActive w) eqn:Hact.
  - rewrite (processCycle_spec w Hact). unfold worker_within_capacity, getQueueSize in *.
    simpl. pose proof (finishing_surviving_length (requestQueue w)). lia.
  - rewrite (processCycle_inactive w Hact). now split.
Qed.

Lemma addRequest_within_capacity (w : t) (r : Request.t) :
  worker_within_capacity w -> worker_within_capacity (snd (addRequest w r)).
Proof.
  intros [Hload Hcap]. unfold addRequest.
  destruct (negb (isActive w)) eqn:Ha; simpl; [now split|].
  destruct (Z.leb_spec (maxCapacity w) (currentLoad w)); simpl; [now split|].
  unfold worker_within_capacity, getQueueSize in *. simpl.
  rewrite length_app. simpl. lia.
Qed.

Lemma worker_step_within_capacity (w : t) (o : worker_op) :
  worker_within_capacity w ->
  worker_within_capacity (worker_step w o)
  /\ maxCapacity (worker_step w o) = maxCapacity w.
Proof.
  intros H. destruct o; simpl.
  - split; [now apply addRequest_within_capacity|].
    destruct (addRequest_cases w request) as [-> | ->]; reflexivity.
  - split; [now apply processCycle_within_capacity|].
    destruct (isActive w) eqn:Hact;
      [rewrite (processCycle_spec w Hact) | rewrite (processCycle_inactive w Hact)];
      reflexivity.
  - split; [exact H | reflexivity].
Qed.

Lemma getUtilization_bounds (w : t) :
  worker_within_capacity w -> (0 <= getUtilization w <= 100)%Q.
Proof.
  intros [Hload Hcap]. unfold getQueueSize in Hload.
  assert (Hl : 0 <= currentLoad w) by lia.
  unfold getUtilization.
  destruct (Z.eqb_spec (maxCapacity w) 0); [split; discriminate|].
  destruct (maxCapacity w) as [|p|p]; [contradiction| |lia].
  unfold Qle, Qdiv, Qmult, Qinv, inject_Z. simpl. lia.
Qed.

End WorkerCycles.

(** X8. One cycle of an active worker, as a whole.  The call returns the
    number of items of the FIFO that had one cycle or less left.  Those
    items leave the FIFO; the others stay, in their order, each with one
    cycle less.  The load goes down and the completed counter goes up by the
    number returned, and the processing-time counter grows by the durations
    the completed items carried at this call.  Identity, address, capacity
    and activity are not touched. *)
Theorem worker_cycle_effect (w : WebServer.t) :
  WebServer.isActive w = true ->
  let fifo := WebServer.requestQueue w in
  let w' := snd (WebServer.processCycle w) in
  fst (WebServer.processCycle w) = Z.of_nat (length (finishing fifo))
  /\ WebServer.requestQueue w' = surviving fifo
  /\ WebServer.currentLoad w'
     = WebServer.currentLoad w - Z.of_nat (length (finishing fifo))
  /\ WebServer.totalRequestsProcessed w'
     = WebServer.totalRequestsProcessed w + Z.of_nat (length (finishing fifo))
  /\ WebServer.totalProcessingTime w'
     = WebServer.totalProcessingTime w + total_duration (finishing fifo)
  /\ (length (finishing fifo) + length (surviving fifo) = length fifo)%nat
  /\ Forall (fun item => 1 <= Request.getProcessingTime item) (surviving fifo)
  /\ WebServer.serverID w' = WebServer.serverID w
  /\ WebServer.serverIP w' = WebServer.serverIP w
  /\ WebServer.maxCapacity w' = WebServer.maxCapacity w
  /\ WebServer.isActive w' = true.
Proof.
  intros Hact fifo w'. unfold w'. rewrite (processCycle_spec w Hact). simpl.
  split_and!; try reflexivity.
  - apply finishing_surviving_length.
  - unfold surviving. apply Forall_map. apply Forall_forall.
    intros x Hx. apply list_elem_of_In, filter_In in Hx as [_ Hx].
    unfold finishes in Hx.
    apply negb_true_iff, Z.leb_gt in Hx. simpl. lia.
  - exact Hact.
Qed.

Lemma worker_cycle_effect_witness :
  let w := WebServer.mk 1 "192.168.1.1" 5 3
             [Request.mk "10.0.0.7" "GET" 5 1 1;
              Request.mk "10.0.0.8" "GET" 5 4 2;
              Request.mk "10.0.0.9" "GET" 5 2 3] true 0 0 in
  fst (WebServer.processCycle w) = 1
  /\ WebServer.requestQueue (snd (WebServer.processCycle w))
     = [Request.mk "10.0.0.8" "GET" 5 3 2; Request.mk "10.0.0.9" "GET" 5 1 3].
Proof.
  intros w.
  destruct (worker_cycle_effect w eq_refl) as (H1 & H2 & _).
  split; [exact H1 | exact H2].
Defined.

(** X9. Capacity of a worker.  A worker built with a capacity that is not
    negative keeps its load equal to the length of its FIFO and between 0
    and its capacity, whatever sequence of [addRequest], [processCycle] and
    [setIsActive] is run on it; its capacity is never changed and its
    utilization is a percentage between 0 and 100. *)
Theorem worker_load_within_capacity
        (id : Z) (ip : string) (capacity : Z) (ops : list worker_op) :
  0 <= capacity ->
  let w := worker_run ops (WebServer.make id ip capacity) in
  WebServer.currentLoad w = WebServer.getQueueSize w
  /\ 0 <= WebServer.currentLoad w <= capacity
  /\ WebServer.maxCapacity w = capacity
  /\ (0 <= WebServer.getUtilization w <= 100)%Q.
Proof.
  intros Hcap.
  assert (Hgen : forall (l : list worker_op) (w0 : WebServer.t),
            worker_within_capacity w0 ->
            worker_within_capacity (worker_run l w0)
            /\ WebServer.maxCapacity (worker_run l w0) = WebServer.maxCapacity w0).
  { induction l as [|o l IH]; intros w0 H0; [now split|].
    change (worker_run (o :: l) w0) with (worker_run l (worker_step w0 o)).
    destruct (worker_step_within_capacity w0 o H0) as [H1 H2].
    destruct (IH _ H1) as [H3 H4]. split; [exact H3 | congruence]. }
  cbn zeta. destruct (Hgen ops (WebServer.make id ip capacity)) as [Hin Hmax].
  { unfold worker_within_capacity, WebServer.getQueueSize. simpl. lia. }
  simpl in Hmax. pose proof (getUtilization_bounds _ Hin) as Hu.
  destruct Hin as [Hload Hle]. unfold WebServer.getQueueSize in *.
  split_and!; [exact Hload | lia | lia | exact Hmax | apply Hu | apply Hu].
Qed.

Lemma worker_load_within_capacity_witness :
  let item := Request.mk "10.0.0.7" "GET" 5 2 1 in
  let ops := [WAddRequest item; WAddRequest item; WAddRequest item;
              WProcessCycle; WAddRequest item] in
  0 <= WebServer.currentLoad (worker_run ops (WebServer.make 1 "192.168.1.1" 2))
    <= 2.
Proof.
  intros item ops.
  apply (worker_load_within_capacity 1 "192.168.1.1" 2 ops). lia.
Defined.

Section WorkerRuns.

Import WebServer.

Lemma processCycle_conserves (w : t) :
  totalRequestsProcessed (snd (processCycle w))
    + Z.of_nat (length (requestQueue (snd (processCycle w))))
  = totalRequestsProcessed w + Z.of_nat (length (requestQueue w))
  /\ currentLoad (snd (processCycle w))
       - Z.of_nat (length (requestQueue (snd (processCycle w))))
     = currentLoad w - Z.of_nat (length (requestQueue w)).
Proof.
  destruct (isActive w) eqn:Hact.
  - rewrite (processCycle_spec w Hact). simpl.
    pose proof (finishing_surviving_length (requestQueue w)). lia.
  - rewrite (processCycle_inactive w Hact). simpl. lia.
Qed.

Lemma surviving_nil (fifo : list Request.t) :
  Forall (fun item => Request.getProcessingTime item <= 1) fifo ->
  surviving fifo = [].
Proof.
  induction 1 as [|x l Hx Hl IH]; [reflexivity|].
  unfold surviving in *. simpl. destruct (finishes x) eqn:E; [exact IH|].
  unfold finishes in E. apply Z.leb_gt in E. lia.
Qed.

Lemma surviving_shorter (n : Z) (fifo : list Request.t) :
  Forall (fun item => Request.getProcessingTime item <= n + 1) fifo ->
  Forall (fun item => Request.getProcessingTime item <= n) (surviving fifo).
Proof.
  induction 1 as [|x l Hx Hl IH]; [constructor|].
  unfold surviving in *. simpl. destruct (finishes x); simpl; [exact IH|].
  constructor; [simpl; lia | exact IH].
Qed.

Lemma finishing_unit_durations (fifo : list Request.t) :
  Forall (fun item => 1 <= Request.getProcessingTime item) fifo ->
  total_duration (finishing fifo) = Z.of_nat (length (finishing fifo)).
Proof.
  induction 1 as [|x l Hx Hl IH]; [reflexivity|].
  unfold finishing in *. simpl. destruct (finishes x) eqn:E; [|exact IH].
  unfold finishes in E. apply Z.leb_le in E.
  simpl total_duration. simpl length. rewrite IH. lia.
Qed.

Lemma surviving_positive (fifo : list Request.t) :
  Forall (fun item => 1 <= Request.getProcessingTime item) (surviving fifo).
Proof.
  induction fifo as [|x l IH]; [constructor|].
  unfold surviving in *. simpl. destruct (finishes x) eqn:E; simpl; [exact IH|].
  unfold finishes in E. apply Z.leb_gt in E.
  constructor; [simpl; lia | exact IH].
Qed.

End WorkerRuns.

(** X10. Nothing is lost or counted twice by the cycles of a worker.  Over
    any number of calls of [processCycle], the completed counter plus the
    number of items in the FIFO stays what it was, and so does the
    difference between the load and the length of the FIFO. *)
Theorem worker_conservation (w : WebServer.t) (k : nat) :
  WebServer.totalRequestsProcessed (WebServer.cycles k w)
    + WebServer.getQueueSize (WebServer.cycles k w)
  = WebServer.totalRequestsProcessed w + WebServer.getQueueSize w
  /\ WebServer.currentLoad (WebServer.cycles k w)
       - WebServer.getQueueSize (WebServer.cycles k w)
     = WebServer.currentLoad w - WebServer.getQueueSize w.
Proof.
  unfold WebServer.getQueueSize. revert w.
  induction k as [|k IH]; intros w; [split; reflexivity|].
  cbn [WebServer.cycles].
  destruct (IH (snd (WebServer.processCycle w))) as [I1 I2].
  destruct (processCycle_conserves w) as [C1 C2]. lia.
Qed.

(** X11. A worker drains.  An active worker whose items all have [n]
    cycles or less left, [n >= 1], holds nothing after [n] calls of
    [processCycle]: its FIFO is empty, every item it held has been counted
    as completed, and its load is down by their number. *)
Theorem worker_drains (w : WebServer.t) (n : nat) :
  WebServer.isActive w = true ->
  (1 <= n)%nat ->
  Forall (fun item => Request.getProcessingTime item <= Z.of_nat n)
         (WebServer.requestQueue w) ->
  WebServer.requestQueue (WebServer.cycles n w) = []
  /\ WebServer.totalRequestsProcessed (WebServer.cycles n w)
     = WebServer.totalRequestsProcessed w + WebServer.getQueueSize w
  /\ WebServer.currentLoad (WebServer.cycles n w)
     = WebServer.currentLoad w - WebServer.getQueueSize w.
Proof.
  intros Hact Hn Hall.
  assert (Hempty : WebServer.requestQueue (WebServer.cycles n w) = []).
  { destruct n as [|n]; [lia|]. clear Hn. revert w Hact Hall.
    induction n as [|n IH]; intros w Hact Hall.
    - cbn [WebServer.cycles]. rewrite (processCycle_spec w Hact). simpl.
      now apply surviving_nil.
    - change (WebServer.cycles (S (S n)) w)
        with (WebServer.cycles (S n) (snd (WebServer.processCycle w))).
      apply IH.
      + rewrite processCycle_isActive. exact Hact.
      + rewrite (processCycle_spec w Hact). simpl.
        apply surviving_shorter. eapply Forall_impl; [exact Hall|].
        intros x Hx. simpl in Hx. lia. }
  destruct (worker_conservation w n) as [C1 C2].
  unfold WebServer.getQueueSize in *. rewrite Hempty in C1, C2. simpl in C1, C2.
  split_and!; [exact Hempty | lia | lia].
Qed.

Lemma worker_drains_witness :
  let w := WebServer.mk 1 "192.168.1.1" 5 2
             [Request.mk "10.0.0.7" "GET" 5 3 1;
              Request.mk "10.0.0.8" "GET" 5 1 2] true 0 0 in
  WebServer.requestQueue (WebServer.cycles 3 w) = []
  /\ WebServer.totalRequestsProcessed (WebServer.cycles 3 w) = 2.
Proof.
  intros w.
  destruct (worker_drains w 3) as (H1 & H2 & _);
    [reflexivity | lia | repeat constructor; simpl; lia |].
  split; [exact H1 | exact H2].
Defined.

(** X12. An inactive worker is frozen.  It refuses every item, and any
    number of calls of [processCycle] leave it exactly as it is and report
    nothing: the items it holds stay in the FIFO with their remaining
    durations.  Deactivating a worker changes only its activity flag. *)
Theorem inactive_worker_frozen (w : WebServer.t) (n : nat) (item : Request.t) :
  WebServer.isActive w = false ->
  WebServer.cycles n w = w
  /\ WebServer.reported (S n) w = 0
  /\ WebServer.addRequest w item = (false, w)
  /\ WebServer.canAcceptRequest w = false.
Proof.
  intros Hoff.
  assert (Hcycles : forall k : nat, WebServer.cycles k w = w).
  { induction k as [|k IH]; [reflexivity|].
    cbn [WebServer.cycles]. now rewrite (processCycle_inactive w Hoff). }
  split_and!.
  - apply Hcycles.
  - unfold WebServer.reported. cbn [Nat.pred].
    now rewrite Hcycles, (processCycle_inactive w Hoff).
  - unfold WebServer.addRequest. now rewrite Hoff.
  - unfold WebServer.canAcceptRequest. now rewrite Hoff.
Qed.

Lemma inactive_worker_frozen_witness :
  let w := WebServer.setIsActive
             (WebServer.mk 1 "192.168.1.1" 5 1
                [Request.mk "10.0.0.7" "GET" 5 3 1] true 0 0) false in
  WebServer.cycles 4 w = w.
Proof.
  intros w.
  exact (proj1 (inactive_worker_frozen w 4 Request.default eq_refl)).
Defined.

(** X13. What the processing-time counter of a worker holds.  When every
    item submitted to a worker has a duration of at least 1, the counter
    equals the completed counter after any sequence of operations: each
    completion adds the single cycle the item has left at its last call.
    [getAverageProcessingTime] is then 0 while nothing has completed and 1
    ever after. *)
Theorem worker_processing_time_counts_completions
        (id : Z) (ip : string) (capacity : Z) (ops : list worker_op) :
  Forall (fun o => Forall (fun item => 1 <= Request.getProcessingTime item)
                          (submitted o)) ops ->
  let w := worker_run ops (WebServer.make id ip capacity) in
  WebServer.totalProcessingTime w = WebServer.totalRequestsProcessed w
  /\ (WebServer.totalRequestsProcessed w = 0 ->
      WebServer.getAverageProcessingTime w = 0%Q)
  /\ (WebServer.totalRequestsProcessed w <> 0 ->
      (WebServer.getAverageProcessingTime w == 1)%Q).
Proof.
  intros Hops.
  assert (Hgen : forall (l : list worker_op) (w0 : WebServer.t),
            Forall (fun o => Forall (fun item => 1 <= Request.getProcessingTime item)
                                    (submitted o)) l ->
            Forall (fun item => 1 <= Request.getProcessingTime item)
                   (WebServer.requestQueue w0) ->
            WebServer.totalProcessingTime w0 = WebServer.totalRequestsProcessed w0 ->
            WebServer.totalProcessingTime (worker_run l w0)
            = WebServer.totalRequestsProcessed (worker_run l w0)).
  { induction l as [|o l IH]; intros w0 Hl Hq Heq; [exact Heq|].
    change (worker_run (o :: l) w0) with (worker_run l (worker_step w0 o)).
    inversion Hl as [|? ? Ho Hl']; subst.
    apply IH; [exact Hl' | |]; destruct o; simpl in *.
    - destruct (addRequest_cases w0 request) as [-> | ->]; simpl; [exact Hq|].
      apply Forall_app. split; [exact Hq | exact Ho].
    - destruct (WebServer.isActive w0) eqn:Hact.
      + rewrite (processCycle_spec w0 Hact). simpl. apply surviving_positive.
      + now rewrite (processCycle_inactive w0 Hact).
    - exact Hq.
    - destruct (addRequest_cases w0 request) as [-> | ->]; simpl; exact Heq.
    - destruct (WebServer.isActive w0) eqn:Hact.
      + rewrite (processCycle_spec w0 Hact). simpl.
        rewrite (finishing_unit_durations _ Hq). lia.
      + now rewrite (processCycle_inactive w0 Hact).
    - exact Heq. }
  cbn zeta. set (w := worker_run ops (WebServer.make id ip capacity)).
  assert (Heq : WebServer.totalProcessingTime w = WebServer.totalRequestsProcessed w)
    by (apply Hgen; [exact Hops | constructor | reflexivity]).
  unfold WebServer.getAverageProcessingTime. rewrite Heq.
  split_and!; [reflexivity | |].
  - intros ->. reflexivity.
  - intros Hne.
    destruct (Z.eqb_spec (WebServer.totalRequestsProcessed w) 0); [contradiction|].
    apply Qmult_inv_r. unfold Qeq, inject_Z. simpl. lia.
Qed.

Lemma worker_processing_time_counts_completions_witness :
  let ops := [WAddRequest (Request.mk "10.0.0.7" "GET" 5 3 1);
              WAddRequest (Request.mk "10.0.0.8" "GET" 5 2 2);
              WProcessCycle; WProcessCycle; WProcessCycle] in
  let w := worker_run ops (WebServer.make 1 "192.168.1.1" 5) in
  WebServer.totalRequestsProcessed w = 2
  /\ WebServer.totalProcessingTime w = WebServer.totalRequestsProcessed w.
Proof.
  intros ops w. split; [reflexivity|].
  refine (proj1 (worker_processing_time_counts_completions
                   1 "192.168.1.1" 5 ops _)).
  unfold ops.
  repeat (apply List.Forall_cons;
          [simpl; repeat (apply List.Forall_cons; [simpl; lia|]);
           apply List.Forall_nil|]).
  apply List.Forall_nil.
Defined.

(** ** Distribution in general *)

Section Distribution.

Import LoadBalancer.

Lemma served_refl (w : WebServer.t) : served w w.
Proof.
  exists []. split; [|intros H; now contradiction H].
  destruct w. simpl. now rewrite Z.add_0_r, app_nil_r.
Qed.

Lemma served_push (w : WebServer.t) (item : Request.t) :
  WebServer.canAcceptRequest w = true -> served w (WebServer.push w item).
Proof.
  intros Hcan. unfold WebServer.canAcceptRequest in Hcan.
  apply andb_true_iff in Hcan as [Hact Hlt]. apply Z.ltb_lt in Hlt.
  exists [item]. split; [reflexivity|]. intros _. simpl. split; [exact Hact | lia].
Qed.

Lemma served_trans (a b c : WebServer.t) : served a b -> served b c -> served a c.
Proof.
  intros (e1 & -> & H1) (e2 & -> & H2). simpl in *.
  exists (e1 ++ e2). split.
  - rewrite length_app, <- app_assoc. f_equal. lia.
  - intros Hne. rewrite length_app.
    destruct e2 as [|x e2].
    + rewrite app_nil_r in Hne. destruct (H1 Hne) as [Ha Hl].
      split; [exact Ha | simpl; lia].
    + destruct H2 as [Ha Hl]; [discriminate|]. split; [exact Ha | lia].
Qed.

Lemma Forall2_served_refl (l : list WebServer.t) : Forall2 served l l.
Proof. apply Forall_Forall2_diag, Forall_forall. intros; apply served_refl. Qed.

Lemma Forall2_served_trans (l1 l2 l3 : list WebServer.t) :
  Forall2 served l1 l2 -> Forall2 served l2 l3 -> Forall2 served l1 l3.
Proof.
  intros H12. revert l3. induction H12 as [|a b l1 l2 Hab H12 IH]; intros l3 H23.
  - inversion H23. constructor.
  - inversion H23 as [|? c ? l3' Hbc H23']; subst.
    constructor; [eapply served_trans; eauto | now apply IH].
Qed.

Lemma total_in_flight_insert (l : list WebServer.t) (i : nat)
      (w : WebServer.t) (item : Request.t) :
  l !! i = Some w ->
  total_in_flight (<[i := WebServer.push w item]> l) = total_in_flight l + 1.
Proof.
  revert i. induction l as [|x l IH]; intros [|i] H; try discriminate.
  - injection H as ->. simpl. unfold WebServer.getQueueSize. simpl.
    rewrite length_app. simpl. lia.
  - simpl in *. rewrite (IH i H). lia.
Qed.

(** One attempt, on a queue that is not empty: either the scan finds no
    worker that can take an item and leaves the state as it is, or the
    head of the queue goes to the tail of the FIFO of a worker that can. *)
Lemma scan_outcome (steps : nat) :
  forall (i c : Z) (lb : t) (item : Request.t) (rest : list Request.t),
    RequestQueue.requestQueue (requestQueue lb) = item :: rest ->
    (scan steps i c lb = (false, lb)
     /\ forall j : nat, (j < steps)%nat ->
        forall w : WebServer.t,
          servers lb !! Z.to_nat ((c + (i + Z.of_nat j)) mod size lb) = Some w ->
          WebServer.canAcceptRequest w = false)
    \/ (exists (idx : nat) (w : WebServer.t) (c' : Z),
          servers lb !! idx = Some w
          /\ WebServer.canAcceptRequest w = true
          /\ 0 <= c' < size lb
          /\ scan steps i c lb =
             (true,
              mk (<[idx := WebServer.push w item]> (servers lb))
                 (RequestQueue.mk rest
                    (RequestQueue.maxSize (requestQueue lb))
                    (RequestQueue.totalRequestsAdded (requestQueue lb))
                    (RequestQueue.totalRequestsRemoved (requestQueue lb) + 1)
                    (RequestQueue.blockedIPs (requestQueue lb)))
                 c' (totalRequestsProcessed lb) (totalProcessingTime lb)
                 (maxServers lb) (minServers lb) (loadThreshold lb))).
Proof.
  induction steps as [|steps IH]; intros i c lb item rest Hq.
  - left. split; [reflexivity|]. intros j Hj. lia.
  - cbn [scan].
    assert (Hskip : forall b : bool,
              (forall w, servers lb !! Z.to_nat ((c + i) mod size lb) = Some w ->
                         WebServer.canAcceptRequest w = false) ->
              (scan steps (i + 1) c lb = (false, lb)
               /\ forall j : nat, (j < steps)%nat ->
                  forall w : WebServer.t,
                    servers lb !! Z.to_nat ((c + (i + 1 + Z.of_nat j)) mod size lb)
                    = Some w ->
                    WebServer.canAcceptRequest w = false) ->
              forall j : nat, (j < S steps)%nat ->
                forall w : WebServer.t,
                  servers lb !! Z.to_nat ((c + (i + Z.of_nat j)) mod size lb) = Some w ->
                  WebServer.canAcceptRequest w = false).
    { intros _ Hhere [_ Hrest] [|j] Hj w Hw.
      - apply Hhere. rewrite <- Hw. do 3 f_equal. lia.
      - apply (Hrest j); [lia|]. rewrite <- Hw. do 3 f_equal. lia. }
    destruct (servers lb !! Z.to_nat ((c + i) mod size lb)) as [server|] eqn:Elook.
    + destruct (WebServer.canAcceptRequest server) eqn:Ecan.
      * right. exists (Z.to_nat ((c + i) mod size lb)), server,
          (((c + i) mod size lb + 1) mod size lb).
        assert (Hpos : 0 < size lb)
          by (apply lookup_lt_Some in Elook; unfold size; lia).
        split_and!; [exact Elook | exact Ecan | | |].
        -- apply Z.mod_pos_bound; exact Hpos.
        -- apply Z.mod_pos_bound; exact Hpos.
        -- unfold RequestQueue.getNextRequest. rewrite Hq.
           rewrite (canAccept_addRequest server item Ecan). reflexivity.
      * destruct (IH (i + 1) c lb item rest Hq) as [Hnone | Hsome].
        -- left. split; [apply Hnone|].
           apply (Hskip true); [|exact Hnone].
           intros w Hw. congruence.
        -- right. exact Hsome.
    + destruct (IH (i + 1) c lb item rest Hq) as [Hnone | Hsome].
      * left. split; [apply Hnone|].
        apply (Hskip true); [|exact Hnone]. intros w Hw. discriminate.
      * right. exact Hsome.
Qed.

(** The whole loop: [k] items have left the head of the queue, [k] at most
    [budget]; the workers have received them; and the loop has stopped
    because the queue is empty, or no worker can take an item, or the
    budget is used up. *)
Lemma distributeLoop_outcome (budget : nat) :
  forall lb : t,
    let lb' := distributeLoop budget lb in
    exists k : nat,
      (k <= budget)%nat
      /\ (k <= length (RequestQueue.requestQueue (requestQueue lb)))%nat
      /\ RequestQueue.requestQueue (requestQueue lb')
         = skipn k (RequestQueue.requestQueue (requestQueue lb))
      /\ RequestQueue.totalRequestsRemoved (requestQueue lb')
         = RequestQueue.totalRequestsRemoved (requestQueue lb) + Z.of_nat k
      /\ RequestQueue.totalRequestsAdded (requestQueue lb')
         = RequestQueue.totalRequestsAdded (requestQueue lb)
      /\ RequestQueue.maxSize (requestQueue lb')
         = RequestQueue.maxSize (requestQueue lb)
      /\ RequestQueue.blockedIPs (requestQueue lb')
         = RequestQueue.blockedIPs (requestQueue lb)
      /\ Forall2 served (servers lb) (servers lb')
      /\ total_in_flight (servers lb') = total_in_flight (servers lb) + Z.of_nat k
      /\ (RequestQueue.requestQueue (requestQueue lb') = []
          \/ pool_saturated (servers lb')
          \/ k = budget)
      /\ (k = 0%nat -> lb' = lb).
Proof.
  induction budget as [|budget IH]; intros lb; cbn zeta.
  - exists 0%nat. simpl. split_and!; auto using Forall2_served_refl; try lia.
  - cbn [distributeLoop]. unfold RequestQueue.isEmpty.
    destruct (RequestQueue.requestQueue (requestQueue lb)) as [|item rest] eqn:Hq.
    { exists 0%nat. simpl.
      split_and!; auto using Forall2_served_refl; try lia. }
    destruct (scan_outcome (length (servers lb)) 0 (nextServerIndex lb) lb item rest Hq)
      as [[Hscan Hnone] | (idx & w & c' & Hw & Hcan & Hc' & Hscan)];
      rewrite Hscan.
    + exists 0%nat. rewrite Hq. simpl.
      split_and!; auto using Forall2_served_refl; try lia.
      right. left. apply Forall_lookup. intros i w Hw.
      assert (Hi : (i < length (servers lb))%nat) by (eapply lookup_lt_Some; eauto).
      destruct (rotation_onto _ (nextServerIndex lb) i Hi) as (j & Hj & Hrot).
      apply (Hnone j Hj). rewrite <- Hw, <- Hrot. unfold rotation, size.
      do 3 f_equal.
    + match goal with |- context [distributeLoop budget ?s] => set (lb1 := s) end.
      destruct (IH lb1)
        as (k & Hk & Hkq & Hskip & Hrem & Hadd & Hmax & Hblk & Hsrv & Htot & Hexit & Hzero).
      change (RequestQueue.requestQueue (requestQueue lb1)) with rest in Hkq, Hskip.
      change (RequestQueue.totalRequestsRemoved (requestQueue lb1))
        with (RequestQueue.totalRequestsRemoved (requestQueue lb) + 1) in Hrem.
      change (RequestQueue.totalRequestsAdded (requestQueue lb1))
        with (RequestQueue.totalRequestsAdded (requestQueue lb)) in Hadd.
      change (RequestQueue.maxSize (requestQueue lb1))
        with (RequestQueue.maxSize (requestQueue lb)) in Hmax.
      change (RequestQueue.blockedIPs (requestQueue lb1))
        with (RequestQueue.blockedIPs (requestQueue lb)) in Hblk.
      change (servers lb1) with (<[idx := WebServer.push w item]> (servers lb))
        in Hsrv, Htot.
      exists (S k). split_and!.
      * lia.
      * simpl. lia.
      * exact Hskip.
      * rewrite Hrem. lia.
      * exact Hadd.
      * exact Hmax.
      * exact Hblk.
      * eapply Forall2_served_trans; [|exact Hsrv].
        rewrite <- (list_insert_id (servers lb) idx w Hw) at 1.
        apply Forall2_insert; [apply Forall2_served_refl | now apply served_push].
      * rewrite Htot, (total_in_flight_insert _ _ _ _ Hw). lia.
      * destruct Hexit as [H | [H | H]]; [now left | right; now left | right; right; lia].
      * discriminate.
Qed.

Lemma distributeRequests_outcome (lb : t) :
  exists k : nat,
    RequestQueue.getSize (requestQueue (distributeRequests lb))
    = RequestQueue.getSize (requestQueue lb) - Z.of_nat k
    /\ RequestQueue.totalRequestsRemoved (requestQueue (distributeRequests lb))
       = RequestQueue.totalRequestsRemoved (requestQueue lb) + Z.of_nat k
    /\ RequestQueue.totalRequestsAdded (requestQueue (distributeRequests lb))
       = RequestQueue.totalRequestsAdded (requestQueue lb)
    /\ RequestQueue.maxSize (requestQueue (distributeRequests lb))
       = RequestQueue.maxSize (requestQueue lb)
    /\ total_in_flight (servers (distributeRequests lb))
       = total_in_flight (servers lb) + Z.of_nat k.
Proof.
  unfold distributeRequests, RequestQueue.getSize, RequestQueue.isEmpty.
  destruct (RequestQueue.requestQueue (requestQueue lb)) as [|item rest] eqn:Hq.
  - exists 0%nat. rewrite Hq. simpl. split_and!; auto; lia.
  - destruct (distributeLoop_outcome (length (servers lb) * 2) lb)
      as (k & _ & Hkq & Hskip & Hrem & Hadd & Hmax & _ & _ & Htot & _).
    rewrite Hq in Hkq, Hskip. exists k.
    split_and!; try assumption.
    rewrite Hskip, length_skipn. simpl length in *. lia.
Qed.

Lemma receive_nil (w : WebServer.t) : receive w [] = w.
Proof. destruct w. unfold receive. simpl. now rewrite Z.add_0_r, app_nil_r. Qed.

Lemma receive_push (w : WebServer.t) (item : Request.t) (extra : list Request.t) :
  receive (WebServer.push w item) extra = receive w (item :: extra).
Proof.
  unfold receive, WebServer.push. cbn [WebServer.serverID WebServer.serverIP
    WebServer.maxCapacity WebServer.currentLoad WebServer.requestQueue
    WebServer.isActive WebServer.totalRequestsProcessed
    WebServer.totalProcessingTime].
  rewrite <- app_assoc. cbn [app length]. f_equal. lia.
Qed.

Lemma delivered_cons (idx : nat) (dest : list nat) (item : Request.t)
      (items : list Request.t) (i : nat) :
  delivered (idx :: dest) (item :: items) i
  = if Nat.eqb idx i then item :: delivered dest items i
    else delivered dest items i.
Proof.
  unfold delivered. cbn [combine List.filter fst].
  now destruct (Nat.eqb idx i).
Qed.

(** The placements of the loop: the positions they were made at, and what
    every worker holds afterwards. *)
Lemma distributeLoop_deliveries (budget : nat) :
  forall lb : t,
    let queue := RequestQueue.requestQueue (requestQueue lb) in
    exists dest : list nat,
      (length dest <= budget)%nat
      /\ (length dest <= length queue)%nat
      /\ Forall (fun i => (i < length (servers lb))%nat) dest
      /\ RequestQueue.requestQueue (requestQueue (distributeLoop budget lb))
         = skipn (length dest) queue
      /\ length (servers (distributeLoop budget lb)) = length (servers lb)
      /\ forall (i : nat) (w : WebServer.t),
           servers lb !! i = Some w ->
           servers (distributeLoop budget lb) !! i
           = Some (receive w (delivered dest queue i)).
Proof.
  assert (Hnone : forall lb : t,
            exists dest : list nat,
              (length dest <= 0)%nat
              /\ (length dest
                  <= length (RequestQueue.requestQueue (requestQueue lb)))%nat
              /\ Forall (fun i => (i < length (servers lb))%nat) dest
              /\ RequestQueue.requestQueue (requestQueue lb)
                 = skipn (length dest) (RequestQueue.requestQueue (requestQueue lb))
              /\ length (servers lb) = length (servers lb)
              /\ forall (i : nat) (w : WebServer.t),
                   servers lb !! i = Some w ->
                   servers lb !! i
                   = Some (receive w
                             (delivered dest
                                (RequestQueue.requestQueue (requestQueue lb)) i))).
  { intros lb. exists []. cbn [length skipn].
    split_and!; [lia | lia | constructor | reflexivity | reflexivity |].
    intros i w Hw. now rewrite Hw, receive_nil. }
  induction budget as [|budget IH]; intros lb; cbn zeta.
  - exact (Hnone lb).
  - cbn [distributeLoop]. unfold RequestQueue.isEmpty.
    destruct (RequestQueue.requestQueue (requestQueue lb)) as [|item rest] eqn:Hq.
    { destruct (Hnone lb) as (dest & H0 & H1 & H2 & H3 & H4 & H5).
      rewrite Hq in H1, H3, H5. exists dest.
      split_and!; [lia | exact H1 | exact H2 | now rewrite Hq | exact H4 | exact H5]. }
    destruct (scan_outcome (length (servers lb)) 0 (nextServerIndex lb) lb item rest Hq)
      as [[Hscan _] | (idx & w0 & c' & Hw0 & _ & _ & Hscan)];
      rewrite Hscan.
    + destruct (Hnone lb) as (dest & H0 & H1 & H2 & H3 & H4 & H5).
      rewrite Hq in H1, H3, H5. exists dest.
      split_and!; [lia | exact H1 | exact H2 | now rewrite Hq | exact H4 | exact H5].
    + match goal with |- context [distributeLoop budget ?s] => set (lb1 := s) end.
      destruct (IH lb1) as (dest & Hb & Hlen & Hdest & Hskip & Hsz & Hsrv).
      change (RequestQueue.requestQueue (requestQueue lb1)) with rest
        in Hlen, Hskip, Hsrv.
      change (servers lb1) with (<[idx := WebServer.push w0 item]> (servers lb))
        in Hdest, Hsz, Hsrv.
      rewrite length_insert in Hdest, Hsz.
      assert (Hidx : (idx < length (servers lb))%nat)
        by (eapply lookup_lt_Some; exact Hw0).
      exists (idx :: dest). cbn [length skipn].
      split_and!; [lia | lia | now constructor | exact Hskip | exact Hsz |].
      intros i w Hw. rewrite delivered_cons.
      destruct (Nat.eqb_spec idx i) as [<- | Hne].
      * assert (w = w0) by congruence. subst w.
        rewrite <- receive_push. apply Hsrv.
        now apply list_lookup_insert_eq.
      * apply Hsrv. now rewrite list_lookup_insert_ne.
Qed.

(** Sorting the placements by position loses and repeats nothing. *)
Lemma deliveries_none (items : list Request.t) (l : list nat) :
  concat (map (delivered [] items) l) = [].
Proof. induction l as [|i l IH]; [reflexivity | exact IH]. Qed.

Lemma deliveries_skip (idx : nat) (dest : list nat) (item : Request.t)
      (items : list Request.t) (l : list nat) :
  ~ In idx l ->
  map (delivered (idx :: dest) (item :: items)) l = map (delivered dest items) l.
Proof.
  intros Hnot. apply map_ext_in. intros i Hi. rewrite delivered_cons.
  destruct (Nat.eqb_spec idx i) as [<- | _]; [contradiction | reflexivity].
Qed.

Lemma deliveries_Permutation (dest : list nat) :
  forall (items : list Request.t) (n : nat),
    Forall (fun i => (i < n)%nat) dest ->
    Permutation (deliveries dest items n) (firstn (length dest) items).
Proof.
  unfold deliveries.
  induction dest as [|idx dest IH]; intros items n Hdest.
  - rewrite deliveries_none. constructor.
  - destruct items as [|item items].
    { assert (H : forall l, concat (map (delivered (idx :: dest) []) l) = [])
        by (induction l as [|i l IHl]; [reflexivity | exact IHl]).
      rewrite H. constructor. }
    apply Forall_cons in Hdest as [Hidx Hdest].
    specialize (IH items n Hdest). cbn [length firstn].
    assert (Hseq : seq 0 n = seq 0 idx ++ idx :: seq (S idx) (n - S idx)).
    { replace n with (idx + S (n - S idx))%nat at 1 by lia.
      rewrite seq_app. reflexivity. }
    rewrite Hseq in IH |- *. rewrite !map_app, !concat_app in *.
    cbn [map concat] in *.
    rewrite (deliveries_skip idx dest item items (seq 0 idx)),
      (deliveries_skip idx dest item items (seq (S idx) (n - S idx))).
    + rewrite delivered_cons, Nat.eqb_refl.
      rewrite <- IH. cbn [app].
      symmetry. apply Permutation_middle.
    + rewrite in_seq. lia.
    + rewrite in_seq. lia.
Qed.

Lemma distributeRequests_served (lb : t) :
  Forall2 served (servers lb) (servers (distributeRequests lb)).
Proof.
  unfold distributeRequests.
  destruct (RequestQueue.isEmpty (requestQueue lb)); [apply Forall2_served_refl|].
  destruct (distributeLoop_outcome (length (servers lb) * 2) lb)
    as (k & _ & _ & _ & _ & _ & _ & _ & Hsrv & _).
  exact Hsrv.
Qed.

End Distribution.

(** X14. Distribution moves items, it does not lose, repeat or invent
    any.  One call of [distributeRequests] takes the first [k] items off
    the queue, [k] at most twice the pool size, and counts them in the
    removed counter of the queue; the items still queued keep their order.
    Each of the [k] items goes to one worker: there is a list [dest] of
    [k] positions of the pool such that the worker at position [i] ends
    with what it held followed by the items that [dest] sends to [i], in
    queue order, its load raised by their number, and nothing else
    changed.  What the workers were given is, taken together, a
    rearrangement of the first [k] items of the queue.  A worker is given
    items only if it is active, and never beyond its capacity. *)
Theorem distribution_conserves (lb : LoadBalancer.t) :
  let lb' := LoadBalancer.distributeRequests lb in
  let queue := RequestQueue.requestQueue (LoadBalancer.requestQueue lb) in
  let pool := LoadBalancer.servers lb in
  exists dest : list nat,
    let k := length dest in
    (k <= 2 * length pool)%nat
    /\ (k <= length queue)%nat
    /\ Forall (fun i => (i < length pool)%nat) dest
    /\ RequestQueue.requestQueue (LoadBalancer.requestQueue lb') = skipn k queue
    /\ LoadBalancer.getQueueSize lb' = LoadBalancer.getQueueSize lb - Z.of_nat k
    /\ RequestQueue.totalRequestsRemoved (LoadBalancer.requestQueue lb')
       = RequestQueue.totalRequestsRemoved (LoadBalancer.requestQueue lb) + Z.of_nat k
    /\ RequestQueue.totalRequestsAdded (LoadBalancer.requestQueue lb')
       = RequestQueue.totalRequestsAdded (LoadBalancer.requestQueue lb)
    /\ length (LoadBalancer.servers lb') = length pool
    /\ (forall (i : nat) (w : WebServer.t),
          pool !! i = Some w ->
          LoadBalancer.servers lb' !! i
          = Some (receive w (delivered dest queue i))
          /\ (delivered dest queue i <> [] ->
              WebServer.isActive w = true
              /\ WebServer.currentLoad w
                   + Z.of_nat (length (delivered dest queue i))
                 <= WebServer.maxCapacity w))
    /\ Permutation (deliveries dest queue (length pool)) (firstn k queue)
    /\ total_in_flight (LoadBalancer.servers lb')
       = total_in_flight pool + Z.of_nat k.
Proof.
  cbn zeta.
  assert (Hloop : LoadBalancer.distributeRequests lb
                  = LoadBalancer.distributeLoop
                      (length (LoadBalancer.servers lb) * 2) lb).
  { unfold LoadBalancer.distributeRequests, RequestQueue.isEmpty.
    destruct (RequestQueue.requestQueue (LoadBalancer.requestQueue lb)) eqn:Hq;
      [|reflexivity].
    destruct (length (LoadBalancer.servers lb) * 2)%nat; cbn [LoadBalancer.distributeLoop];
      [reflexivity|].
    unfold RequestQueue.isEmpty. now rewrite Hq. }
  rewrite Hloop.
  destruct (distributeLoop_outcome (length (LoadBalancer.servers lb) * 2) lb)
    as (k & Hk & Hkq & Hskip & Hrem & Hadd & _ & _ & Hsrv & Htot & _ & _).
  destruct (distributeLoop_deliveries (length (LoadBalancer.servers lb) * 2) lb)
    as (dest & Hb & Hlen & Hdest & Hskip' & Hsz & Hpt).
  cbn zeta in *.
  assert (Hkd : k = length dest).
  { rewrite Hskip in Hskip'. apply (f_equal (@length _)) in Hskip'.
    rewrite !length_skipn in Hskip'. lia. }
  subst k. exists dest.
  split_and!; try assumption; try lia.
  - unfold LoadBalancer.getQueueSize, RequestQueue.getSize.
    rewrite Hskip, length_skipn. lia.
  - intros i w Hw. split; [now apply Hpt|].
    intros Hne.
    pose proof (Hpt i w Hw) as Hw'.
    destruct (Forall2_lookup_lr _ _ _ _ _ _ Hsrv Hw Hw') as (extra & Heq & Hcap).
    apply (f_equal WebServer.requestQueue) in Heq. simpl in Heq.
    apply app_inv_head in Heq. subst extra. now apply Hcap.
  - now apply deliveries_Permutation.
Qed.

(** X15. When distribution stops.  After a call of [distributeRequests]
    the queue is empty, or no worker of the pool can take an item, or
    exactly twice as many items as there are workers have been placed.  In
    particular nothing moves when no worker can take an item, and an item
    is placed whenever one is queued and some worker can take it. *)
Theorem distribution_stops (lb : LoadBalancer.t) :
  let lb' := LoadBalancer.distributeRequests lb in
  (LoadBalancer.getQueueSize lb' = 0
   \/ pool_saturated (LoadBalancer.servers lb')
   \/ LoadBalancer.getQueueSize lb - LoadBalancer.getQueueSize lb'
      = 2 * LoadBalancer.size lb)
  /\ (pool_saturated (LoadBalancer.servers lb) -> lb' = lb)
  /\ (0 < LoadBalancer.getQueueSize lb ->
      ~ pool_saturated (LoadBalancer.servers lb) ->
      LoadBalancer.getQueueSize lb' < LoadBalancer.getQueueSize lb).
Proof.
  cbn zeta.
  assert (Hsat : pool_saturated (LoadBalancer.servers lb) ->
                 LoadBalancer.distributeRequests lb = lb).
  { intros Hs. unfold LoadBalancer.distributeRequests, RequestQueue.isEmpty.
    destruct (RequestQueue.requestQueue (LoadBalancer.requestQueue lb))
      as [|item rest] eqn:Hq; [reflexivity|].
    destruct (length (LoadBalancer.servers lb) * 2)%nat as [|budget] eqn:Hb;
      [reflexivity|].
    cbn [LoadBalancer.distributeLoop]. unfold RequestQueue.isEmpty. rewrite Hq.
    destruct (scan_outcome (length (LoadBalancer.servers lb)) 0
                (LoadBalancer.nextServerIndex lb) lb item rest Hq)
      as [[Hscan _] | (idx & w & c' & Hw & Hcan & _)].
    - now rewrite Hscan.
    - exfalso. unfold pool_saturated in Hs.
      pose proof (Forall_lookup_1 _ _ _ _ Hs Hw) as Hno. simpl in Hno. congruence. }
  assert (Hexit : LoadBalancer.getQueueSize (LoadBalancer.distributeRequests lb) = 0
                  \/ pool_saturated (LoadBalancer.servers (LoadBalancer.distributeRequests lb))
                  \/ LoadBalancer.getQueueSize lb
                       - LoadBalancer.getQueueSize (LoadBalancer.distributeRequests lb)
                     = 2 * LoadBalancer.size lb).
  { unfold LoadBalancer.distributeRequests, LoadBalancer.getQueueSize,
      RequestQueue.getSize, RequestQueue.isEmpty, LoadBalancer.size.
    destruct (RequestQueue.requestQueue (LoadBalancer.requestQueue lb))
      as [|item rest] eqn:Hq; [left; now rewrite Hq|].
    destruct (distributeLoop_outcome (length (LoadBalancer.servers lb) * 2) lb)
      as (k & Hk & Hkq & Hskip & _ & _ & _ & _ & _ & _ & Hexit & _).
    rewrite Hq in Hkq, Hskip.
    destruct Hexit as [H | [H | H]].
    - left. now rewrite H.
    - right. now left.
    - right. right. rewrite Hskip, length_skipn. simpl length in *. lia. }
  assert (Hsame : LoadBalancer.distributeRequests lb = lb
                  \/ LoadBalancer.getQueueSize (LoadBalancer.distributeRequests lb)
                     < LoadBalancer.getQueueSize lb).
  { unfold LoadBalancer.distributeRequests, LoadBalancer.getQueueSize,
      RequestQueue.getSize, RequestQueue.isEmpty.
    destruct (RequestQueue.requestQueue (LoadBalancer.requestQueue lb))
      as [|item rest] eqn:Hq; [now left|].
    destruct (distributeLoop_outcome (length (LoadBalancer.servers lb) * 2) lb)
      as (k & _ & Hkq & Hskip & _ & _ & _ & _ & _ & _ & _ & Hzero).
    rewrite Hq in Hkq, Hskip.
    destruct k as [|k]; [left; now apply Hzero|].
    right. rewrite Hskip, length_skipn. simpl length in *. lia. }
  split_and!; [exact Hexit | exact Hsat |].
  intros Hpos Hfree.
  destruct (Z.eq_dec (LoadBalancer.size lb) 0) as [Hz|Hnz].
  { exfalso. apply Hfree. unfold LoadBalancer.size in Hz.
    destruct (LoadBalancer.servers lb); [constructor | simpl in Hz; lia]. }
  pose proof (size_nonneg lb) as Hs.
  destruct Hsame as [Heq | Hlt]; [|exact Hlt].
  rewrite Heq in Hexit.
  destruct Hexit as [H | [H | H]]; [lia | contradiction | lia].
Qed.

(** ** The pool of a reachable balancer *)

Section RegularPool.

Import LoadBalancer.

Lemma processServers_map (l : list WebServer.t) :
  forall totalCompleted : Z,
    processServers l totalCompleted =
    (totalCompleted + pool_completions l,
     map (fun w => snd (WebServer.processCycle w)) l).
Proof.
  induction l as [|w l IH]; intros total.
  - simpl. now rewrite Z.add_0_r.
  - cbn [processServers pool_completions fold_right map].
    fold (pool_completions l).
    destruct (WebServer.isActive w) eqn:Hact.
    + rewrite (processCycle_spec w Hact), IH. cbn [snd]. f_equal. lia.
    + rewrite IH, (processCycle_inactive w Hact). cbn [snd]. f_equal; lia.
Qed.

Lemma pool_completions_nonneg (l : list WebServer.t) : 0 <= pool_completions l.
Proof.
  induction l as [|w l IH]; simpl; [lia|].
  fold (pool_completions l). destruct (WebServer.isActive w); lia.
Qed.

Lemma regular_worker_cycle (i : nat) (w : WebServer.t) :
  regular_worker i w -> regular_worker i (snd (WebServer.processCycle w)).
Proof.
  intros (Hid & Hip & Hcap & Hact & Hin).
  pose proof (processCycle_within_capacity w Hin) as Hin'.
  rewrite (processCycle_spec w Hact) in *. simpl in *.
  unfold regular_worker. simpl. split_and!; assumption.
Qed.

Lemma regular_worker_served (i : nat) (w w' : WebServer.t) :
  served w w' -> regular_worker i w -> regular_worker i w'.
Proof.
  intros (extra & -> & Hextra) (Hid & Hip & Hcap & Hact & Hload & Hle).
  unfold regular_worker, worker_within_capacity, WebServer.getQueueSize in *.
  simpl. rewrite length_app. split_and!; try assumption; [lia|].
  destruct extra as [|x extra]; [simpl; lia|].
  destruct Hextra as [_ H]; [discriminate | exact H].
Qed.

Lemma regular_pool_cycle (l : list WebServer.t) :
  regular_pool l -> regular_pool (map (fun w => snd (WebServer.processCycle w)) l).
Proof.
  intros Hreg i w' Hw'. rewrite list_lookup_fmap in Hw'.
  destruct (l !! i) as [w|] eqn:Hw; [|discriminate].
  injection Hw' as <-. apply regular_worker_cycle. now apply Hreg.
Qed.

Lemma regular_pool_served (l l' : list WebServer.t) :
  Forall2 served l l' -> regular_pool l -> regular_pool l'.
Proof.
  intros Hs Hreg i w' Hw'.
  destruct (Forall2_lookup_r _ _ _ _ _ Hs Hw') as (w & Hw & Hserved).
  eapply regular_worker_served; eauto.
Qed.

Lemma lookup_removelast {A : Type} (l : list A) (i : nat) (x : A) :
  removelast l !! i = Some x -> l !! i = Some x.
Proof.
  revert i. induction l as [|a l IH]; intros i H; [discriminate|].
  destruct l as [|b l]; [discriminate|].
  change (removelast (a :: b :: l)) with (a :: removelast (b :: l)) in H.
  destruct i as [|i]; [exact H|]. simpl in *. now apply IH.
Qed.

Lemma regular_pool_addServer (lb : t) :
  regular_pool (servers lb) -> regular_pool (servers (snd (addServer lb))).
Proof.
  intros Hreg. unfold addServer.
  destruct (maxServers lb <=? size lb); [exact Hreg|]. simpl.
  intros i w Hw. apply lookup_app_Some in Hw as [Hw | [Hge Hw]].
  - now apply Hreg.
  - destruct (i - length (servers lb))%nat as [|d] eqn:Hd; [|discriminate].
    injection Hw as <-.
    assert (Hi : Z.of_nat i + 1 = size lb + 1) by (unfold size; lia).
    unfold regular_worker, worker_within_capacity, WebServer.getQueueSize.
    simpl. rewrite Hi. split_and!; try reflexivity. lia.
Qed.

Lemma regular_pool_removeServer (lb : t) :
  regular_pool (servers lb) -> regular_pool (servers (snd (removeServer lb))).
Proof.
  intros Hreg. unfold removeServer.
  destruct (size lb <=? minServers lb); [exact Hreg|]. simpl.
  intros i w Hw. apply Hreg. now apply lookup_removelast.
Qed.

Lemma regular_pool_check (lb : t) :
  regular_pool (servers lb) -> regular_pool (servers (checkLoadBalancing lb)).
Proof.
  intros Hreg. unfold checkLoadBalancing.
  destruct (servers lb) as [|w0 l0] eqn:E; [now rewrite E|]. rewrite <- E in Hreg.
  set (lb1 := if scaleUpGuard (avgUtilization lb) (getQueueSize lb) lb
              then snd (addServer lb) else lb).
  assert (H1 : regular_pool (servers lb1)).
  { unfold lb1. destruct (scaleUpGuard _ _ lb);
      [now apply regular_pool_addServer | exact Hreg]. }
  destruct (scaleDownGuard _ _ lb1); [now apply regular_pool_removeServer | exact H1].
Qed.

Lemma regular_pool_step (lb : t) (o : op) :
  regular_pool (servers lb) -> regular_pool (servers (step lb o)).
Proof.
  intros Hreg. destruct o; cbn [step].
  - now apply regular_pool_addServer.
  - now apply regular_pool_removeServer.
  - unfold addRequest. now destruct (RequestQueue.addRequest (requestQueue lb) request).
  - rewrite processCycle_unfold. cbn zeta.
    change (servers (setTotalRequestsProcessed ?a ?b)) with (servers a).
    apply regular_pool_check.
    eapply regular_pool_served; [apply distributeRequests_served|].
    simpl. rewrite processServers_map. simpl. now apply regular_pool_cycle.
  - eapply regular_pool_served; [apply distributeRequests_served | exact Hreg].
  - now apply regular_pool_check.
  - exact Hreg.
  - exact Hreg.
Qed.

End RegularPool.

Section ReachablePool.

Import LoadBalancer.

Lemma addServers_regular (n : nat) :
  forall lb : t,
    regular_pool (servers lb) -> regular_pool (servers (addServers n lb)).
Proof.
  induction n as [|n IH]; intros lb H; [exact H|].
  cbn [addServers]. apply IH. now apply regular_pool_addServer.
Qed.

Lemma regular_pool_nil : regular_pool [].
Proof. intros i w H. discriminate. Qed.

Lemma reachable_regular (lb : t) : reachable lb -> regular_pool (servers lb).
Proof.
  induction 1 as [| i mx mn thr | lb o Hr IH].
  - apply (regular_pool_addServer (mk [] RequestQueue.default 0 0 0 20 1 (8 # 10))).
    apply regular_pool_nil.
  - unfold make. apply addServers_regular. apply regular_pool_nil.
  - now apply regular_pool_step.
Qed.

Lemma countActive_all (l : list WebServer.t) :
  Forall (fun w => WebServer.isActive w = true) l ->
  forall activeCount : Z,
    countActive l activeCount = activeCount + Z.of_nat (length l).
Proof.
  induction 1 as [|w l Hw Hl IH]; intros n; simpl; [lia|].
  rewrite Hw, IH. lia.
Qed.



End ReachablePool.

(** X16. The pool of a reachable balancer.  In every state reached from a
    constructor, the worker at position [i] of the collection has identity
    [i + 1] and address 192.168.1.(i + 1), a capacity of 5, is active, and
    has a load equal to the length of its FIFO and between 0 and 5.  The
    identities are therefore distinct and without gaps, also after the
    pool has shrunk and grown again, and [getActiveServerCount] is the
    size of the pool. *)
Theorem reachable_pool_regular (lb : LoadBalancer.t) :
  LoadBalancer.reachable lb ->
  (forall (i : nat) (w : WebServer.t),
     LoadBalancer.servers lb !! i = Some w ->
     WebServer.serverID w = Z.of_nat i + 1
     /\ WebServer.serverIP w = String.append "192.168.1." (to_string (Z.of_nat i + 1))
     /\ WebServer.maxCapacity w = 5
     /\ WebServer.isActive w = true
     /\ WebServer.currentLoad w = WebServer.getQueueSize w
     /\ 0 <= WebServer.currentLoad w <= 5)
  /\ LoadBalancer.getActiveServerCount lb = LoadBalancer.size lb.
Proof.
  intros Hr. pose proof (reachable_regular lb Hr) as Hreg. split.
  - intros i w Hw. destruct (Hreg i w Hw) as (Hid & Hip & Hcap & Hact & Hload & Hle).
    unfold WebServer.getQueueSize in *.
    split_and!; try assumption; lia.
  - unfold LoadBalancer.getActiveServerCount, LoadBalancer.size.
    rewrite countActive_all; [lia|].
    apply Forall_lookup. intros i w Hw. apply (Hreg i w Hw).
Qed.

Lemma reachable_pool_regular_witness :
  LoadBalancer.getActiveServerCount shrink_scenario = 5
  /\ forall w : WebServer.t,
       LoadBalancer.servers shrink_scenario !! 4%nat = Some w ->
       WebServer.serverID w = 5.
Proof.
  assert (Hr : LoadBalancer.reachable shrink_scenario)
    by (apply run_reachable; constructor).
  destruct (reachable_pool_regular shrink_scenario Hr) as [Hworkers Hcount].
  split.
  - rewrite Hcount. vm_compute. reflexivity.
  - intros w Hw. exact (proj1 (Hworkers 4%nat w Hw)).
Defined.



(** ** Construction, the floor of scaling, and the count of a cycle *)

Section Construction.

Import LoadBalancer.

Lemma addServers_frame (n : nat) :
  forall lb : t,
    requestQueue (addServers n lb) = requestQueue lb
    /\ totalRequestsProcessed (addServers n lb) = totalRequestsProcessed lb
    /\ (Forall at_rest (servers lb) -> Forall at_rest (servers (addServers n lb))).
Proof.
  induction n as [|n IH]; intros lb; [now split_and!|].
  cbn [addServers]. destruct (IH (snd (addServer lb))) as (I1 & I2 & I3).
  destruct (addServer_spec lb) as (_ & _ & A1 & A2 & _). cbn zeta in *.
  split_and!; [congruence | congruence |].
  intros H. apply I3. unfold addServer.
  destruct (maxServers lb <=? size lb); [exact H|]. simpl.
  apply Forall_app. split; [exact H|]. repeat constructor.
Qed.

Lemma check_floor (lb : t) :
  Z.min (size lb) (scaling_floor lb) <= size (checkLoadBalancing lb).
Proof.
  unfold checkLoadBalancing, scaling_floor.
  destruct (servers lb) as [|w0 l0] eqn:E; [lia|].
  assert (Hpos : 0 < size lb) by (unfold size; rewrite E; simpl; lia).
  set (avg := avgUtilization lb). set (qs := getQueueSize lb).
  set (lb1 := if scaleUpGuard avg qs lb then snd (addServer lb) else lb).
  assert (H1 : size lb <= size lb1 /\ minServers lb1 = minServers lb).
  { unfold lb1. destruct (scaleUpGuard avg qs lb); [|split; [lia | reflexivity]].
    destruct (addServer_spec lb) as ((_ & M & _) & _ & _ & _ & Z & _). cbn zeta in *.
    rewrite Z. split; [|exact M].
    destruct (size lb <? maxServers lb); lia. }
  destruct H1 as [Hsz Hmin].
  destruct (scaleDownGuard avg qs lb1) eqn:Edown; [|lia].
  apply scaleDownGuard_iff in Edown as (_ & _ & Hgt).
  destruct (removeServer_spec lb1) as (_ & _ & _ & _ & Z & _). cbn zeta in Z.
  rewrite Z. destruct (minServers lb1 <? size lb1); lia.
Qed.

Lemma step_floor (lb : t) (o : op) :
  is_removeServer o = false ->
  Z.min (size lb) (scaling_floor lb) <= size (step lb o)
  /\ scaling_floor (step lb o) = scaling_floor lb.
Proof.
  intros Hno.
  destruct (step_effect lb o) as ((_ & Hmin & _) & _).
  split; [|unfold scaling_floor; now rewrite Hmin].
  destruct o; cbn [step]; try discriminate.
  - destruct (addServer_spec lb) as (_ & _ & _ & _ & Z & _). cbn zeta in Z.
    rewrite Z. destruct (size lb <? maxServers lb); lia.
  - unfold addRequest. destruct (RequestQueue.addRequest (requestQueue lb) request).
    unfold size. simpl. lia.
  - rewrite processCycle_unfold. cbn zeta.
    change (size (setTotalRequestsProcessed ?a ?b)) with (size a).
    set (lb1 := setServers lb (snd (processServers (servers lb) 0))).
    destruct (processServers_spec (servers lb) 0) as [Hlen _].
    destruct (distributeRequests_spec lb1) as (Dlen & (_ & Dmin & _) & _).
    pose proof (check_floor (distributeRequests lb1)) as Hc.
    unfold scaling_floor in *. rewrite Dmin in Hc.
    assert (Hs : size (distributeRequests lb1) = size lb).
    { unfold size. rewrite Dlen. unfold lb1. simpl. now rewrite Hlen. }
    rewrite Hs in Hc. exact Hc.
  - destruct (distributeRequests_spec lb) as (Dlen & _).
    unfold size. rewrite Dlen. lia.
  - apply check_floor.
  - unfold size. simpl. lia.
  - unfold size. simpl. lia.
Qed.

End Construction.

(** X18. What the constructor builds.  [LoadBalancer(initial, max, min,
    threshold)] builds [initial] workers, or [max] when [initial] is
    larger, or none when either is negative.  The minimum is stored
    but not consulted: a balancer can start below it.  The workers hold
    nothing, the queue is empty with a capacity of 1000, and the cursor
    and the counters are 0. *)
Theorem constructor_pool
        (initialServers maxServerCount minServerCount : Z) (threshold : Q) :
  let lb := LoadBalancer.make initialServers maxServerCount minServerCount
                              threshold in
  LoadBalancer.size lb = Z.max 0 (Z.min initialServers maxServerCount)
  /\ LoadBalancer.maxServers lb = maxServerCount
  /\ LoadBalancer.minServers lb = minServerCount
  /\ LoadBalancer.loadThreshold lb = threshold
  /\ LoadBalancer.nextServerIndex lb = 0
  /\ LoadBalancer.totalRequestsProcessed lb = 0
  /\ LoadBalancer.requestQueue lb = RequestQueue.make 1000
  /\ Forall at_rest (LoadBalancer.servers lb).
Proof.
  destruct (make_spec initialServers maxServerCount minServerCount threshold)
    as (M1 & M2 & M3 & _ & M5 & _ & M7). cbn zeta in *.
  destruct (addServers_frame (Z.to_nat initialServers)
              (LoadBalancer.mk [] RequestQueue.default 0 0 0 maxServerCount
                               minServerCount threshold)) as (F1 & F2 & F3).
  split_and!.
  - rewrite M7. lia.
  - exact M1.
  - exact M2.
  - exact M3.
  - exact M5.
  - exact F2.
  - exact F1.
  - apply F3. constructor.
Qed.

(** X19. The floor of automatic scaling.  No operation other than a direct
    call of [removeServer] takes the pool below minimum + 3: a pool of at
    least minimum + 3 workers stays at least that large, and a smaller pool
    does not shrink at all.  The minimum itself is reached only through
    [removeServer]. *)
Theorem scaling_never_below_floor (lb : LoadBalancer.t) (ops : list LoadBalancer.op) :
  forallb (fun o => negb (is_removeServer o)) ops = true ->
  Z.min (LoadBalancer.size lb) (LoadBalancer.minServers lb + 3)
  <= LoadBalancer.size (LoadBalancer.run ops lb).
Proof.
  fold (scaling_floor lb). revert lb.
  induction ops as [|o ops IH]; intros lb Hall; [simpl; lia|].
  simpl in Hall. apply andb_true_iff in Hall as [Ho Hops].
  apply negb_true_iff in Ho.
  change (LoadBalancer.run (o :: ops) lb)
    with (LoadBalancer.run ops (LoadBalancer.step lb o)).
  destruct (step_floor lb o Ho) as [Hstep Hfloor].
  specialize (IH (LoadBalancer.step lb o) Hops). rewrite Hfloor in IH. lia.
Qed.

Lemma scaling_never_below_floor_witness :
  let lb := LoadBalancer.make 6 20 1 (8 # 10) in
  4 <= LoadBalancer.size
         (LoadBalancer.run (repeat LoadBalancer.ProcessCycle 10) lb).
Proof.
  intros lb.
  apply (scaling_never_below_floor lb (repeat LoadBalancer.ProcessCycle 10)).
  reflexivity.
Defined.

(** X20. What a cycle of the balancer returns.  [processCycle] returns the
    number of items that complete on the active workers in this cycle (the
    items with one cycle or less left), which is never negative, and adds
    exactly that number to the completed counter of the balancer.  Items
    placed by the distribution step of the same cycle are not advanced
    until the next cycle. *)
Theorem balancer_cycle_count (lb : LoadBalancer.t) :
  let result := LoadBalancer.processCycle lb in
  fst result = pool_completions (LoadBalancer.servers lb)
  /\ 0 <= fst result
  /\ LoadBalancer.getTotalRequestsProcessed (snd result)
     = LoadBalancer.getTotalRequestsProcessed lb + fst result
  /\ Forall2 served
       (map (fun w => snd (WebServer.processCycle w)) (LoadBalancer.servers lb))
       (LoadBalancer.servers
          (LoadBalancer.distributeRequests
             (LoadBalancer.setServers lb
                (map (fun w => snd (WebServer.processCycle w))
                     (LoadBalancer.servers lb))))).
Proof.
  cbn zeta. unfold LoadBalancer.processCycle, LoadBalancer.getTotalRequestsProcessed.
  rewrite processServers_map. simpl.
  set (lb1 := LoadBalancer.setServers lb
                (map (fun w => snd (WebServer.processCycle w)) (LoadBalancer.servers lb))).
  destruct (distributeRequests_spec lb1) as (_ & _ & Dt & _).
  destruct (checkLoadBalancing_frame (LoadBalancer.distributeRequests lb1))
    as (_ & _ & _ & Ct & _).
  split_and!.
  - reflexivity.
  - apply pool_completions_nonneg.
  - rewrite Ct, Dt. reflexivity.
  - apply (distributeRequests_served lb1).
Qed.

(** ** An idle pool *)

Section IdlePool.

Import LoadBalancer.

Lemma div_zero (y : Q) : Binary64.div 0 y = 0%Q.
Proof. apply round_zero. unfold Qdiv. apply Qmult_0_l. Qed.

Lemma getUtilization_double_at_rest (w : WebServer.t) :
  at_rest w -> WebServer.getUtilization_double w = 0%Q.
Proof.
  intros [_ Hload]. unfold WebServer.getUtilization_double. rewrite Hload.
  destruct (WebServer.maxCapacity w =? 0); [reflexivity|].
  change (Binary64.of_int 0) with 0%Q. rewrite div_zero. reflexivity.
Qed.

Lemma sumActive_double_at_rest (l : list WebServer.t) :
  Forall at_rest l ->
  forall activeServers : Z, fst (sumActive_double l 0%Q activeServers) = 0%Q.
Proof.
  induction 1 as [|w l Hw Hl IH]; intros n; [reflexivity|].
  cbn [sumActive_double]. destruct (WebServer.isActive w); [|apply IH].
  rewrite (getUtilization_double_at_rest w Hw).
  change (Binary64.add 0 0) with 0%Q. apply IH.
Qed.

(** The mean utilization of an idle pool is the [double] 0, with no
    rounding error. *)
Lemma avgUtilization_at_rest (lb : t) :
  Forall at_rest (servers lb) -> avgUtilization lb = 0%Q.
Proof.
  intros Hrest. unfold avgUtilization, getSystemUtilization_double.
  destruct (servers lb) as [|w0 l0] eqn:E; [reflexivity|]. rewrite <- E in *.
  pose proof (sumActive_double_at_rest _ Hrest 0) as Hsum.
  destruct (sumActive_double (servers lb) 0%Q 0) as [total n]. simpl in Hsum.
  subst total. destruct (0 <? n); [|reflexivity].
  rewrite div_zero. reflexivity.
Qed.

Lemma processCycle_at_rest (w : WebServer.t) :
  at_rest w -> WebServer.processCycle w = (0, w).
Proof.
  intros [Hq _]. unfold WebServer.processCycle. rewrite Hq.
  now rewrite orb_true_r.
Qed.

Lemma processServers_at_rest (l : list WebServer.t) :
  Forall at_rest l ->
  forall totalCompleted : Z, processServers l totalCompleted = (totalCompleted, l).
Proof.
  induction 1 as [|w l Hw Hl IH]; intros total; [reflexivity|].
  cbn [processServers]. rewrite (processCycle_at_rest w Hw), !IH.
  rewrite Z.add_0_r. now destruct (WebServer.isActive w).
Qed.

Lemma setServers_same (lb : t) : setServers lb (servers lb) = lb.
Proof. now destruct lb. Qed.

Lemma setTotalRequestsProcessed_same (lb : t) :
  setTotalRequestsProcessed lb (totalRequestsProcessed lb + 0) = lb.
Proof. destruct lb. unfold setTotalRequestsProcessed. simpl. now rewrite Z.add_0_r. Qed.

(** One cycle of an idle balancer is its scaling step, and the scaling step
    is a shrink when the pool is above the floor. *)
Lemma idle_cycle (lb : t) :
  Forall at_rest (servers lb) ->
  RequestQueue.requestQueue (requestQueue lb) = [] ->
  (0 < Binary64.mul (threshold_double lb) Binary64.twentieth)%Q ->
  processCycle lb =
  (0, if (0 <? size lb) && (scaling_floor lb <? size lb)
      then setServers lb (removelast (servers lb))
      else lb).
Proof.
  intros Hrest Hq Hthr. unfold processCycle.
  rewrite (processServers_at_rest _ Hrest 0), setServers_same.
  assert (Hd : distributeRequests lb = lb)
    by (unfold distributeRequests, RequestQueue.isEmpty; now rewrite Hq).
  rewrite Hd. f_equal.
  assert (Hcheck : checkLoadBalancing lb =
                   if (0 <? size lb) && (scaling_floor lb <? size lb)
                   then setServers lb (removelast (servers lb)) else lb).
  { unfold checkLoadBalancing.
    destruct (servers lb) as [|w0 l0] eqn:E.
    { unfold size. now rewrite E. }
    rewrite <- E in *.
    assert (Hpos : 0 < size lb) by (unfold size; rewrite E; simpl; lia).
    pose proof (avgUtilization_at_rest lb Hrest) as Havg.
    assert (Hqs : getQueueSize lb = 0)
      by (unfold getQueueSize, RequestQueue.getSize; now rewrite Hq).
    assert (Hup : scaleUpGuard (avgUtilization lb) (getQueueSize lb) lb = false).
    { destruct (scaleUpGuard _ _ lb) eqn:Eup; [|reflexivity].
      apply scaleUpGuard_iff in Eup as [[H|H] _]; [|lia].
      rewrite Havg in H. exfalso.
      apply (Qlt_irrefl 0). eapply Qlt_le_trans; [exact Hthr|].
      apply mul_twentieth_nonpos. now apply Qlt_le_weak. }
    rewrite Hup.
    assert (Hdown : scaleDownGuard (avgUtilization lb) (getQueueSize lb) lb
                    = (scaling_floor lb <? size lb)).
    { unfold scaleDownGuard, scaling_floor. rewrite Hqs. simpl.
      rewrite andb_true_r.
      assert (Hlt : Qltb (avgUtilization lb)
                         (Binary64.mul (threshold_double lb) Binary64.twentieth)
                    = true)
        by (apply Qltb_lt; rewrite Havg; exact Hthr).
      now rewrite Hlt. }
    rewrite Hdown.
    destruct (Z.ltb_spec 0 (size lb)); [|lia]. simpl.
    destruct (Z.ltb_spec (scaling_floor lb) (size lb)) as [Hgt|Hle]; [|reflexivity].
    unfold removeServer, scaling_floor in *.
    destruct (Z.leb_spec (size lb) (minServers lb)); [lia | reflexivity]. }
  rewrite Hcheck.
  destruct ((0 <? size lb) && (scaling_floor lb <? size lb));
    [|apply setTotalRequestsProcessed_same].
  unfold setTotalRequestsProcessed, setServers. simpl. now rewrite Z.add_0_r.
Qed.

End IdlePool.

(** X21. An idle pool shrinks to the floor and stops.  When no worker
    holds anything, the queue is empty and the product threshold * 0.05,
    as the machine computes it, is positive (the threshold is positive and
    not so small that the product underflows to zero; a threshold of at
    least a millionth will do, by [threshold_product_pos]), every cycle reports
    no completion and removes the last worker, until the pool is down to
    minimum + 3 workers (or is empty); further cycles change nothing.
    After [k] cycles the pool has max (min size floor) (size - k) workers,
    floor being max 0 (minimum + 3), and they still hold nothing. *)
Theorem idle_pool_shrinks (lb : LoadBalancer.t) (k : nat) :
  Forall at_rest (LoadBalancer.servers lb) ->
  RequestQueue.requestQueue (LoadBalancer.requestQueue lb) = [] ->
  (0 < Binary64.mul (LoadBalancer.threshold_double lb) Binary64.twentieth)%Q ->
  let lb' := LoadBalancer.run (repeat LoadBalancer.ProcessCycle k) lb in
  let floor := Z.max 0 (LoadBalancer.minServers lb + 3) in
  LoadBalancer.size lb'
  = Z.max (Z.min (LoadBalancer.size lb) floor) (LoadBalancer.size lb - Z.of_nat k)
  /\ Forall at_rest (LoadBalancer.servers lb')
  /\ LoadBalancer.totalRequestsProcessed lb' = LoadBalancer.totalRequestsProcessed lb
  /\ LoadBalancer.requestQueue lb' = LoadBalancer.requestQueue lb
  /\ LoadBalancer.nextServerIndex lb' = LoadBalancer.nextServerIndex lb.
Proof.
  revert lb. induction k as [|k IH]; intros lb Hrest Hq Hthr; cbn zeta.
  - simpl. pose proof (size_nonneg lb). split_and!; auto. lia.
  - change (LoadBalancer.run (repeat LoadBalancer.ProcessCycle (S k)) lb)
      with (LoadBalancer.run (repeat LoadBalancer.ProcessCycle k)
              (snd (LoadBalancer.processCycle lb))).
    rewrite (idle_cycle lb Hrest Hq Hthr). cbn [snd]. unfold scaling_floor.
    pose proof (size_nonneg lb) as Hnn.
    destruct (Z.ltb_spec 0 (LoadBalancer.size lb)) as [Hpos|Hzero];
      destruct (Z.ltb_spec (LoadBalancer.minServers lb + 3) (LoadBalancer.size lb))
        as [Hgt|Hle]; cbn [andb].
    + set (lb1 := LoadBalancer.setServers lb (removelast (LoadBalancer.servers lb))).
      assert (Hs1 : LoadBalancer.size lb1 = LoadBalancer.size lb - 1).
      { unfold LoadBalancer.size, lb1. simpl. rewrite length_removelast.
        unfold LoadBalancer.size in Hpos. lia. }
      destruct (IH lb1) as (I1 & I2 & I3 & I4 & I5).
      * unfold lb1. simpl. now apply Forall_removelast.
      * exact Hq.
      * exact Hthr.
      * cbn zeta in *. rewrite I1, Hs1.
        change (LoadBalancer.minServers lb1) with (LoadBalancer.minServers lb).
        split_and!; [lia | exact I2 | exact I3 | exact I4 | exact I5].
    + destruct (IH lb Hrest Hq Hthr) as (I1 & I2 & I3 & I4 & I5). cbn zeta in *.
      split_and!; [rewrite I1; lia | exact I2 | exact I3 | exact I4 | exact I5].
    + destruct (IH lb Hrest Hq Hthr) as (I1 & I2 & I3 & I4 & I5). cbn zeta in *.
      split_and!; [rewrite I1; lia | exact I2 | exact I3 | exact I4 | exact I5].
    + destruct (IH lb Hrest Hq Hthr) as (I1 & I2 & I3 & I4 & I5). cbn zeta in *.
      split_and!; [rewrite I1; lia | exact I2 | exact I3 | exact I4 | exact I5].
Qed.

Lemma idle_pool_shrinks_witness :
  let lb := LoadBalancer.make 7 20 1 (8 # 10) in
  LoadBalancer.size (LoadBalancer.run (repeat LoadBalancer.ProcessCycle 2) lb) = 5
  /\ LoadBalancer.size (LoadBalancer.run (repeat LoadBalancer.ProcessCycle 9) lb) = 4.
Proof.
  intros lb.
  assert (Hrest : Forall at_rest (LoadBalancer.servers lb))
    by (vm_compute; repeat constructor).
  assert (Hq : RequestQueue.requestQueue (LoadBalancer.requestQueue lb) = [])
    by reflexivity.
  assert (Hthr : (0 < Binary64.mul (LoadBalancer.threshold_double lb)
                                   Binary64.twentieth)%Q)
    by (vm_compute; reflexivity).
  split.
  - exact (proj1 (idle_pool_shrinks lb 2 Hrest Hq Hthr)).
  - exact (proj1 (idle_pool_shrinks lb 9 Hrest Hq Hthr)).
Defined.

(** ** Accounting and the overload flag *)

Section Accounting.

Import LoadBalancer.

Lemma total_in_flight_cons (w : WebServer.t) (l : list WebServer.t) :
  total_in_flight (w :: l) = WebServer.getQueueSize w + total_in_flight l.
Proof. reflexivity. Qed.

Lemma total_in_flight_app (l1 l2 : list WebServer.t) :
  total_in_flight (l1 ++ l2) = total_in_flight l1 + total_in_flight l2.
Proof.
  induction l1 as [|w l1 IH]; [reflexivity|].
  rewrite <- app_comm_cons, !total_in_flight_cons, IH. lia.
Qed.

Lemma total_in_flight_nonneg (l : list WebServer.t) : 0 <= total_in_flight l.
Proof.
  induction l as [|w l IH]; [reflexivity|].
  rewrite total_in_flight_cons. unfold WebServer.getQueueSize. lia.
Qed.

Lemma total_in_flight_removelast (l : list WebServer.t) :
  total_in_flight (removelast l) <= total_in_flight l.
Proof.
  induction l as [|w l IH]; [reflexivity|].
  destruct l as [|w' l].
  - cbn [removelast]. rewrite total_in_flight_cons.
    unfold WebServer.getQueueSize, total_in_flight. simpl. lia.
  - change (removelast (w :: w' :: l)) with (w :: removelast (w' :: l)).
    rewrite !(total_in_flight_cons w). lia.
Qed.

Lemma total_in_flight_cycle (l : list WebServer.t) :
  total_in_flight (map (fun w => snd (WebServer.processCycle w)) l)
  = total_in_flight l - pool_completions l.
Proof.
  induction l as [|w l IH]; [reflexivity|].
  cbn [map]. rewrite !total_in_flight_cons, IH.
  change (pool_completions (w :: l))
    with ((if WebServer.isActive w
           then Z.of_nat (length (finishing (WebServer.requestQueue w)))
           else 0) + pool_completions l).
  destruct (WebServer.isActive w) eqn:Hact.
  - rewrite (processCycle_spec w Hact). unfold WebServer.getQueueSize. simpl.
    pose proof (finishing_surviving_length (WebServer.requestQueue w)). lia.
  - rewrite (processCycle_inactive w Hact). simpl. lia.
Qed.

Lemma addServer_in_flight (lb : t) :
  total_in_flight (servers (snd (addServer lb))) = total_in_flight (servers lb).
Proof.
  unfold addServer. destruct (maxServers lb <=? size lb); [reflexivity|].
  simpl. rewrite total_in_flight_app. simpl. unfold WebServer.getQueueSize. simpl. lia.
Qed.

Lemma removeServer_in_flight (lb : t) :
  total_in_flight (servers (snd (removeServer lb))) <= total_in_flight (servers lb).
Proof.
  unfold removeServer. destruct (size lb <=? minServers lb); [simpl; lia|].
  simpl. apply total_in_flight_removelast.
Qed.

Lemma check_in_flight (lb : t) :
  total_in_flight (servers (checkLoadBalancing lb)) <= total_in_flight (servers lb).
Proof.
  unfold checkLoadBalancing. destruct (servers lb) as [|w0 l0] eqn:E; [rewrite E; lia|].
  rewrite <- E.
  set (lb1 := if scaleUpGuard (avgUtilization lb) (getQueueSize lb) lb
              then snd (addServer lb) else lb).
  assert (H1 : total_in_flight (servers lb1) = total_in_flight (servers lb)).
  { unfold lb1. destruct (scaleUpGuard _ _ lb); [apply addServer_in_flight | reflexivity]. }
  destruct (scaleDownGuard _ _ lb1); [|lia].
  pose proof (removeServer_in_flight lb1). lia.
Qed.

Lemma step_books (lb : t) (o : op) : books_balance lb -> books_balance (step lb o).
Proof.
  intros (Hq & Hf & Hp & Hm). destruct o; cbn [step].
  - destruct (addServer_spec lb) as (_ & _ & Q & T & _). cbn zeta in *.
    unfold books_balance. rewrite Q, T, addServer_in_flight. now split_and!.
  - destruct (removeServer_spec lb) as (_ & _ & Q & T & _). cbn zeta in *.
    pose proof (removeServer_in_flight lb).
    unfold books_balance. rewrite Q, T. split_and!; try assumption. lia.
  - destruct (queue_step_counters (requestQueue lb) (QAddRequest request))
      as (_ & _ & Hc).
    pose proof (queue_step_maxSize (requestQueue lb) (QAddRequest request)) as Hmx.
    specialize (Hc eq_refl). simpl in Hc, Hmx.
    assert (Hr : RequestQueue.totalRequestsRemoved
                   (snd (RequestQueue.addRequest (requestQueue lb) request))
                 = RequestQueue.totalRequestsRemoved (requestQueue lb)).
    { unfold RequestQueue.addRequest.
      destruct (RequestQueue.isIPBlocked _ _); [reflexivity|].
      now destruct (RequestQueue.isFull _). }
    unfold addRequest.
    destruct (RequestQueue.addRequest (requestQueue lb) request) as [ok q'].
    unfold books_balance. simpl in *. rewrite Hr, Hmx.
    split_and!; try assumption. lia.
  - rewrite processCycle_unfold. cbn zeta. rewrite processServers_map. cbn [fst snd].
    set (lb1 := setServers lb (map (fun w => snd (WebServer.processCycle w)) (servers lb))).
    destruct (distributeRequests_outcome lb1) as (k & D1 & D2 & D3 & D4 & D5).
    destruct (distributeRequests_spec lb1) as (_ & _ & Dt & _).
    destruct (checkLoadBalancing_frame (distributeRequests lb1))
      as (_ & _ & Cq & Ct & _).
    pose proof (check_in_flight (distributeRequests lb1)) as Cf.
    pose proof (total_in_flight_cycle (servers lb)) as Hcyc.
    pose proof (pool_completions_nonneg (servers lb)) as Hnn.
    unfold books_balance. simpl. rewrite Cq, Ct, Dt, D1, D2, D3, D4.
    change (servers lb1) with (map (fun w => snd (WebServer.processCycle w)) (servers lb))
      in D5.
    change (requestQueue lb1) with (requestQueue lb).
    change (totalRequestsProcessed lb1) with (totalRequestsProcessed lb).
    split_and!; [lia | lia | lia | exact Hm].
  - destruct (distributeRequests_outcome lb) as (k & D1 & D2 & D3 & D4 & D5).
    destruct (distributeRequests_spec lb) as (_ & _ & Dt & _).
    unfold books_balance. rewrite D1, D2, D3, D4, D5, Dt.
    split_and!; [lia | lia | exact Hp | exact Hm].
  - destruct (checkLoadBalancing_frame lb) as (_ & _ & Cq & Ct & _).
    pose proof (check_in_flight lb) as Cf.
    unfold books_balance. rewrite Cq, Ct. split_and!; try assumption. lia.
  - unfold books_balance, blockIP, RequestQueue.blockIP. simpl.
    destruct (RequestQueue.isIPBlocked (requestQueue lb) ip); now split_and!.
  - unfold books_balance. simpl. now split_and!.
Qed.

Lemma addServers_books (n : nat) :
  forall lb : t, books_balance lb -> books_balance (addServers n lb).
Proof.
  induction n as [|n IH]; intros lb H; [exact H|].
  cbn [addServers]. apply IH. exact (step_books lb AddServer H).
Qed.

Lemma reachable_books (lb : t) : reachable lb -> books_balance lb.
Proof.
  induction 1 as [| i mx mn thr | lb o Hr IH].
  - apply (step_books (mk [] RequestQueue.default 0 0 0 20 1 (8 # 10)) AddServer).
    unfold books_balance. simpl. unfold RequestQueue.getSize. simpl. lia.
  - unfold make. apply addServers_books.
    unfold books_balance. simpl. unfold RequestQueue.getSize. simpl. lia.
  - now apply step_books.
Qed.

End Accounting.

(** X22. The books of the balancer.  In every reachable state, the items
    the queue has admitted are the items it still holds plus the items it
    has handed to workers; and the items handed out cover the items the
    workers hold plus the completions the balancer has counted.  What is
    missing on the right is what pool shrinks have discarded: nothing is
    ever counted that was not admitted. *)
Theorem balancer_accounting (lb : LoadBalancer.t) :
  LoadBalancer.reachable lb ->
  let q := LoadBalancer.requestQueue lb in
  LoadBalancer.getQueueSize lb + RequestQueue.totalRequestsRemoved q
  = RequestQueue.totalRequestsAdded q
  /\ total_in_flight (LoadBalancer.servers lb)
       + LoadBalancer.getTotalRequestsProcessed lb
     <= RequestQueue.totalRequestsRemoved q
  /\ LoadBalancer.getQueueSize lb + total_in_flight (LoadBalancer.servers lb)
       + LoadBalancer.getTotalRequestsProcessed lb
     <= RequestQueue.totalRequestsAdded q
  /\ 0 <= LoadBalancer.getTotalRequestsProcessed lb.
Proof.
  intros Hr. destruct (reachable_books lb Hr) as (Hq & Hf & Hp & _).
  unfold LoadBalancer.getQueueSize, LoadBalancer.getTotalRequestsProcessed.
  cbn zeta. split_and!; [exact Hq | exact Hf | lia | exact Hp].
Qed.

Lemma balancer_accounting_witness :
  LoadBalancer.getQueueSize shrink_scenario
    + total_in_flight (LoadBalancer.servers shrink_scenario)
    + LoadBalancer.getTotalRequestsProcessed shrink_scenario
  <= RequestQueue.totalRequestsAdded (LoadBalancer.requestQueue shrink_scenario).
Proof.
  assert (Hr : LoadBalancer.reachable shrink_scenario)
    by (apply run_reachable; constructor).
  destruct (balancer_accounting shrink_scenario Hr) as (_ & _ & H & _).
  exact H.
Defined.

Section Overload.

Import LoadBalancer.

Lemma regular_utilization (i : nat) (w : WebServer.t) :
  regular_worker i w ->
  (WebServer.getUtilization w == inject_Z (20 * WebServer.getQueueSize w))%Q.
Proof.
  intros (_ & _ & Hcap & _ & Hload & _).
  unfold WebServer.getUtilization. rewrite Hcap, Hload. simpl.
  unfold Qeq, Qdiv, Qmult, Qinv, inject_Z. simpl. lia.
Qed.

Lemma sumActive_regular (l : list WebServer.t) :
  Forall (fun w => exists i, regular_worker i w) l ->
  forall (totalUtilization : Q) (activeServers : Z),
    (fst (sumActive l totalUtilization activeServers)
     == totalUtilization + inject_Z (20 * total_in_flight l))%Q
    /\ snd (sumActive l totalUtilization activeServers)
       = activeServers + Z.of_nat (length l).
Proof.
  induction 1 as [|w l [i Hw] Hl IH]; intros total n.
  - simpl. split; [|lia]. unfold total_in_flight. simpl.
    change (inject_Z 0) with 0%Q. now rewrite Qplus_0_r.
  - cbn [sumActive].
    assert (Hact : WebServer.isActive w = true) by apply Hw.
    rewrite Hact.
    destruct (IH (total + WebServer.getUtilization w)%Q (n + 1)) as [IH1 IH2].
    split.
    + rewrite IH1, (regular_utilization i w Hw), total_in_flight_cons.
      rewrite Z.mul_add_distr_l, (inject_Z_plus (20 * _)).
      now rewrite Qplus_assoc.
    + rewrite IH2. simpl length. lia.
Qed.

Lemma mean_above_ninety (s n : Z) :
  0 < n -> (90 < inject_Z (20 * s) / inject_Z n)%Q <-> 9 * n < 2 * s.
Proof.
  intros Hn. destruct n as [|p|p]; try lia.
  unfold Qlt, Qdiv, Qmult, Qinv, inject_Z. simpl. lia.
Qed.

Lemma queue_above_eighty (q : RequestQueue.t) :
  RequestQueue.maxSize q = 1000 ->
  (80 < RequestQueue.getUtilization q)%Q <-> 800 < RequestQueue.getSize q.
Proof.
  intros Hm. unfold RequestQueue.getUtilization. rewrite Hm. simpl.
  unfold Qlt, Qdiv, Qmult, Qinv, inject_Z. simpl. lia.
Qed.

Lemma regular_pool_Forall (l : list WebServer.t) :
  regular_pool l -> Forall (fun w => exists i, regular_worker i w) l.
Proof.
  intros H. apply Forall_lookup. intros i w Hi. exists i. now apply H.
Qed.

Lemma system_above_ninety (lb : t) :
  regular_pool (servers lb) ->
  (90 < getSystemUtilization lb)%Q
  <-> 9 * size lb < 2 * total_in_flight (servers lb).
Proof.
  intros Hreg. unfold getSystemUtilization, size.
  destruct (servers lb) as [|w0 l0] eqn:E.
  - unfold total_in_flight. simpl. split; [discriminate | lia].
  - rewrite <- E in *.
    destruct (sumActive_regular _ (regular_pool_Forall _ Hreg) 0%Q 0) as [H1 H2].
    destruct (sumActive (servers lb) 0%Q 0) as [total n]. simpl in H1, H2.
    assert (Hn : 0 < n) by (rewrite H2, E; simpl length; lia).
    destruct (Z.ltb_spec 0 n) as [_|]; [|lia].
    rewrite H1, Qplus_0_l.
    replace (Z.of_nat (length (servers lb))) with n by lia.
    now apply mean_above_ninety.
Qed.

End Overload.

(** X23. The overload flag.  In every reachable state the queue of the
    balancer has capacity 1000 and every worker capacity 5, so
    [isOverloaded] answers true exactly when the workers hold more than
    nine tenths of their joint capacity (more than 4.5 items per worker)
    or more than 800 items wait in the queue.  With an empty pool only the
    queue counts. *)
Theorem overload_flag (lb : LoadBalancer.t) :
  LoadBalancer.reachable lb ->
  LoadBalancer.isOverloaded lb = true
  <-> (9 * LoadBalancer.size lb < 2 * total_in_flight (LoadBalancer.servers lb)
       \/ 800 < LoadBalancer.getQueueSize lb).
Proof.
  intros Hr.
  pose proof (reachable_regular lb Hr) as Hreg.
  destruct (reachable_books lb Hr) as (_ & _ & _ & Hmax).
  unfold LoadBalancer.isOverloaded, LoadBalancer.getQueueUtilization,
    LoadBalancer.getQueueSize.
  rewrite orb_true_iff, !Qltb_lt.
  rewrite (system_above_ninety lb Hreg).
  now rewrite (queue_above_eighty _ Hmax).
Qed.

Lemma overload_flag_witness :
  LoadBalancer.isOverloaded backlog_scenario = false
  /\ LoadBalancer.isOverloaded
       (LoadBalancer.run (repeat LoadBalancer.DistributeRequests 3) backlog_scenario)
     = true.
Proof.
  assert (Hr : LoadBalancer.reachable backlog_scenario)
    by (apply run_reachable; constructor).
  split.
  - apply not_true_is_false. intros H.
    apply (proj1 (overload_flag backlog_scenario Hr)) in H.
    vm_compute in H. destruct H as [H | H]; discriminate H.
  - apply (proj2 (overload_flag _ (run_reachable _ _ Hr))).
    left. vm_compute. reflexivity.
Defined.

(** ** The reported wait time of the queue *)

Lemma getAverageWaitTime_closed (q : RequestQueue.t) :
  (RequestQueue.getAverageWaitTime q
   == 10 * inject_Z (RequestQueue.totalRequestsRemoved q))%Q.
Proof.
  unfold RequestQueue.getAverageWaitTime.
  destruct (Z.eqb_spec (RequestQueue.totalRequestsRemoved q) 0) as [->|_].
  - reflexivity.
  - apply Qmult_comm.
Qed.

Lemma queue_run_removed (ops : list queue_op) :
  forall q : RequestQueue.t,
    RequestQueue.totalRequestsRemoved q
    <= RequestQueue.totalRequestsRemoved (queue_run ops q).
Proof.
  induction ops as [|o ops IH]; intros q; [simpl; lia|].
  pose proof (proj1 (queue_step_counters q o)).
  specialize (IH (queue_step q o)). cbn [queue_run fold_left] in *.
  unfold queue_run in IH. lia.
Qed.

(** X24. The wait time the queue reports.  [getAverageWaitTime] does not
    measure waiting: it is ten times the number of items dequeued so far,
    whatever the items and however long they stayed.  It therefore never
    decreases along a sequence of queue operations ([clear] included), and
    [n] dequeues raise it by 10 for each item actually returned. *)
Theorem wait_time_counts_dequeues (q : RequestQueue.t) (ops : list queue_op)
        (n : nat) :
  (RequestQueue.getAverageWaitTime q
   <= RequestQueue.getAverageWaitTime (queue_run ops q))%Q
  /\ (RequestQueue.getAverageWaitTime (snd (dequeueMany n q))
      == RequestQueue.getAverageWaitTime q
         + 10 * inject_Z (Z.of_nat (Nat.min n (length (RequestQueue.requestQueue q)))))%Q
  /\ (RequestQueue.getAverageWaitTime (queue_run ops q)
      == 10 * inject_Z (RequestQueue.totalRequestsRemoved (queue_run ops q)))%Q.
Proof.
  split_and!.
  - rewrite !getAverageWaitTime_closed.
    apply Qmult_le_l; [reflexivity|].
    rewrite <- Zle_Qle. apply queue_run_removed.
  - rewrite dequeueMany_spec, !getAverageWaitTime_closed. cbn [snd].
    cbn [RequestQueue.totalRequestsRemoved].
    rewrite inject_Z_plus. apply Qmult_plus_distr_r.
  - apply getAverageWaitTime_closed.
Qed.

(** ** The blocklist of the balancer *)

Section Firewall.

Import LoadBalancer.

Lemma distributeRequests_blockedIPs (lb : t) :
  RequestQueue.blockedIPs (requestQueue (distributeRequests lb))
  = RequestQueue.blockedIPs (requestQueue lb).
Proof.
  unfold distributeRequests.
  destruct (RequestQueue.isEmpty (requestQueue lb)); [reflexivity|].
  destruct (distributeLoop_outcome (length (servers lb) * 2) lb)
    as (k & _ & _ & _ & _ & _ & _ & Hb & _).
  exact Hb.
Qed.

Lemma step_blockedIPs (lb : t) (o : op) (ip : string) :
  is_unblock ip o = false ->
  In ip (RequestQueue.blockedIPs (requestQueue lb)) ->
  In ip (RequestQueue.blockedIPs (requestQueue (step lb o))).
Proof.
  intros Ho Hin. destruct o; cbn [step].
  - destruct (addServer_spec lb) as (_ & _ & Q & _). cbn zeta in Q. now rewrite Q.
  - destruct (removeServer_spec lb) as (_ & _ & Q & _). cbn zeta in Q. now rewrite Q.
  - unfold addRequest, RequestQueue.addRequest.
    destruct (RequestQueue.isIPBlocked _ _); [exact Hin|].
    destruct (RequestQueue.isFull _); exact Hin.
  - rewrite processCycle_unfold. cbn zeta.
    set (lb1 := setServers lb (snd (processServers (servers lb) 0))).
    destruct (checkLoadBalancing_frame (distributeRequests lb1)) as (_ & _ & Cq & _).
    cbn zeta in Cq. simpl. rewrite Cq, distributeRequests_blockedIPs. exact Hin.
  - now rewrite distributeRequests_blockedIPs.
  - destruct (checkLoadBalancing_frame lb) as (_ & _ & Cq & _).
    cbn zeta in Cq. now rewrite Cq.
  - unfold blockIP, RequestQueue.blockIP. simpl.
    destruct (RequestQueue.isIPBlocked _ _); [exact Hin|].
    simpl. apply in_or_app. now left.
  - simpl in Ho. apply String.eqb_neq in Ho.
    unfold unblockIP, RequestQueue.unblockIP. simpl.
    apply In_eraseFirst_other; [exact Ho | exact Hin].
Qed.

Lemma run_blockedIPs (ops : list op) (ip : string) :
  forallb (fun o => negb (is_unblock ip o)) ops = true ->
  forall lb : t,
    In ip (RequestQueue.blockedIPs (requestQueue lb)) ->
    In ip (RequestQueue.blockedIPs (requestQueue (run ops lb))).
Proof.
  induction ops as [|o ops IH]; intros Hops lb Hin; [exact Hin|].
  simpl in Hops. apply andb_true_iff in Hops as [Ho Hops].
  apply negb_true_iff in Ho.
  apply (IH Hops (step lb o)). now apply step_blockedIPs.
Qed.

Lemma blockIP_blocks (lb : t) (ip : string) :
  In ip (RequestQueue.blockedIPs (requestQueue (blockIP lb ip))).
Proof.
  unfold blockIP, RequestQueue.blockIP. simpl.
  destruct (RequestQueue.isIPBlocked (requestQueue lb) ip) eqn:E.
  - now apply existsb_eqb_In.
  - simpl. apply in_or_app. right. now left.
Qed.

End Firewall.

(** X25. The blocklist of the balancer holds.  Once [blockIP] has been
    called for an address, and whatever the balancer does afterwards
    (cycles, distribution, scaling, other blocks and unblocks) short of
    [unblockIP] for that very address, [addRequest] refuses every request
    from the address: it returns false and leaves the whole state, queue
    counters included, as it was. *)
Theorem blocked_address_stays_out (lb : LoadBalancer.t) (ip : string)
        (ops : list LoadBalancer.op) (request : Request.t) :
  forallb (fun o => negb (is_unblock ip o)) ops = true ->
  Request.getClientIP request = ip ->
  let lb' := LoadBalancer.run ops (LoadBalancer.blockIP lb ip) in
  LoadBalancer.addRequest lb' request = (false, lb')
  /\ RequestQueue.isIPBlocked (LoadBalancer.requestQueue lb') ip = true.
Proof.
  intros Hops Hip lb'.
  assert (Hb : RequestQueue.isIPBlocked (LoadBalancer.requestQueue lb') ip = true).
  { apply existsb_eqb_In. apply run_blockedIPs; [exact Hops|].
    apply blockIP_blocks. }
  split; [|exact Hb].
  unfold LoadBalancer.addRequest, RequestQueue.addRequest.
  rewrite Hip, Hb. simpl. now destruct lb'.
Qed.

Lemma blocked_address_stays_out_witness :
  let ops := [LoadBalancer.ProcessCycle; LoadBalancer.UnblockIP "10.0.0.8";
              LoadBalancer.BlockIP "10.0.0.9"; LoadBalancer.ProcessCycle] in
  let lb' := LoadBalancer.run ops (LoadBalancer.blockIP backlog_scenario "10.0.0.7") in
  LoadBalancer.addRequest lb' (Request.mk "10.0.0.7" "GET" 5 4 12) = (false, lb').
Proof.
  intros ops lb'.
  exact (proj1 (blocked_address_stays_out backlog_scenario "10.0.0.7" ops
                  (Request.mk "10.0.0.7" "GET" 5 4 12) eq_refl eq_refl)).
Defined.
